(** * NetOpsHub: a shallow embedding of the telemetry and correlation core

    The development follows the Python sources under
    [backend/src/netopshub]: the data models of [models.py], the health
    engine ([monitor/health.py]), the anomaly engine
    ([anomaly/detector.py]), the alert manager ([monitor/alerting.py]),
    the configuration store ([config/manager.py]), the topology graph
    ([discover/topology.py]) and the forecast agent
    ([agents/forecast_agent.py]).

    Modelling conventions.
    - Python [float]s are exact rationals [Q]: comparisons are the
      comparisons of the values, arithmetic is exact; NaN, infinities and
      IEEE rounding are outside the model, and so are the inputs on
      which Python raises [OverflowError] (a float power out of range, a
      [datetime] past the year 9999): there the model goes on with the
      exact value. A property whose conclusion needs a float operation of
      the program to be exact or in range states the range of its inputs
      as a hypothesis.
    - [datetime] values are integers (microseconds since the epoch); every
      read of [datetime.utcnow()] is an explicit argument [now].
    - [uuid.uuid4()], [math.sqrt] and the rendering of a float into text
      are section variables: the code is verified for every choice of them.
      [hashlib.sha256] is implemented in [SHA256]; the configuration store
      is verified for every hash function and run with that one.
    - Python objects that are mutated while shared (the [Alert]s held by the
      alert manager) live in an explicit heap and are named by references. *)

From Stdlib Require Import ZArith QArith Qround Qabs Lia Ascii String.
From stdpp Require Import base option strings list gmap.

Local Open Scope Z_scope.

#[local] Set Warnings "-clear-no-such-hyp".

(* ===================================================================== *)
(** ** Python helpers *)

Module Py.

(** [l[i:]] for a Python list [l] and an integer [i]. *)
Definition slice_from {A : Type} (i : Z) (l : list A) : list A :=
  let n := Z.of_nat (length l) in
  let start := if i <? 0 then Z.max 0 (n + i) else Z.min i n in
  drop (Z.to_nat start) l.

(** [l[-m:]], the slice that the engines use to trim a history. *)
Definition last_n {A : Type} (m : Z) (l : list A) : list A :=
  slice_from (- m) l.

(** The trimming idiom of both engines:
    [if len(l) > cap: l = l[-cap:]]. *)
Definition trim {A : Type} (cap : Z) (l : list A) : list A :=
  if Z.of_nat (length l) >? cap then last_n cap l else l.

(** [a or b] on strings: the empty string is falsy. *)
Definition str_or (a b : string) : string :=
  if decide (a = "") then b else a.

(** Truthiness of an [Optional[str]]. *)
Definition truthy_str (o : option string) : bool :=
  match o with
  | Some s => if decide (s = "") then false else true
  | None => false
  end.

(** Truthiness of an [Optional[float]]: [None] and [0.0] are falsy. *)
Definition truthy_float (o : option Q) : bool :=
  match o with
  | Some q => negb (Qeq_bool q 0)
  | None => false
  end.

(** [str.upper] on ASCII text. *)
Definition upper_ascii (c : ascii) : ascii :=
  let n := nat_of_ascii c in
  if (97 <=? n)%nat && (n <=? 122)%nat then ascii_of_nat (n - 32) else c.

Fixpoint upper (s : string) : string :=
  match s with
  | EmptyString => EmptyString
  | String c r => String (upper_ascii c) (upper r)
  end.

(** [x >= y] on floats. *)
Definition ge (x y : Q) : bool := Qle_bool y x.
Definition gt (x y : Q) : bool := negb (Qle_bool x y).
Definition lt (x y : Q) : bool := negb (Qle_bool y x).

End Py.

(* ===================================================================== *)
(** ** models.py *)

Inductive MetricType :=
| CPU | MEMORY | BANDWIDTH_IN | BANDWIDTH_OUT | ERROR_RATE | DISCARD_RATE
| LATENCY | JITTER | PACKET_LOSS | TEMPERATURE | POWER | FAN_SPEED
| UPTIME | BGP_PREFIXES | OSPF_NEIGHBORS | CUSTOM.

Definition MetricType_value (t : MetricType) : string :=
  match t with
  | CPU => "cpu" | MEMORY => "memory" | BANDWIDTH_IN => "bandwidth_in"
  | BANDWIDTH_OUT => "bandwidth_out" | ERROR_RATE => "error_rate"
  | DISCARD_RATE => "discard_rate" | LATENCY => "latency"
  | JITTER => "jitter" | PACKET_LOSS => "packet_loss"
  | TEMPERATURE => "temperature" | POWER => "power"
  | FAN_SPEED => "fan_speed" | UPTIME => "uptime"
  | BGP_PREFIXES => "bgp_prefixes" | OSPF_NEIGHBORS => "ospf_neighbors"
  | CUSTOM => "custom"
  end.

#[global] Instance MetricType_eq_dec : EqDecision MetricType.
Proof. solve_decision. Defined.

Inductive AlertSeverity := INFO | WARNING | CRITICAL | EMERGENCY.

Definition AlertSeverity_value (s : AlertSeverity) : string :=
  match s with
  | INFO => "info" | WARNING => "warning"
  | CRITICAL => "critical" | EMERGENCY => "emergency"
  end.

(** [list(AlertSeverity).index(s)]: the position in declaration order. *)
Definition AlertSeverity_index (s : AlertSeverity) : nat :=
  match s with
  | INFO => 0 | WARNING => 1 | CRITICAL => 2 | EMERGENCY => 3
  end%nat.

#[global] Instance AlertSeverity_eq_dec : EqDecision AlertSeverity.
Proof. solve_decision. Defined.

Inductive AlertState := ACTIVE | ACKNOWLEDGED | RESOLVED | SUPPRESSED.

#[global] Instance AlertState_eq_dec : EqDecision AlertState.
Proof. solve_decision. Defined.

Inductive CollectorType := SNMP | NETFLOW | SYSLOG | REST_API.

Record Metric := mkMetric {
  m_id : string;
  m_device_id : string;
  m_device_hostname : string;
  m_interface_name : option string;
  m_metric_type : MetricType;
  m_value : Q;
  m_unit : string;
  m_timestamp : Z;
  m_source : CollectorType;
  m_tags : list (string * string)
}.

Record MetricThreshold := mkMetricThreshold {
  t_metric_type : MetricType;
  warning_threshold : Q;
  critical_threshold : Q;
  emergency_threshold : option Q;
  comparison : string;
  duration_seconds : Z;
  device_filter : option string;
  interface_filter : option string
}.

Record Alert := mkAlert {
  id : string;
  device_id : string;
  device_hostname : string;
  interface_name : option string;
  severity : AlertSeverity;
  state : AlertState;
  title : string;
  description : string;
  metric_type : option MetricType;
  metric_value : option Q;
  threshold_value : option Q;
  source : string;
  correlation_id : option string;
  created_at : Z;
  acknowledged_at : option Z;
  resolved_at : option Z;
  acknowledged_by : option string;
  tags : list (string * string)
}.

(** Field updates of a (mutable) [Alert]. *)
Definition set_state (s : AlertState) (a : Alert) : Alert :=
  mkAlert a.(id) a.(device_id) a.(device_hostname) a.(interface_name)
    a.(severity) s a.(title) a.(description) a.(metric_type)
    a.(metric_value) a.(threshold_value) a.(source) a.(correlation_id)
    a.(created_at) a.(acknowledged_at) a.(resolved_at) a.(acknowledged_by)
    a.(tags).

Definition set_acknowledged (at_ : Z) (who : string) (a : Alert) : Alert :=
  mkAlert a.(id) a.(device_id) a.(device_hostname) a.(interface_name)
    a.(severity) a.(state) a.(title) a.(description) a.(metric_type)
    a.(metric_value) a.(threshold_value) a.(source) a.(correlation_id)
    a.(created_at) (Some at_) a.(resolved_at) (Some who) a.(tags).

Definition set_resolved_at (at_ : Z) (a : Alert) : Alert :=
  mkAlert a.(id) a.(device_id) a.(device_hostname) a.(interface_name)
    a.(severity) a.(state) a.(title) a.(description) a.(metric_type)
    a.(metric_value) a.(threshold_value) a.(source) a.(correlation_id)
    a.(created_at) a.(acknowledged_at) (Some at_) a.(acknowledged_by)
    a.(tags).

Definition set_metric_value (v : option Q) (a : Alert) : Alert :=
  mkAlert a.(id) a.(device_id) a.(device_hostname) a.(interface_name)
    a.(severity) a.(state) a.(title) a.(description) a.(metric_type)
    v a.(threshold_value) a.(source) a.(correlation_id)
    a.(created_at) a.(acknowledged_at) a.(resolved_at) a.(acknowledged_by)
    a.(tags).

Definition set_description (d : string) (a : Alert) : Alert :=
  mkAlert a.(id) a.(device_id) a.(device_hostname) a.(interface_name)
    a.(severity) a.(state) a.(title) d a.(metric_type)
    a.(metric_value) a.(threshold_value) a.(source) a.(correlation_id)
    a.(created_at) a.(acknowledged_at) a.(resolved_at) a.(acknowledged_by)
    a.(tags).

Definition set_severity (s : AlertSeverity) (a : Alert) : Alert :=
  mkAlert a.(id) a.(device_id) a.(device_hostname) a.(interface_name)
    s a.(state) a.(title) a.(description) a.(metric_type)
    a.(metric_value) a.(threshold_value) a.(source) a.(correlation_id)
    a.(created_at) a.(acknowledged_at) a.(resolved_at) a.(acknowledged_by)
    a.(tags).

(* ===================================================================== *)
(** ** monitor/health.py *)

Module Health.

Definition mk_threshold (t : MetricType) (w c : Q) (e : option Q)
    : MetricThreshold :=
  mkMetricThreshold t w c e "gt" 60 None None.

Definition DEFAULT_THRESHOLDS : list MetricThreshold :=
  [ mk_threshold CPU 70 85 (Some 95%Q);
    mk_threshold MEMORY 75 90 (Some 97%Q);
    mk_threshold ERROR_RATE 1 5 (Some 10%Q);
    mk_threshold TEMPERATURE 65 75 (Some 85%Q);
    mk_threshold PACKET_LOSS 0.5 2 (Some 5%Q) ].

Record HealthMonitor := mkHealthMonitor {
  _thresholds : MetricType -> option MetricThreshold;
  _metric_history : gmap string (list Metric);
  _alerts : list Alert;
  _max_history : Z
}.

(** [{t.metric_type: t for t in l}]: a later entry replaces an earlier one. *)
Definition thresholds_dict (l : list MetricThreshold)
    : MetricType -> option MetricThreshold :=
  fun t => last (filter (fun th => t_metric_type th = t) l).

(** [HealthMonitor.__init__]; [thresholds or DEFAULT_THRESHOLDS] falls back
    to the defaults on [None] and on the empty list. *)
Definition init (thresholds : option (list MetricThreshold)) : HealthMonitor :=
  let l := match thresholds with
           | Some (t :: r) => t :: r
           | _ => DEFAULT_THRESHOLDS
           end in
  mkHealthMonitor (thresholds_dict l) ∅ [] 1000.

Definition set_threshold (th : MetricThreshold) (self : HealthMonitor)
    : HealthMonitor :=
  mkHealthMonitor
    (fun t => if decide (t = t_metric_type th) then Some th
              else _thresholds self t)
    (_metric_history self) (_alerts self) (_max_history self).

(** The key [f"{metric.device_id}:{metric.metric_type.value}"]. *)
Definition series_key (dev : string) (t : MetricType) : string :=
  dev +:+ ":" +:+ MetricType_value t.

Definition history_of (self : HealthMonitor) (key : string) : list Metric :=
  default [] (_metric_history self !! key).

Section WithEnvironment.

(** [uuid4 k] is the identifier drawn for the [k]-th alert the monitor
    builds; [float_str] renders a float inside an f-string. *)
Variable uuid4 : nat -> string.
Variable float_str : Q -> string.

(** The tier selection of [_check_threshold]: the [if / elif / elif] chain
    that sets [severity] and [threshold_value]. *)
Definition select_tier (th : MetricThreshold) (value : Q)
    : option (AlertSeverity * Q) :=
  if Py.truthy_float (emergency_threshold th)
     && Py.ge value (default 0%Q (emergency_threshold th))
  then Some (EMERGENCY, default 0%Q (emergency_threshold th))
  else if Py.ge value (critical_threshold th)
  then Some (CRITICAL, critical_threshold th)
  else if Py.ge value (warning_threshold th)
  then Some (WARNING, warning_threshold th)
  else None.

Definition _check_threshold (self : HealthMonitor) (now : Z)
    (metric : Metric) : option Alert :=
  match _thresholds self (m_metric_type metric) with
  | None => None
  | Some th =>
      let value := m_value metric in
      match select_tier th value with
      | None => None
      | Some (sev, threshold_value) =>
          let tv := MetricType_value (m_metric_type metric) in
          Some (mkAlert
            (uuid4 (length (_alerts self)))
            (m_device_id metric)
            (m_device_hostname metric)
            (m_interface_name metric)
            sev
            ACTIVE
            (Py.upper tv +:+ " threshold exceeded on "
               +:+ Py.str_or (m_device_hostname metric) (m_device_id metric))
            (tv +:+ " is " +:+ float_str value +:+ m_unit metric
               +:+ ", exceeding " +:+ AlertSeverity_value sev
               +:+ " threshold of " +:+ float_str threshold_value
               +:+ m_unit metric)
            (Some (m_metric_type metric))
            (Some value)
            (Some threshold_value)
            "health_monitor"
            None
            now
            None None None [])
      end
  end.

(** One iteration of the loop of [process_metrics]. *)
Definition process_metric (now : Z) (acc : HealthMonitor * list Alert)
    (metric : Metric) : HealthMonitor * list Alert :=
  let '(self, new_alerts) := acc in
  let key := series_key (m_device_id metric) (m_metric_type metric) in
  let appended := history_of self key ++ [metric] in
  (* Trim history *)
  let trimmed := Py.trim (_max_history self) appended in
  let self1 := mkHealthMonitor (_thresholds self)
                 (<[key := trimmed]> (_metric_history self))
                 (_alerts self) (_max_history self) in
  match _check_threshold self1 now metric with
  | Some alert =>
      (mkHealthMonitor (_thresholds self1) (_metric_history self1)
         (_alerts self1 ++ [alert]) (_max_history self1),
       new_alerts ++ [alert])
  | None => (self1, new_alerts)
  end.

Definition process_metrics (self : HealthMonitor) (now : Z)
    (metrics : list Metric) : HealthMonitor * list Alert :=
  foldl (process_metric now) (self, []) metrics.

End WithEnvironment.

Definition alert_count (self : HealthMonitor) : nat := length (_alerts self).

End Health.

(* ===================================================================== *)
(** ** anomaly/detector.py *)

Module Anomaly.

Record MaintenanceWindow := mkMaintenanceWindow {
  w_name : string;
  w_start : Z;
  w_end : Z;
  w_device_ids : option (list string)   (* None = all devices *)
}.

Definition is_active (w : MaintenanceWindow) (now : Z) : bool :=
  (w_start w <=? now) && (now <=? w_end w).

Definition covers_device (w : MaintenanceWindow) (dev : string) : bool :=
  match w_device_ids w with
  | None => true
  | Some ids => bool_decide (dev ∈ ids)
  end.

Record AnomalyResult := mkAnomalyResult {
  is_anomaly : bool;
  score : Q;
  method : string;
  r_metric : Metric;
  details : string;
  r_timestamp : Z
}.

Record AnomalyDetector := mkAnomalyDetector {
  z_score_threshold : Q;
  iqr_multiplier : Q;
  ewma_alpha : Q;
  min_samples : Z;
  _history : gmap string (list Q);
  _ewma : gmap string Q;
  _ewma_var : gmap string Q;
  _maintenance_windows : list MaintenanceWindow;
  _anomalies : list AnomalyResult;
  _max_history : Z
}.

(** [AnomalyDetector.__init__] with its default arguments. *)
Definition init : AnomalyDetector :=
  mkAnomalyDetector 3 1.5 0.3 10 ∅ ∅ ∅ [] [] 2000.

Definition series_key (dev : string) (t : MetricType) : string :=
  dev +:+ ":" +:+ MetricType_value t.

Definition history_of (self : AnomalyDetector) (key : string) : list Q :=
  default [] (_history self !! key).

Definition with_history (h : gmap string (list Q)) (self : AnomalyDetector)
    : AnomalyDetector :=
  mkAnomalyDetector (z_score_threshold self) (iqr_multiplier self)
    (ewma_alpha self) (min_samples self) h (_ewma self) (_ewma_var self)
    (_maintenance_windows self) (_anomalies self) (_max_history self).

Definition with_ewma (e v : gmap string Q) (self : AnomalyDetector)
    : AnomalyDetector :=
  mkAnomalyDetector (z_score_threshold self) (iqr_multiplier self)
    (ewma_alpha self) (min_samples self) (_history self) e v
    (_maintenance_windows self) (_anomalies self) (_max_history self).

Definition with_anomalies (l : list AnomalyResult) (self : AnomalyDetector)
    : AnomalyDetector :=
  mkAnomalyDetector (z_score_threshold self) (iqr_multiplier self)
    (ewma_alpha self) (min_samples self) (_history self) (_ewma self)
    (_ewma_var self) (_maintenance_windows self) l (_max_history self).

Definition add_maintenance_window (w : MaintenanceWindow)
    (self : AnomalyDetector) : AnomalyDetector :=
  mkAnomalyDetector (z_score_threshold self) (iqr_multiplier self)
    (ewma_alpha self) (min_samples self) (_history self) (_ewma self)
    (_ewma_var self) (_maintenance_windows self ++ [w]) (_anomalies self)
    (_max_history self).

(** [_in_maintenance]: [any(w.is_active(now) and w.covers_device(d) ...)]. *)
Definition _in_maintenance (self : AnomalyDetector) (now : Z) (dev : string)
    : bool :=
  existsb (fun w => is_active w now && covers_device w dev)
          (_maintenance_windows self).

(** Specification of the gate: a window that is active at [now] and covers
    [dev]. *)
Definition covering (w : MaintenanceWindow) (now : Z) (dev : string) : Prop :=
  w_start w <= now <= w_end w
  /\ (w_device_ids w = None
      \/ exists ids, w_device_ids w = Some ids /\ dev ∈ ids).

(** Sums and [statistics.mean] over floats. *)
Definition qsum (l : list Q) : Q := foldr Qplus 0%Q l.

Definition mean (l : list Q) : Q :=
  (qsum l / inject_Z (Z.of_nat (length l)))%Q.

(** [sorted] on floats, by insertion. *)
Fixpoint insert_sorted (x : Q) (l : list Q) : list Q :=
  match l with
  | [] => [x]
  | y :: r => if Qle_bool x y then x :: y :: r else y :: insert_sorted x r
  end.

Definition sorted (l : list Q) : list Q := foldr insert_sorted [] l.

Definition qmax (x y : Q) : Q := if Qle_bool x y then y else x.

Section WithEnvironment.

(** [sqrt] is [math.sqrt]; [float_str] and [fmt2] render a float as
    [f"{x}"] and [f"{x:.2f}"]. *)
Variable sqrt : Q -> Q.
Variable float_str : Q -> string.
Variable fmt2 : Q -> string.

(** [statistics.stdev]: the square root of the sample variance. *)
Definition stdev (l : list Q) : Q :=
  let mu := mean l in
  sqrt (qsum (map (fun x => (x - mu) * (x - mu)) l)
        / inject_Z (Z.of_nat (length l) - 1))%Q.

Definition _z_score_detect (self : AnomalyDetector) (now : Z)
    (metric : Metric) (history : list Q) : option AnomalyResult :=
  let mu := mean history in
  let std := if (1 <? length history)%nat then stdev history else 0%Q in
  if Qeq_bool std 0 then None
  else
    let z_score := ((m_value metric - mu) / std)%Q in
    if Py.gt (Qabs z_score) (z_score_threshold self)
    then Some (mkAnomalyResult true (Qabs z_score) "z_score" metric
                 ("Z-score " +:+ fmt2 z_score +:+ " exceeds threshold "
                    +:+ float_str (z_score_threshold self)
                    +:+ " (mean=" +:+ fmt2 mu +:+ ", std=" +:+ fmt2 std
                    +:+ ")")
                 now)
    else None.

Definition _iqr_detect (self : AnomalyDetector) (now : Z)
    (metric : Metric) (history : list Q) : option AnomalyResult :=
  let sorted_vals := sorted history in
  let n := length sorted_vals in
  let q1 := nth (n / 4) sorted_vals 0%Q in
  let q3 := nth (3 * n / 4) sorted_vals 0%Q in
  let iqr := (q3 - q1)%Q in
  let lower := (q1 - iqr_multiplier self * iqr)%Q in
  let upper := (q3 + iqr_multiplier self * iqr)%Q in
  let v := m_value metric in
  if Py.lt v lower || Py.gt v upper
  then Some (mkAnomalyResult true
               (qmax (Qabs (v - lower)) (Qabs (v - upper))
                  / (if Py.gt iqr 0 then iqr else 1))%Q
               "iqr" metric
               ("Value " +:+ fmt2 v +:+ " outside IQR bounds ["
                  +:+ fmt2 lower +:+ ", " +:+ fmt2 upper +:+ "]")
               now)
  else None.

(** [_ewma_detect], in exact arithmetic: the moving average and its
    variance are the exact weighted sums, without the rounding of each
    update. *)
Definition _ewma_detect (self : AnomalyDetector) (now : Z)
    (metric : Metric) (key : string)
    : AnomalyDetector * option AnomalyResult :=
  let alpha := ewma_alpha self in
  let v := m_value metric in
  match _ewma self !! key with
  | None =>
      (with_ewma (<[key := v]> (_ewma self))
                 (<[key := 0%Q]> (_ewma_var self)) self, None)
  | Some prev_ewma =>
      let new_ewma := (alpha * v + (1 - alpha) * prev_ewma)%Q in
      let diff := (v - prev_ewma)%Q in
      let prev_var := default 0%Q (_ewma_var self !! key) in
      let new_var := (alpha * (diff * diff) + (1 - alpha) * prev_var)%Q in
      let self1 := with_ewma (<[key := new_ewma]> (_ewma self))
                             (<[key := new_var]> (_ewma_var self)) self in
      let std := if Py.gt new_var 0 then sqrt new_var else 0%Q in
      if Qeq_bool std 0 then (self1, None)
      else
        let z := (Qabs diff / std)%Q in
        if Py.gt z (z_score_threshold self)
        then (self1,
              Some (mkAnomalyResult true z "ewma" metric
                      ("EWMA deviation " +:+ fmt2 z
                         +:+ " exceeds threshold (ewma=" +:+ fmt2 new_ewma
                         +:+ ", std=" +:+ fmt2 std +:+ ")")
                      now))
        else (self1, None)
  end.

Definition default_methods : list string := ["z_score"; "iqr"; "ewma"].

Definition opt_list {A : Type} (o : option A) : list A :=
  match o with Some x => [x] | None => [] end.

(** [AnomalyDetector.detect]. [methods] is the optional argument;
    [methods or [...]] replaces [None] and the empty list by the defaults. *)
Definition detect (self : AnomalyDetector) (now : Z) (metric : Metric)
    (methods : option (list string))
    : AnomalyDetector * list AnomalyResult :=
  let methods := match methods with
                 | Some (m :: r) => m :: r
                 | _ => default_methods
                 end in
  let key := series_key (m_device_id metric) (m_metric_type metric) in
  (* Update history *)
  let appended := history_of self key ++ [m_value metric] in
  let trimmed := Py.trim (_max_history self) appended in
  let self1 := with_history (<[key := trimmed]> (_history self)) self in
  (* Check maintenance windows *)
  if _in_maintenance self1 now (m_device_id metric) then (self1, [])
  else
    let history := history_of self1 key in
    if Z.of_nat (length history) <? min_samples self1 then (self1, [])
    else
      let r1 := if bool_decide ("z_score" ∈ methods)
                then opt_list (_z_score_detect self1 now metric history)
                else [] in
      let r2 := if bool_decide ("iqr" ∈ methods)
                then opt_list (_iqr_detect self1 now metric history)
                else [] in
      let '(self2, r3) :=
        if bool_decide ("ewma" ∈ methods)
        then let '(s, r) := _ewma_detect self1 now metric key in
             (s, opt_list r)
        else (self1, []) in
      let results := r1 ++ r2 ++ r3 in
      (with_anomalies (_anomalies self2 ++ results) self2, results).

(** [detect_batch], each metric with the clock reading of its own call. *)
Definition detect_batch (self : AnomalyDetector)
    (metrics : list (Z * Metric)) : AnomalyDetector * list AnomalyResult :=
  foldl (fun acc nm =>
           let '(s, all_results) := acc in
           let '(s', results) := detect s (fst nm) (snd nm) None in
           (s', all_results ++ results))
        (self, []) metrics.

End WithEnvironment.

(** *** Temporal correlation *)

Record CorrelationGroup := mkCorrelationGroup {
  size : nat;
  devices : list string;
  metrics : list string;
  time_span_seconds : Q
}.

(** [timedelta.total_seconds()] of a difference of two instants. *)
Definition total_seconds (delta_us : Z) : Q := (delta_us # 1000000)%Q.

(** [abs((a.timestamp - b.timestamp).total_seconds()) <= window_seconds]. *)
Definition within_window (window_seconds : Z) (a b : AnomalyResult) : bool :=
  Qle_bool (Qabs (total_seconds (r_timestamp a - r_timestamp b)))
           (inject_Z window_seconds).

(** [enumerate(l, start)]. *)
Definition enumerate {A : Type} (start : nat) (l : list A) : list (nat * A) :=
  zip (seq start (length l)) l.

(** Body of the inner loop: [group] and [used] are the mutated variables. *)
Definition inner_step (window_seconds : Z) (anomaly_a : AnomalyResult)
    (acc : list AnomalyResult * gset nat) (jb : nat * AnomalyResult)
    : list AnomalyResult * gset nat :=
  let '(group, used) := acc in
  let '(j, anomaly_b) := jb in
  if bool_decide (j ∈ used) then acc
  else if within_window window_seconds anomaly_a anomaly_b
       then (group ++ [anomaly_b], used ∪ {[ j ]})
       else acc.

(** Body of the outer loop: [groups] and [used] are the mutated variables. *)
Definition outer_step (window_seconds : Z) (anomalies : list AnomalyResult)
    (acc : list (list AnomalyResult) * gset nat) (ia : nat * AnomalyResult)
    : list (list AnomalyResult) * gset nat :=
  let '(groups, used) := acc in
  let '(i, anomaly_a) := ia in
  if bool_decide (i ∈ used) then acc
  else
    let '(group, used') :=
      foldl (inner_step window_seconds anomaly_a)
            ([anomaly_a], used ∪ {[ i ]})
            (enumerate (i + 1) (drop (i + 1) anomalies)) in
    (if (1 <? length group)%nat then groups ++ [group] else groups, used').

(** The local variable [groups] at the end of the outer loop. *)
Definition correlation_groups (window_seconds : Z)
    (anomalies : list AnomalyResult) : list (list AnomalyResult) :=
  fst (foldl (outer_step window_seconds anomalies) ([], ∅)
             (enumerate 0 anomalies)).

Definition zmax_list (d : Z) (l : list Z) : Z := foldr Z.max d l.
Definition zmin_list (d : Z) (l : list Z) : Z := foldr Z.min d l.

(** [max(...)] and [min(...)] over the timestamps of a non-empty group. *)
Definition max_timestamp (group : list AnomalyResult) : Z :=
  match map r_timestamp group with
  | [] => 0
  | t :: r => zmax_list t r
  end.

Definition min_timestamp (group : list AnomalyResult) : Z :=
  match map r_timestamp group with
  | [] => 0
  | t :: r => zmin_list t r
  end.

(** The dictionary built for one group. [list(set(...))] has no specified
    order in Python; the model lists each element once, in order of first
    occurrence. *)
Definition summarize (group : list AnomalyResult) : CorrelationGroup :=
  mkCorrelationGroup
    (length group)
    (remove_dups (map (fun a => m_device_id (r_metric a)) group))
    (remove_dups
       (map (fun a => MetricType_value (m_metric_type (r_metric a))) group))
    (total_seconds (max_timestamp group - min_timestamp group)).

(** Specification of a correlation group: its first member is the anchor,
    and every member lies within the window of the anchor. *)
Definition anchored (window_seconds : Z) (g : list AnomalyResult) : Prop :=
  exists a rest,
    g = a :: rest
    /\ Forall (fun b => within_window window_seconds a b = true) g.

(** Specification of what the outer loop keeps in [groups]. *)
Definition kept (window_seconds : Z) (anomalies g : list AnomalyResult) : Prop :=
  (1 < length g)%nat /\ anchored window_seconds g /\ (forall x, x ∈ g -> x ∈ anomalies).

Definition correlate_anomalies (self : AnomalyDetector) (window_seconds : Z)
    : list CorrelationGroup :=
  match _anomalies self with
  | [] => []
  | _ => map summarize (correlation_groups window_seconds (_anomalies self))
  end.

End Anomaly.

(* ===================================================================== *)
(** ** monitor/alerting.py *)

Module Alerting.

(** [Alert]s are mutable objects shared between the manager, its callers
    and the values it returns: they live in a heap and are named by
    references. *)
Definition ref := nat.
Definition Heap := ref -> Alert.

Definition heap_set (h : Heap) (r : ref) (a : Alert) : Heap :=
  fun r' => if decide (r' = r) then a else h r'.

(** An insertion-ordered [dict] with string keys. *)
Fixpoint dict_get {V : Type} (k : string) (d : list (string * V)) : option V :=
  match d with
  | [] => None
  | (k', v) :: r => if decide (k' = k) then Some v else dict_get k r
  end.

Fixpoint dict_set {V : Type} (k : string) (v : V) (d : list (string * V))
    : list (string * V) :=
  match d with
  | [] => [(k, v)]
  | (k', v') :: r =>
      if decide (k' = k) then (k, v) :: r else (k', v') :: dict_set k v r
  end.

(** An entry of [_suppression_rules]. *)
Record SuppressionRule := mkSuppressionRule {
  rule_device_id : option string;
  rule_metric_type : option string;
  rule_start_time : option Z;
  rule_end_time : option Z;
  rule_reason : string
}.

Record AlertManager := mkAlertManager {
  _alerts : list (string * ref);
  _suppression_rules : list SuppressionRule
}.

Definition init : AlertManager := mkAlertManager [] [].

(** The body of the loop of [_is_suppressed]: [false] for [continue],
    [true] for [return True]. *)
Definition rule_applies (now : Z) (rule : SuppressionRule) (alert : Alert)
    : bool :=
  if match rule_start_time rule with Some s => now <? s | None => false end
  then false
  else if match rule_end_time rule with Some e => now >? e | None => false end
  then false
  else if Py.truthy_str (rule_device_id rule)
          && negb (bool_decide (rule_device_id rule = Some (device_id alert)))
  then false
  else if Py.truthy_str (rule_metric_type rule)
          && match metric_type alert with
             | Some t =>
                 negb (bool_decide
                         (rule_metric_type rule = Some (MetricType_value t)))
             | None => false
             end
  then false
  else true.

Definition _is_suppressed (self : AlertManager) (now : Z) (alert : Alert)
    : bool :=
  existsb (fun rule => rule_applies now rule alert) (_suppression_rules self).

(** [max(old, new, key=lambda s: list(AlertSeverity).index(s))]:
    Python's [max] keeps the first of two equal keys. *)
Definition max_severity (old new : AlertSeverity) : AlertSeverity :=
  if (AlertSeverity_index old <? AlertSeverity_index new)%nat then new else old.

(** The test of the deduplication loop. *)
Definition is_duplicate (h : Heap) (alert existing : ref) : bool :=
  bool_decide (device_id (h existing) = device_id (h alert))
  && bool_decide (metric_type (h existing) = metric_type (h alert))
  && bool_decide (state (h existing) = ACTIVE).

(** The first statement of [add_alert]:
    [if self._is_suppressed(alert): alert.state = AlertState.SUPPRESSED]. *)
Definition suppress_incoming (self : AlertManager) (h : Heap) (now : Z)
    (alert : ref) : Heap :=
  if _is_suppressed self now (h alert)
  then heap_set h alert (set_state SUPPRESSED (h alert))
  else h.

(** The three assignments of the deduplication branch, in order; each
    right-hand side is read from the heap as the previous one left it. *)
Definition dedup_update (h1 : Heap) (alert existing : ref) : Heap :=
  let h2 := heap_set h1 existing
              (set_metric_value (metric_value (h1 alert)) (h1 existing)) in
  let h3 := heap_set h2 existing
              (set_description (description (h2 alert)) (h2 existing)) in
  heap_set h3 existing
    (set_severity
       (max_severity (severity (h3 existing)) (severity (h3 alert)))
       (h3 existing)).

(** [add_alert]: the returned reference, the manager and the heap. The
    loop with its early [return] is a search for the first value of the
    dictionary that passes the test. *)
Definition add_alert (self : AlertManager) (h : Heap) (now : Z) (alert : ref)
    : ref * AlertManager * Heap :=
  let h1 := suppress_incoming self h now alert in
  (* Check for duplicate active alerts *)
  match find (fun kv => is_duplicate h1 alert (snd kv)) (_alerts self) with
  | Some (_, existing) => (existing, self, dedup_update h1 alert existing)
  | None =>
      (alert,
       mkAlertManager (dict_set (id (h1 alert)) alert (_alerts self))
                      (_suppression_rules self),
       h1)
  end.

(** [add_alerts]: [[self.add_alert(a) for a in alerts]]. *)
Definition add_alerts (self : AlertManager) (h : Heap) (now : Z)
    (alerts : list ref) : list ref * AlertManager * Heap :=
  foldl (fun acc a =>
           let '(out, s, hp) := acc in
           let '(r, s', hp') := add_alert s hp now a in
           (out ++ [r], s', hp'))
        ([], self, h) alerts.

Definition acknowledge (self : AlertManager) (h : Heap) (now : Z)
    (alert_id : string) (acknowledged_by : string) : option ref * Heap :=
  match dict_get alert_id (_alerts self) with
  | Some r =>
      if bool_decide (state (h r) = ACTIVE)
      then (Some r,
            heap_set h r
              (set_acknowledged now acknowledged_by
                 (set_state ACKNOWLEDGED (h r))))
      else (None, h)
  | None => (None, h)
  end.

Definition resolve (self : AlertManager) (h : Heap) (now : Z)
    (alert_id : string) : option ref * Heap :=
  match dict_get alert_id (_alerts self) with
  | Some r =>
      if bool_decide (state (h r) = ACTIVE)
         || bool_decide (state (h r) = ACKNOWLEDGED)
      then (Some r,
            heap_set h r (set_resolved_at now (set_state RESOLVED (h r))))
      else (None, h)
  | None => (None, h)
  end.

Definition get_alert (self : AlertManager) (alert_id : string) : option ref :=
  dict_get alert_id (_alerts self).

Definition add_suppression_rule (self : AlertManager)
    (rule : SuppressionRule) : AlertManager :=
  mkAlertManager (_alerts self) (_suppression_rules self ++ [rule]).

Definition total_alerts (self : AlertManager) : nat := length (_alerts self).

(** The operations of the manager that write to it or to the heap, as
    commands; the queries ([get_alert], [get_alerts], [get_summary],
    [total_alerts]) only read. *)
Inductive Op :=
| OpAddAlert (now : Z) (alert : ref)
| OpAddAlerts (now : Z) (alerts : list ref)
| OpAcknowledge (now : Z) (alert_id : string) (acknowledged_by : string)
| OpResolve (now : Z) (alert_id : string)
| OpAddSuppressionRule (rule : SuppressionRule).

Definition run (op : Op) (w : AlertManager * Heap) : AlertManager * Heap :=
  let '(self, h) := w in
  match op with
  | OpAddAlert now a =>
      let '(_, s, hp) := add_alert self h now a in (s, hp)
  | OpAddAlerts now l =>
      let '(_, s, hp) := add_alerts self h now l in (s, hp)
  | OpAcknowledge now i who => (self, snd (acknowledge self h now i who))
  | OpResolve now i => (self, snd (resolve self h now i))
  | OpAddSuppressionRule rule => (add_suppression_rule self rule, h)
  end.

(** *** Specification vocabulary *)

(** [stored self r]: the object [r] is one of the values of [_alerts]. *)
Definition stored (self : AlertManager) (r : ref) : Prop :=
  exists k, (k, r) ∈ _alerts self.

(** [matches h alert existing]: [existing] has the device and the metric
    type of [alert] and is active. *)
Definition matches (h : Heap) (alert existing : ref) : Prop :=
  device_id (h existing) = device_id (h alert)
  /\ metric_type (h existing) = metric_type (h alert)
  /\ state (h existing) = ACTIVE.

(** The dictionary is keyed by the identifiers of its alerts, each key
    once: the invariant that [self._alerts[alert.id] = alert] maintains. *)
Definition keys_wf (self : AlertManager) (h : Heap) : Prop :=
  NoDup (map fst (_alerts self))
  /\ (forall k r, (k, r) ∈ _alerts self -> id (h r) = k).

(** The alert objects that an operation receives as arguments. *)
Definition op_arguments (op : Op) : list ref :=
  match op with
  | OpAddAlert _ a => [a]
  | OpAddAlerts _ l => l
  | _ => []
  end.



End Alerting.

(* ===================================================================== *)
(** ** hashlib.sha256 *)

Module SHA256.

(** 32-bit words are integers in [0, 2^32); additions wrap. *)
Definition w32 (x : Z) : Z := x mod 4294967296.

Definition add32 (x y : Z) : Z := w32 (x + y).

Definition rotr (n x : Z) : Z :=
  Z.lor (Z.shiftr x n) (w32 (Z.shiftl x (32 - n))).

Definition not32 (x : Z) : Z := 4294967295 - x.

Definition ch (x y z : Z) : Z :=
  Z.lxor (Z.land x y) (Z.land (not32 x) z).

Definition maj (x y z : Z) : Z :=
  Z.lxor (Z.lxor (Z.land x y) (Z.land x z)) (Z.land y z).

Definition big_sigma0 (x : Z) : Z :=
  Z.lxor (Z.lxor (rotr 2 x) (rotr 13 x)) (rotr 22 x).

Definition big_sigma1 (x : Z) : Z :=
  Z.lxor (Z.lxor (rotr 6 x) (rotr 11 x)) (rotr 25 x).

Definition small_sigma0 (x : Z) : Z :=
  Z.lxor (Z.lxor (rotr 7 x) (rotr 18 x)) (Z.shiftr x 3).

Definition small_sigma1 (x : Z) : Z :=
  Z.lxor (Z.lxor (rotr 17 x) (rotr 19 x)) (Z.shiftr x 10).

(** The constants of the standard are fractional bits of roots of the
    first primes; they are computed here rather than tabulated. *)
Definition is_prime (n : nat) : bool :=
  forallb (fun d => negb (n mod d =? 0)%nat) (seq 2 (n - 2)).

Definition first_primes (count : nat) : list Z :=
  map Z.of_nat (take count (filter (fun n => is_prime n = true) (seq 2 400))).

(** Integer cube root, bit by bit from the top. *)
Fixpoint icbrt_from (bits : nat) (x acc : Z) : Z :=
  match bits with
  | O => acc
  | S k =>
      let cand := acc + 2 ^ Z.of_nat k in
      if cand * cand * cand <=? x then icbrt_from k x cand
      else icbrt_from k x acc
  end.

Definition icbrt (x : Z) : Z := icbrt_from 40 x 0.

(** The first 32 bits of the fractional parts of the cube roots of the
    first 64 primes. *)
Definition K : list Z :=
  map (fun p => w32 (icbrt (p * 2 ^ 96))) (first_primes 64).

(** The first 32 bits of the fractional parts of the square roots of the
    first 8 primes. *)
Definition H0 : list Z :=
  map (fun p => w32 (Z.sqrt (p * 2 ^ 64))) (first_primes 8).

(** [str.encode()]: a string is the sequence of its UTF-8 bytes. *)
Fixpoint encode (s : string) : list Z :=
  match s with
  | EmptyString => []
  | String c r => Z.of_nat (nat_of_ascii c) :: encode r
  end.

(** The big-endian bytes of [x], [n] of them. *)
Fixpoint be_bytes (n : nat) (x : Z) : list Z :=
  match n with
  | O => []
  | S k => (Z.shiftr x (8 * Z.of_nat k)) mod 256 :: be_bytes k x
  end.

(** Padding: the bit 1, zeros up to 56 modulo 64, and the length in bits. *)
Definition pad (msg : list Z) : list Z :=
  let len := Z.of_nat (length msg) in
  msg ++ [128] ++ replicate (Z.to_nat ((55 - len) mod 64)) 0
      ++ be_bytes 8 (8 * len).

(** Big-endian 32-bit words of a byte sequence. *)
Fixpoint words (fuel : nat) (bytes : list Z) : list Z :=
  match fuel, bytes with
  | S k, b0 :: b1 :: b2 :: b3 :: r =>
      (((b0 * 256 + b1) * 256 + b2) * 256 + b3) :: words k r
  | _, _ => []
  end.

(** The message schedule, most recent word first. *)
Definition schedule_step (rev_w : list Z) : list Z :=
  add32 (add32 (small_sigma1 (nth 1 rev_w 0)) (nth 6 rev_w 0))
        (add32 (small_sigma0 (nth 14 rev_w 0)) (nth 15 rev_w 0))
  :: rev_w.

Definition schedule (block : list Z) : list Z :=
  rev (Nat.iter 48 schedule_step (rev block)).

Definition round (st : list Z) (kw : Z * Z) : list Z :=
  match st with
  | [a; b; c; d; e; f; g; h] =>
      let t1 := add32 (add32 (add32 h (big_sigma1 e))
                             (add32 (ch e f g) (fst kw))) (snd kw) in
      let t2 := add32 (big_sigma0 a) (maj a b c) in
      [add32 t1 t2; a; b; c; add32 d t1; e; f; g]
  | _ => st
  end.

Definition compress (st : list Z) (block : list Z) : list Z :=
  zip_with add32 st (foldl round st (zip K (schedule block))).

Fixpoint blocks (fuel : nat) (ws : list Z) : list (list Z) :=
  match fuel, ws with
  | S k, _ :: _ => take 16 ws :: blocks k (drop 16 ws)
  | _, _ => []
  end.

Definition digest_words (msg : list Z) : list Z :=
  let padded := pad msg in
  let ws := words (length padded) padded in
  foldl compress H0 (blocks (length ws) ws).

Definition hex_digit (n : Z) : ascii :=
  ascii_of_nat (Z.to_nat (if n <? 10 then 48 + n else 87 + n)).

Fixpoint hex_word (n : nat) (x : Z) : string :=
  match n with
  | O => EmptyString
  | S k => String (hex_digit ((Z.shiftr x (4 * Z.of_nat k)) mod 16))
                  (hex_word k x)
  end.

(** [hashlib.sha256(text.encode()).hexdigest()]. *)
Definition hexdigest (text : string) : string :=
  foldr (fun w acc => hex_word 8 w +:+ acc) EmptyString
        (digest_words (encode text)).

End SHA256.

(* ===================================================================== *)
(** ** config/manager.py *)

Module Config.

Record ConfigSnapshot := mkConfigSnapshot {
  s_id : string;
  s_device_id : string;
  s_device_hostname : string;
  config_text : string;
  config_hash : string;
  captured_at : Z;
  s_source : string;
  s_tags : list (string * string)
}.

Record ConfigManager := mkConfigManager {
  _snapshots : gmap string (list ConfigSnapshot);
  _golden_configs : gmap string string
}.

Definition init : ConfigManager := mkConfigManager ∅ ∅.

(** [self._snapshots.get(device_id, [])]. *)
Definition snapshots_of (self : ConfigManager) (device_id : string)
    : list ConfigSnapshot :=
  default [] (_snapshots self !! device_id).

Record BackupCall := mkBackupCall {
  call_fresh_id : string;
  call_now : Z;
  call_device_id : string;
  call_text : string;
  call_source : string;
  call_hostname : string
}.

Section WithEnvironment.

(** [sha256_hexdigest t] is [hashlib.sha256(t.encode()).hexdigest()]: the
    function [SHA256.hexdigest] in the program; the store is verified for
    every hash function. *)
Variable sha256_hexdigest : string -> string.

(** [backup_config]; [fresh_id] and [now] are the identifier and the time
    that the constructor of [ConfigSnapshot] draws if it is called. *)
Definition backup_config (self : ConfigManager) (fresh_id : string) (now : Z)
    (device_id config_text source hostname : string)
    : ConfigSnapshot * ConfigManager :=
  let hash := sha256_hexdigest config_text in
  let existing := snapshots_of self device_id in
  (* Check if config has changed *)
  match last existing with
  | Some latest =>
      if decide (config_hash latest = hash) then (latest, self)
      else
        let snapshot := mkConfigSnapshot fresh_id device_id
                          (Py.str_or hostname device_id) config_text hash
                          now source [] in
        (snapshot,
         mkConfigManager
           (<[device_id := existing ++ [snapshot]]> (_snapshots self))
           (_golden_configs self))
  | None =>
      let snapshot := mkConfigSnapshot fresh_id device_id
                        (Py.str_or hostname device_id) config_text hash
                        now source [] in
      (snapshot,
       mkConfigManager
         (<[device_id := existing ++ [snapshot]]> (_snapshots self))
         (_golden_configs self))
  end.

(** A recorded call of [backup_config] and the effect of a sequence of
    calls on the store. *)
Definition backup_calls (self : ConfigManager) (calls : list BackupCall)
    : ConfigManager :=
  foldl (fun m c =>
           snd (backup_config m (call_fresh_id c) (call_now c)
                  (call_device_id c) (call_text c) (call_source c)
                  (call_hostname c)))
        self calls.

End WithEnvironment.

Definition get_latest (self : ConfigManager) (device_id : string)
    : option ConfigSnapshot :=
  last (snapshots_of self device_id).

(** [sum(len(v) for v in self._snapshots.values())]. *)
Definition total_snapshots (self : ConfigManager) : nat :=
  map_fold (fun _ v acc => (length v + acc)%nat) 0%nat (_snapshots self).

End Config.

(* ===================================================================== *)
(** ** discover/topology.py *)

Module Topology.

Record Neighbor := mkNeighbor {
  local_device_id : string;
  local_interface : string;
  remote_device_id : string;
  remote_interface : string;
  remote_hostname : string;
  remote_ip : option string;
  protocol : string;
  discovered_at : Z
}.

(** The graph part of [TopologyDiscovery]: the neighbor relations as they
    were added and the adjacency sets derived from them. *)
Record TopologyDiscovery := mkTopologyDiscovery {
  _neighbors : list Neighbor;
  _adjacency : gmap string (gset string)
}.

Definition init : TopologyDiscovery := mkTopologyDiscovery [] ∅.

(** [self._adjacency.get(dev, set())]. *)
Definition adjacent (adj : gmap string (gset string)) (dev : string)
    : gset string :=
  default ∅ (adj !! dev).

(** [adj[a].add(b)] on a [defaultdict(set)]. *)
Definition adj_add (a b : string) (adj : gmap string (gset string))
    : gmap string (gset string) :=
  <[a := adjacent adj a ∪ {[ b ]}]> adj.

Definition add_neighbor (self : TopologyDiscovery) (n : Neighbor)
    : TopologyDiscovery :=
  mkTopologyDiscovery
    (_neighbors self ++ [n])
    (adj_add (remote_device_id n) (local_device_id n)
       (adj_add (local_device_id n) (remote_device_id n) (_adjacency self))).

Definition get_neighbors (self : TopologyDiscovery) (device_id : string)
    : list string :=
  elements (adjacent (_adjacency self) device_id).

(** [neighbor_count] of [get_critical_devices]: the degree of a device. *)
Definition degree (self : TopologyDiscovery) (device_id : string) : nat :=
  size (adjacent (_adjacency self) device_id).

(** Innermost loop body of [get_blast_radius]; the pair is
    [(next_layer, affected)]. *)
Definition visit (device_id : string) (acc : gset string * gset string)
    (neighbor : string) : gset string * gset string :=
  let '(next_layer, affected) := acc in
  if bool_decide (neighbor ∉ affected) && bool_decide (neighbor ≠ device_id)
  then (next_layer ∪ {[ neighbor ]}, affected ∪ {[ neighbor ]})
  else acc.

(** [for neighbor in self._adjacency.get(dev, set())]. *)
Definition expand (adj : gmap string (gset string)) (device_id : string)
    (acc : gset string * gset string) (dev : string)
    : gset string * gset string :=
  foldl (visit device_id) acc (elements (adjacent adj dev)).

(** One iteration of [for _ in range(max_hops)]; the pair is
    [(current_layer, affected)]. *)
Definition layer_step (adj : gmap string (gset string)) (device_id : string)
    (st : gset string * gset string) : gset string * gset string :=
  let '(current_layer, affected) := st in
  foldl (expand adj device_id) (∅, affected) (elements current_layer).

Definition get_blast_radius (self : TopologyDiscovery) (device_id : string)
    (max_hops : Z) : gset string :=
  snd (Nat.iter (Z.to_nat max_hops)
                (layer_step (_adjacency self) device_id)
                ({[ device_id ]}, ∅)).

(** *** Specification vocabulary *)

(** [hops adj d n v]: a walk of exactly [n] edges leads from [d] to [v]. *)
Inductive hops (adj : gmap string (gset string)) (d : string)
    : nat -> string -> Prop :=
| hops_O : hops adj d 0 d
| hops_S (n : nat) (u v : string) :
    hops adj d n u -> v ∈ adjacent adj u -> hops adj d (S n) v.

(** [v] is reachable from [d] within [k] hops. *)
Definition within_hops (adj : gmap string (gset string)) (d : string)
    (k : Z) (v : string) : Prop :=
  exists n : nat, Z.of_nat n <= k /\ hops adj d n v.

(** The neighbours of a list of devices. *)
Definition neighbourhood (adj : gmap string (gset string))
    (devs : list string) : gset string :=
  ⋃ (adjacent adj <$> devs).

(** No device is its own neighbour. *)
Definition no_self_loops (adj : gmap string (gset string)) : Prop :=
  forall d, d ∉ adjacent adj d.

(** The pair [(current_layer, affected)] after [n] iterations. *)
Definition bfs_state (adj : gmap string (gset string)) (d : string)
    (n : nat) : gset string * gset string :=
  Nat.iter n (layer_step adj d) ({[ d ]}, ∅).

End Topology.

(* ===================================================================== *)
(** ** agents/forecast_agent.py *)

Module Forecast.

(** Rounding of an exact value to the nearest integer, ties to even. *)
Definition round_half_even (x : Q) : Z :=
  let f := Qfloor x in
  let r := (x - inject_Z f)%Q in
  match Qcompare r (1 # 2) with
  | Lt => f
  | Gt => f + 1
  | Eq => if Z.even f then f else f + 1
  end.

(** [round(x, ndigits)] of the exact value [x]: the nearest multiple of
    [10 ^ -ndigits], ties to even. Python rounds the binary value that
    the float carries; the two agree where that value is the exact one,
    as it is for integers. *)
Definition py_round (x : Q) (ndigits : nat) : Q :=
  let scale := inject_Z (10 ^ Z.of_nat ndigits) in
  (inject_Z (round_half_even (x * scale)) / scale)%Q.

Definition qsum (l : list Q) : Q := foldr Qplus 0%Q l.

(** [list(range(n))] as floats. *)
Definition range (n : nat) : list Q :=
  map (fun i => inject_Z (Z.of_nat i)) (seq 0 n).

Definition qmax (x y : Q) : Q := if Qle_bool x y then y else x.

(** [_linear_regression]: (slope, intercept), in exact arithmetic. The
    sums and products of the program are exact when the samples are
    integers and every intermediate value stays below 2^53. *)
Definition _linear_regression (x y : list Q) : Q * Q :=
  let n := inject_Z (Z.of_nat (length x)) in
  if Qeq_bool n 0 then (0, 0)%Q
  else
    let sum_x := qsum x in
    let sum_y := qsum y in
    let sum_xy := qsum (map (fun p => fst p * snd p) (zip x y))%Q in
    let sum_x2 := qsum (map (fun xi => xi * xi) x)%Q in
    let denom := (n * sum_x2 - sum_x * sum_x)%Q in
    if Qeq_bool denom 0 then (0, sum_y / n)%Q
    else
      let slope := ((n * sum_xy - sum_x * sum_y) / denom)%Q in
      let intercept := ((sum_y - slope * sum_x) / n)%Q in
      (slope, intercept).

(** [statistics.mean]. *)
Definition mean (l : list Q) : Q :=
  (qsum l / inject_Z (Z.of_nat (length l)))%Q.

Definition ss_tot (y : list Q) : Q :=
  let y_mean := mean y in
  qsum (map (fun yi => (yi - y_mean) * (yi - y_mean)) y)%Q.

Definition ss_res (x y : list Q) (slope intercept : Q) : Q :=
  qsum (map (fun p => (snd p - (slope * fst p + intercept))
                      * (snd p - (slope * fst p + intercept)))
            (zip x y))%Q.

(** [_calculate_confidence]: R-squared, clipped below at 0 and rounded to
    three places. *)
Definition _calculate_confidence (x y : list Q) (slope intercept : Q) : Q :=
  if Qeq_bool (ss_tot y) 0 then 1%Q
  else
    let r_squared := (1 - ss_res x y slope intercept / ss_tot y)%Q in
    py_round (qmax 0 r_squared) 3.

(** The dictionaries that [predict_threshold_breach] returns, one
    constructor per value of the ["prediction"] entry. *)
Inductive Prediction :=
| insufficient_data (message : string)
| no_breach (slope current_value threshold : Q) (trend message : string)
| breach_predicted (current_value threshold slope_per_interval : Q)
    (estimated_breach_time : Z) (time_to_breach_hours confidence : Q)
    (message : string)
| stable (message : string).

Section WithEnvironment.

Variable float_str : Q -> string.

(** [predict_threshold_breach]. The breach time is the exact sum of the
    clock and the clipped delay; a sum past the range of [datetime], on
    which Python raises, is outside the model. *)
Definition predict_threshold_breach (now : Z) (values : list Q)
    (threshold : Q) (interval_seconds : Z) : Prediction :=
  if (length values <? 3)%nat
  then insufficient_data "Need at least 3 data points for prediction"
  else
    let n := length values in
    let x := range n in
    let '(slope, intercept) := _linear_regression x values in
    let latest := default 0%Q (last values) in
    if Qle_bool slope 0
    then
      let trend := if Py.lt slope 0 then "decreasing" else "stable" in
      no_breach (py_round slope 6) (py_round latest 2) threshold trend
        ("Metric is " +:+ trend +:+ ", no breach predicted")
    else if Py.gt slope 0
    then
      let steps_to_breach := ((threshold - latest) / slope)%Q in
      let seconds_to_breach :=
        (steps_to_breach * inject_Z interval_seconds)%Q in
      let breach_time :=
        now + round_half_even (qmax 0 seconds_to_breach * 1000000) in
      breach_predicted (py_round latest 2) threshold (py_round slope 6)
        breach_time
        (py_round (seconds_to_breach / 3600) 1)
        (_calculate_confidence x values slope intercept)
        ("Threshold of " +:+ float_str threshold
           +:+ " predicted to be reached in "
           +:+ float_str (py_round (seconds_to_breach / 3600) 1)
           +:+ " hours")
    else stable "No breach predicted".

End WithEnvironment.

End Forecast.

(* ===================================================================== *)
(** ** Further Python helpers *)

From Stdlib Require Import Sorted Lqa.

Module PySeq.

(** [l[:n]] for a Python list [l] and an integer [n]. *)
Definition slice_to {A : Type} (n : Z) (l : list A) : list A :=
  let len := Z.of_nat (length l) in
  let stop := if n <? 0 then Z.max 0 (len + n) else Z.min n len in
  take (Z.to_nat stop) l.

End PySeq.

(* ===================================================================== *)
(** ** monitor/alerting.py: queries and invariants *)

Module AlertQueries.
Import Alerting.

Definition AlertState_value (s : AlertState) : string :=
  match s with
  | ACTIVE => "active" | ACKNOWLEDGED => "acknowledged"
  | RESOLVED => "resolved" | SUPPRESSED => "suppressed"
  end.

(** [alerts.sort(key=lambda a: a.created_at, reverse=True)]: a stable sort,
    largest key first; alerts with equal keys keep their order. *)
Fixpoint insert_desc (h : Heap) (x : ref) (l : list ref) : list ref :=
  match l with
  | [] => [x]
  | y :: r =>
      if created_at (h y) >? created_at (h x)
      then y :: insert_desc h x r
      else x :: y :: r
  end.

Definition sort_desc (h : Heap) (l : list ref) : list ref :=
  foldr (insert_desc h) [] l.

(** The three optional filters of [get_alerts]. [if state:] and
    [if severity:] skip [None]; [if device_id:] also skips the empty
    string. *)
Definition filter_alerts (h : Heap) (st : option AlertState)
    (sev : option AlertSeverity) (dev : option string) (alerts : list ref)
    : list ref :=
  let alerts := match st with
                | Some s => filter (fun a => state (h a) = s) alerts
                | None => alerts
                end in
  let alerts := match sev with
                | Some s => filter (fun a => severity (h a) = s) alerts
                | None => alerts
                end in
  if Py.truthy_str dev
  then filter (fun a => Some (device_id (h a)) = dev) alerts
  else alerts.

Definition get_alerts (self : AlertManager) (h : Heap)
    (st : option AlertState) (sev : option AlertSeverity)
    (dev : option string) (limit : Z) : list ref :=
  let alerts := map snd (_alerts self) in
  PySeq.slice_to limit (sort_desc h (filter_alerts h st sev dev alerts)).

(** [d[k] += 1] on a [defaultdict(int)]. *)
Definition dict_incr (k : string) (d : list (string * nat))
    : list (string * nat) :=
  dict_set k (default 0%nat (dict_get k d) + 1)%nat d.

(** The dictionary that [get_summary] returns. *)
Record Summary := mkSummary {
  sum_total : nat;
  sum_active : nat;
  sum_acknowledged : nat;
  sum_resolved : nat;
  sum_suppressed : nat;
  sum_by_severity : list (string * nat);
  sum_by_device : list (string * nat)
}.

Definition get_summary (self : AlertManager) (h : Heap) : Summary :=
  let alerts := map (fun kv => h (snd kv)) (_alerts self) in
  let by_severity :=
    foldl (fun d a => dict_incr (AlertSeverity_value (severity a)) d)
          [] alerts in
  let by_state :=
    foldl (fun d a => dict_incr (AlertState_value (state a)) d) [] alerts in
  let by_device :=
    foldl (fun d a =>
             if decide (state a = ACTIVE)
             then dict_incr (Py.str_or (device_hostname a) (device_id a)) d
             else d)
          [] alerts in
  mkSummary (length (_alerts self))
    (default 0%nat (dict_get "active" by_state))
    (default 0%nat (dict_get "acknowledged" by_state))
    (default 0%nat (dict_get "resolved" by_state))
    (default 0%nat (dict_get "suppressed" by_state))
    by_severity by_device.

(** The sum of the values of a dictionary of counters. *)
Definition dict_total (d : list (string * nat)) : nat :=
  foldr (fun kv acc => (snd kv + acc)%nat) 0%nat d.

(** *** Specification vocabulary *)

(** At most one stored alert is active for a device and metric type. *)
Definition unique_active (self : AlertManager) (h : Heap) : Prop :=
  forall e1 e2,
    stored self e1 -> stored self e2 ->
    state (h e1) = ACTIVE -> state (h e2) = ACTIVE ->
    device_id (h e1) = device_id (h e2) ->
    metric_type (h e1) = metric_type (h e2) ->
    e1 = e2.

(** What the filters of [get_alerts] select. *)
Definition selected (h : Heap) (st : option AlertState)
    (sev : option AlertSeverity) (dev : option string) (a : ref) : Prop :=
  (forall s, st = Some s -> state (h a) = s)
  /\ (forall s, sev = Some s -> severity (h a) = s)
  /\ (forall d, dev = Some d -> d <> "" -> device_id (h a) = d).

(** Newest first. *)
Definition newest_first (h : Heap) (l : list ref) : Prop :=
  StronglySorted (fun a b => created_at (h b) <= created_at (h a)) l.

End AlertQueries.

(* ===================================================================== *)
(** ** monitor/health.py: queries and invariants *)

Module HealthQueries.
Import Health.

(** An entry of the list that [get_metric_history] returns. *)
Record HistoryPoint := mkHistoryPoint {
  hp_value : Q;
  hp_unit : string;
  hp_timestamp : string;
  hp_interface : option string
}.

Section WithEnvironment.

(** [isoformat t] is [t.isoformat()]. *)
Variable isoformat : Z -> string.

Definition get_metric_history (self : HealthMonitor) (device_id : string)
    (metric_type : MetricType) (limit : Z) : list HistoryPoint :=
  let key := series_key device_id metric_type in
  let history := Py.last_n limit (history_of self key) in
  map (fun m => mkHistoryPoint (m_value m) (m_unit m)
                  (isoformat (m_timestamp m)) (m_interface_name m))
      history.

End WithEnvironment.

(** [_calculate_trend], in exact arithmetic: the two means are exact
    ([statistics.mean] is), and so is the product by 0.1, which a float
    rounds. *)
Definition _calculate_trend (values : list Q) : string :=
  if (length values <? 3)%nat then "stable"
  else
    let recent := if (5 <=? length values)%nat
                  then Anomaly.mean (Py.last_n 5 values)
                  else default 0%Q (last values) in
    let older := Anomaly.mean (PySeq.slice_to 5 values) in
    let diff := (recent - older)%Q in
    if Py.gt diff (older * 0.1)%Q then "increasing"
    else if Py.lt diff (- older * 0.1)%Q then "decreasing"
    else "stable".

(** *** Specification vocabulary *)

(** Every series respects the cap. *)
Definition bounded (self : HealthMonitor) : Prop :=
  forall key,
    Z.of_nat (length (history_of self key)) <= _max_history self.

(** What a metric contributes to the alerts of a batch: device, metric
    type, value, severity and threshold value of the alert, if any. *)
Definition violation (self : HealthMonitor) (m : Metric)
    : option (string * option MetricType * option Q * AlertSeverity
              * option Q) :=
  match _thresholds self (m_metric_type m) with
  | None => None
  | Some th =>
      match select_tier th (m_value m) with
      | None => None
      | Some (sev, tv) =>
          Some (m_device_id m, Some (m_metric_type m), Some (m_value m),
                sev, Some tv)
      end
  end.

Definition alert_summary (a : Alert)
    : string * option MetricType * option Q * AlertSeverity * option Q :=
  (device_id a, metric_type a, metric_value a, severity a,
   threshold_value a).

End HealthQueries.

(* ===================================================================== *)
(** ** anomaly/detector.py: queries and invariants *)

Module AnomalyQueries.
Import Anomaly.

(** [get_anomalies]. [if device_id:] skips [None] and the empty string;
    [if since:] skips [None]. *)
Definition get_anomalies (self : AnomalyDetector) (device_id : option string)
    (since : option Z) (limit : Z) : list AnomalyResult :=
  let results := _anomalies self in
  let results :=
    if Py.truthy_str device_id
    then filter (fun r => Some (m_device_id (r_metric r)) = device_id)
                results
    else results in
  let results :=
    match since with
    | Some t => filter (fun r => t <= r_timestamp r) results
    | None => results
    end in
  Py.last_n limit results.

Definition anomaly_count (self : AnomalyDetector) : nat :=
  length (_anomalies self).

(** *** Specification vocabulary *)

(** Every series respects the cap. *)
Definition bounded (self : AnomalyDetector) : Prop :=
  forall key,
    Z.of_nat (length (history_of self key)) <= _max_history self.

(** The methods that a call of [detect] runs. *)
Definition effective_methods (methods : option (list string))
    : list string :=
  match methods with
  | Some (m :: r) => m :: r
  | _ => default_methods
  end.

(** What the filters of [get_anomalies] select. *)
Definition wanted (device_id : option string) (since : option Z)
    (r : AnomalyResult) : Prop :=
  (forall d, device_id = Some d -> d <> "" -> m_device_id (r_metric r) = d)
  /\ (forall t, since = Some t -> t <= r_timestamp r).

End AnomalyQueries.

(* ===================================================================== *)
(** ** config/manager.py: history, counters and diff *)

Module ConfigQueries.
Import Config.

(** [get_history]: [self._snapshots.get(device_id, [])[-limit:]]. *)
Definition get_history (self : ConfigManager) (device_id : string)
    (limit : Z) : list ConfigSnapshot :=
  Py.last_n limit (snapshots_of self device_id).

(** [device_count]: [len(self._snapshots)]. *)
Definition device_count (self : ConfigManager) : nat :=
  base.size (_snapshots self).

Record ConfigDiff := mkConfigDiff {
  d_device_id : string;
  before_snapshot_id : string;
  after_snapshot_id : string;
  diff_text : string;
  lines_added : nat;
  lines_removed : nat;
  lines_changed : nat;
  generated_at : Z
}.

(** [next((s for s in snapshots if s.id == i), None)]. *)
Definition find_by_id (i : string) (snapshots : list ConfigSnapshot)
    : option ConfigSnapshot :=
  List.find (fun s => bool_decide (s_id s = i)) snapshots.

Definition newline : string := String "010"%char EmptyString.

(** [sum(1 for l in diff_lines if l.startswith(p) and not l.startswith(q))]. *)
Definition count_lines (p q : string) (diff_lines : list string) : nat :=
  length (List.filter (fun l => String.prefix p l && negb (String.prefix q l))
                      diff_lines).

Section WithEnvironment.

(** [unified_diff a b fromfile tofile] is
    [list(difflib.unified_diff(a.splitlines(keepends=True),
    b.splitlines(keepends=True), fromfile=..., tofile=..., lineterm=[])]
    with the empty string for [lineterm]; [isoformat] is
    [datetime.isoformat]. *)
Variable unified_diff : string -> string -> string -> string -> list string.
Variable isoformat : Z -> string.

(** [diff]; [now] is the time that the constructor of [ConfigDiff] draws.
    An identifier that is [None] or empty selects the default snapshot. *)
Definition diff (self : ConfigManager) (now : Z) (device_id : string)
    (before_id after_id : option string) : option ConfigDiff :=
  let snapshots := snapshots_of self device_id in
  if (length snapshots <? 2)%nat then None
  else
    let before :=
      match before_id with
      | Some i => if decide (i = "")
                  then snapshots !! (length snapshots - 2)%nat
                  else find_by_id i snapshots
      | None => snapshots !! (length snapshots - 2)%nat
      end in
    let after :=
      match after_id with
      | Some i => if decide (i = "")
                  then last snapshots
                  else find_by_id i snapshots
      | None => last snapshots
      end in
    match before, after with
    | Some b, Some a =>
        let diff_lines :=
          unified_diff (config_text b) (config_text a)
            (device_id +:+ " (" +:+ isoformat (captured_at b) +:+ ")")
            (device_id +:+ " (" +:+ isoformat (captured_at a) +:+ ")") in
        let added := count_lines "+" "+++" diff_lines in
        let removed := count_lines "-" "---" diff_lines in
        Some (mkConfigDiff device_id (s_id b) (s_id a)
                (String.concat newline diff_lines) added removed
                (Nat.min added removed) now)
    | _, _ => None
    end.

End WithEnvironment.

(** *** Specification vocabulary *)

(** The store is well formed for the hash function [H]: no device is
    filed with an empty history, every snapshot is filed under its own
    device id and carries the hash of its own text, and two consecutive
    snapshots of a device never have the same hash. *)
Definition store_wf (H : string -> string) (self : ConfigManager) : Prop :=
  forall d l, _snapshots self !! d = Some l ->
    l <> []
    /\ Forall (fun s => s_device_id s = d
                        /\ config_hash s = H (config_text s)) l
    /\ (forall i s1 s2, l !! i = Some s1 -> l !! S i = Some s2 ->
          config_hash s1 <> config_hash s2).

End ConfigQueries.

(* ===================================================================== *)
(** ** discover/topology.py: the adjacency and its neighbor records *)

Module TopologyQueries.
Import Topology.

(** [neighbor_count]: [len(self._neighbors)]. *)
Definition neighbor_count (self : TopologyDiscovery) : nat :=
  length (_neighbors self).

(** The topology after a sequence of calls of [add_neighbor]. *)
Definition add_neighbors (self : TopologyDiscovery) (ns : list Neighbor)
    : TopologyDiscovery :=
  foldl add_neighbor self ns.

(** *** Specification vocabulary *)

(** Some neighbor record of [ns] joins [a] and [b], in either direction. *)
Definition linked (ns : list Neighbor) (a b : string) : Prop :=
  exists n, n ∈ ns
            /\ ((local_device_id n = a /\ remote_device_id n = b)
                \/ (local_device_id n = b /\ remote_device_id n = a)).

(** The adjacency sets say exactly what the neighbor records say. *)
Definition adjacency_of_neighbors (self : TopologyDiscovery) : Prop :=
  forall a b, b ∈ adjacent (_adjacency self) a <-> linked (_neighbors self) a b.

Definition symmetric (adj : gmap string (gset string)) : Prop :=
  forall a b, b ∈ adjacent adj a -> a ∈ adjacent adj b.

End TopologyQueries.

(* ===================================================================== *)
(** ** agents/forecast_agent.py: trend analysis *)

Module ForecastQueries.
Import Forecast.

(** [min(values)] and [max(values)]: the first smallest and the first
    largest element. *)
Definition min_list (l : list Q) : Q :=
  match l with
  | [] => 0%Q
  | v :: r => foldl (fun m x => if Py.lt x m then x else m) v r
  end.

Definition max_list (l : list Q) : Q :=
  match l with
  | [] => 0%Q
  | v :: r => foldl (fun m x => if Py.gt x m then x else m) v r
  end.

(** The autocorrelation that [_detect_seasonality] computes for one lag. *)
Definition autocorr (values : list Q) (mu variance : Q) (lag : nat) : Q :=
  let n := length values in
  (qsum (map (fun i => (nth i values 0 - mu) * (nth (i + lag) values 0 - mu))
             (seq 0 (n - lag)))
   / (inject_Z (Z.of_nat (n - lag)) * variance))%Q.

(** [_detect_seasonality] for a period that is not negative, in exact
    arithmetic. The loop over [range(min_period, n // 2)] returns at the
    first lag whose autocorrelation exceeds 0.5. A square that leaves the
    range of a float, on which Python raises, is outside the model. *)
Definition _detect_seasonality (values : list Q) (min_period : nat) : bool :=
  let n := length values in
  if (n <? min_period * 2)%nat then false
  else
    let mu := mean values in
    let variance :=
      (qsum (map (fun v => (v - mu) * (v - mu)) values)
       / inject_Z (Z.of_nat n))%Q in
    if Qeq_bool variance 0 then false
    else existsb (fun lag => Py.gt (autocorr values mu variance lag) 0.5)
                 (seq min_period (n / 2 - min_period)).

(** The dictionaries that [analyze_trend] returns. *)
Inductive TrendAnalysis :=
| trend_unknown (message : string)
| trend_report (trend : string) (slope mean_value std_dev min_value
                  max_value : Q) (has_seasonality : bool)
    (data_points : nat).

Section WithEnvironment.

Variable sqrt : Q -> Q.

(** [analyze_trend], in exact arithmetic. *)
Definition analyze_trend (values : list Q) : TrendAnalysis :=
  if (length values <? 3)%nat then trend_unknown "Insufficient data"
  else
    let n := length values in
    let x := range n in
    let '(slope, intercept) := _linear_regression x values in
    let avg := mean values in
    let std := if (1 <? length values)%nat
               then Anomaly.stdev sqrt values else 0%Q in
    let has_seasonality := _detect_seasonality values 10 in
    let trend :=
      if Py.lt (Qabs slope) (std * 0.01) then "stable"
      else if Py.gt slope 0 then "increasing"
      else "decreasing" in
    trend_report trend (py_round slope 6) (py_round avg 2) (py_round std 2)
      (py_round (min_list values) 2) (py_round (max_list values) 2)
      has_seasonality n.

End WithEnvironment.

(** *** Specification vocabulary *)

(** The series [b, a + b, 2a + b, ...] of [n] samples. *)
Definition linear_series (a b : Q) (n : nat) : list Q :=
  map (fun xi => a * xi + b)%Q (range n).

End ForecastQueries.

(* ===================================================================== *)
(** ** discover/topology.py: paths and links *)

Module TopologyPaths.
Import Topology.

(** The [for neighbor in ...] loop of [get_path] for one dequeued [path]:
    [inl p] when it returns [p], otherwise the new [visited] and
    [queue]. *)
Fixpoint scan (target_id : string) (path : list string)
    (neighbors : list string) (visited : gset string)
    (queue : list (list string))
    : list string + gset string * list (list string) :=
  match neighbors with
  | [] => inr (visited, queue)
  | neighbor :: rest =>
      if decide (neighbor = target_id) then inl (path ++ [neighbor])
      else if decide (neighbor ∈ visited)
           then scan target_id path rest visited queue
           else scan target_id path rest (visited ∪ {[ neighbor ]})
                     (queue ++ [path ++ [neighbor]])
  end.

(** The [while queue] loop, for at most [fuel] iterations; [None] when the
    fuel runs out. A dequeued path is never empty: [path[-1]] is its last
    element. *)
Fixpoint search (fuel : nat) (adj : gmap string (gset string))
    (target_id : string) (visited : gset string)
    (queue : list (list string)) : option (list string) :=
  match fuel with
  | O => None
  | S fuel' =>
      match queue with
      | [] => Some []
      | path :: queue' =>
          let current := default "" (last path) in
          match scan target_id path (elements (adjacent adj current))
                     visited queue' with
          | inl p => Some p
          | inr (visited', queue'') =>
              search fuel' adj target_id visited' queue''
          end
      end
  end.

Definition get_path_fuel (fuel : nat) (self : TopologyDiscovery)
    (source_id target_id : string) : option (list string) :=
  if decide (source_id = target_id) then Some [source_id]
  else if decide (_adjacency self !! source_id = None) then Some []
  else search fuel (_adjacency self) target_id {[ source_id ]}
              [[source_id]].

(** Every device that some adjacency set mentions. *)
Definition mentioned (adj : gmap string (gset string)) : gset string :=
  ⋃ (snd <$> map_to_list adj).

(** Iterations that always suffice: each one dequeues a path, and every
    path enqueued ends in a device that had not been visited. *)
Definition enough_fuel (self : TopologyDiscovery) (source_id : string)
    : nat :=
  S (S (base.size (mentioned (_adjacency self) ∪ {[ source_id ]}))).

(** [get_path]. *)
Definition get_path (self : TopologyDiscovery) (source_id target_id : string)
    : list string :=
  default [] (get_path_fuel (enough_fuel self source_id) self source_id
                target_id).

(** *** Specification vocabulary *)

(** Consecutive devices of [p] are adjacent. *)
Definition walk (adj : gmap string (gset string)) (p : list string) : Prop :=
  forall i x y, p !! i = Some x -> p !! S i = Some y -> y ∈ adjacent adj x.

(** [p] leads from [a] to [b] along the adjacency. *)
Definition path_between (adj : gmap string (gset string)) (a b : string)
    (p : list string) : Prop :=
  head p = Some a /\ last p = Some b /\ walk adj p.

End TopologyPaths.

Module TopologyLinks.
Import Topology.

Record TopologyLink := mkTopologyLink {
  source_device_id : string;
  source_interface : string;
  target_device_id : string;
  target_interface : string;
  link_speed_mbps : Z;
  link_type : string;
  link_protocol : string;
  utilization_in : Q;
  utilization_out : Q
}.

(** The formatted string [f"{device}:{interface}"]. *)
Definition endpoint (device interface : string) : string :=
  device +:+ ":" +:+ interface.

(** [tuple(sorted([a, b]))]: the two strings in lexicographic order. *)
Definition sorted_pair (a b : string) : string * string :=
  if String.ltb b a then (b, a) else (a, b).

Definition link_key (n : Neighbor) : string * string :=
  sorted_pair (endpoint (local_device_id n) (local_interface n))
              (endpoint (remote_device_id n) (remote_interface n)).

(** The [TopologyLink] built for a neighbor record, with the defaults of
    the model for the other fields. *)
Definition to_link (n : Neighbor) : TopologyLink :=
  mkTopologyLink (local_device_id n) (local_interface n)
    (remote_device_id n) (remote_interface n) 0 "ethernet" (protocol n)
    0 0.

(** Body of the loop of [build_topology]; the pair is
    [(self._links, seen_links)]. *)
Definition link_step (acc : list TopologyLink * gset (string * string))
    (n : Neighbor) : list TopologyLink * gset (string * string) :=
  let '(links, seen_links) := acc in
  if decide (link_key n ∈ seen_links) then acc
  else (links ++ [to_link n], seen_links ∪ {[ link_key n ]}).

(** The [links] of the graph that [build_topology] returns, which are
    also what it leaves in [self._links]. *)
Definition build_links (self : TopologyDiscovery) : list TopologyLink :=
  fst (foldl link_step ([], ∅) (_neighbors self)).

(** [link_count] once [build_topology] has run. *)
Definition link_count (self : TopologyDiscovery) : nat :=
  length (build_links self).

(** *** Specification vocabulary *)

(** The key under which a link was recorded. *)
Definition key_of_link (l : TopologyLink) : string * string :=
  sorted_pair (endpoint (source_device_id l) (source_interface l))
              (endpoint (target_device_id l) (target_interface l)).

(** The same relation seen from the other end. *)
Definition reversed (n : Neighbor) : Neighbor :=
  mkNeighbor (remote_device_id n) (remote_interface n) (local_device_id n)
    (local_interface n) (remote_hostname n) (remote_ip n) (protocol n)
    (discovered_at n).

End TopologyLinks.

(* ===================================================================== *)
(** * Properties *)

(** ** Python slices *)

Section PySlices.
Context {A : Type}.
Implicit Types l : list A.

Lemma last_n_length (m : Z) l :
  0 < m -> Z.of_nat (length (Py.last_n m l)) = Z.min m (Z.of_nat (length l)).
Proof.
  intros Hm. unfold Py.last_n, Py.slice_from.
  destruct (Z.ltb_spec (- m) 0) as [_|]; [|lia].
  rewrite length_drop. lia.
Qed.

Lemma last_n_all (m : Z) l :
  Z.of_nat (length l) <= m -> 0 < m -> Py.last_n m l = l.
Proof.
  intros Hl Hm. unfold Py.last_n, Py.slice_from.
  destruct (Z.ltb_spec (- m) 0) as [_|]; [|lia].
  replace (Z.to_nat _) with 0%nat by lia. done.
Qed.

Lemma last_n_suffix (m : Z) l : Py.last_n m l `suffix_of` l.
Proof. unfold Py.last_n, Py.slice_from. apply suffix_drop. Qed.

Lemma last_n_last (m : Z) l x :
  0 < m -> last (Py.last_n m (l ++ [x])) = Some x.
Proof.
  intros Hm. unfold Py.last_n, Py.slice_from.
  destruct (Z.ltb_spec (- m) 0) as [_|]; [|lia].
  rewrite length_app. simpl.
  set (k := Z.to_nat _).
  assert (k <= length l)%nat as Hk by (subst k; lia).
  rewrite drop_app_le by done. apply last_snoc.
Qed.

End PySlices.

Lemma trim_length {A : Type} (cap : Z) (l : list A) :
  0 < cap -> Z.of_nat (length (Py.trim cap l)) = Z.min (Z.of_nat (length l)) cap.
Proof.
  intros Hc. unfold Py.trim.
  destruct (Z.gtb_spec (Z.of_nat (length l)) cap).
  - rewrite last_n_length by done. lia.
  - lia.
Qed.

Lemma trim_last {A : Type} (cap : Z) (l : list A) (x : A) :
  0 < cap -> last (Py.trim cap (l ++ [x])) = Some x.
Proof.
  intros Hc. unfold Py.trim.
  destruct (Z.gtb_spec (Z.of_nat (length (l ++ [x]))) cap).
  - by apply last_n_last.
  - apply last_snoc.
Qed.

Lemma trim_below {A : Type} (cap : Z) (l : list A) :
  Z.of_nat (length l) <= cap -> Py.trim cap l = l.
Proof.
  intros Hl. unfold Py.trim.
  destruct (Z.gtb_spec (Z.of_nat (length l)) cap); [lia | done].
Qed.

(** With a positive cap the trim drops the oldest samples in excess. *)
Lemma trim_drop {A : Type} (cap : Z) (l : list A) :
  0 < cap ->
  Py.trim cap l = drop (Z.to_nat (Z.of_nat (length l) - cap)) l.
Proof.
  intros Hc. unfold Py.trim, Py.last_n, Py.slice_from.
  destruct (Z.gtb_spec (Z.of_nat (length l)) cap) as [Hgt|Hle].
  - destruct (Z.ltb_spec (- cap) 0) as [_|]; [|lia]. f_equal. lia.
  - by replace (Z.to_nat _) with 0%nat by lia.
Qed.

(** ** Health engine *)

Module HealthProofs.
Import Health.

Section WithEnvironment.
Variable uuid4 : nat -> string.
Variable float_str : Q -> string.

(** The series of a metric after [process_metrics] on that single metric. *)
Lemma process_single_history (self : HealthMonitor) (now : Z) (m : Metric) :
  history_of (fst (process_metrics uuid4 float_str self now [m]))
             (series_key (m_device_id m) (m_metric_type m))
  = Py.trim (_max_history self)
         (history_of self (series_key (m_device_id m) (m_metric_type m))
            ++ [m]).
Proof.
  unfold process_metrics. simpl. unfold process_metric.
  destruct (_check_threshold _ _ _ _ _); simpl;
    unfold history_of; simpl; by rewrite lookup_insert_eq.
Qed.


(** C9 (amended). After [process_metrics([m])] the series keyed by
    [(m.device_id, m.metric_type)] holds [min(old length + 1, max_history)]
    samples and ends with [m]: it is exactly one element longer as long as
    the old length is below the cap [max_history], and it is the old series
    extended by [m]; at the cap the oldest sample is dropped instead. In
    every case the new series is the old one extended by [m] without its
    [old length + 1 - max_history] oldest samples (none when that number
    is not positive); with the old series exactly at the cap it is the old
    series without its first sample, in the same order, followed by
    [m]. *)
Theorem process_metrics_series_length (self : HealthMonitor) (now : Z)
    (m : Metric) :
  0 < _max_history self ->
  let key := series_key (m_device_id m) (m_metric_type m) in
  let self' := fst (process_metrics uuid4 float_str self now [m]) in
  Z.of_nat (length (history_of self' key))
    = Z.min (Z.of_nat (length (history_of self key)) + 1) (_max_history self)
  /\ last (history_of self' key) = Some m
  /\ (Z.of_nat (length (history_of self key)) < _max_history self ->
      history_of self' key = history_of self key ++ [m])
  /\ history_of self' key
     = drop (Z.to_nat (Z.of_nat (length (history_of self key)) + 1
                       - _max_history self))
            (history_of self key ++ [m])
  /\ (Z.of_nat (length (history_of self key)) = _max_history self ->
      history_of self' key = drop 1 (history_of self key) ++ [m]).
Proof.
  intros Hcap key self'. subst self'. rewrite process_single_history.
  fold key. split; [|split; [|split; [|split]]].
  - rewrite trim_length by done. rewrite length_app. simpl. lia.
  - by apply trim_last.
  - intros Hlt. apply trim_below. rewrite length_app. simpl. lia.
  - rewrite trim_drop by done. rewrite length_app. simpl. f_equal. lia.
  - intros Heq. rewrite trim_drop by done. rewrite length_app. simpl.
    replace (Z.to_nat _) with 1%nat by lia.
    apply drop_app_le. lia.
Qed.

(** The tier chain of [_check_threshold], case by case. The emergency tier
    takes part only if its threshold is present and not [0.0]. *)
Lemma select_tier_emergency (th : MetricThreshold) (value e : Q) :
  emergency_threshold th = Some e -> ~ (e == 0)%Q -> (e <= value)%Q ->
  select_tier th value = Some (EMERGENCY, e).
Proof.
  intros He Hnz Hle. unfold select_tier, Py.truthy_float, Py.ge.
  rewrite He. simpl.
  destruct (Qeq_bool e 0) eqn:E; [by apply Qeq_bool_eq in E|].
  apply Qle_bool_iff in Hle. by rewrite Hle.
Qed.

Lemma select_tier_no_emergency (th : MetricThreshold) (value : Q) :
  Py.truthy_float (emergency_threshold th)
    && Py.ge value (default 0%Q (emergency_threshold th)) = false ->
  select_tier th value =
    if Py.ge value (critical_threshold th)
    then Some (CRITICAL, critical_threshold th)
    else if Py.ge value (warning_threshold th)
         then Some (WARNING, warning_threshold th)
         else None.
Proof. intros H. unfold select_tier. by rewrite H. Qed.

(** At most one alert, which records the selected tier. *)
Lemma check_threshold_tier (self : HealthMonitor) (now : Z) (m : Metric)
    (th : MetricThreshold) :
  _thresholds self (m_metric_type m) = Some th ->
  match _check_threshold uuid4 float_str self now m with
  | Some a =>
      select_tier th (m_value m)
        = Some (severity a, default 0%Q (threshold_value a))
      /\ device_id a = m_device_id m
      /\ metric_value a = Some (m_value m)
      /\ state a = ACTIVE
  | None => select_tier th (m_value m) = None
  end.
Proof.
  intros Hth. unfold _check_threshold. rewrite Hth.
  destruct (select_tier th (m_value m)) as [[sev tv]|]; simpl; done.
Qed.

End WithEnvironment.

(** The first end-to-end scenario: value 90 against the default CPU
    thresholds (warning 70, critical 85, emergency 95) yields exactly one
    alert, critical, with threshold value 85. *)
Lemma cpu_spike_yields_one_critical_alert :
  let m := mkMetric "m11" "d1" "" None CPU 90 "percent" 0 SNMP [] in
  exists a,
    snd (process_metrics (fun _ => "a1") (fun _ => "") (init None) 0 [m])
      = [a]
    /\ severity a = CRITICAL /\ threshold_value a = Some 85%Q
    /\ device_id a = "d1".
Proof. vm_compute. eexists. repeat split. Qed.

(** C2. An emergency threshold of [0.0] is falsy in
    [threshold.emergency_threshold and value >= ...], so the emergency tier
    is skipped although [value >= 0.0] holds: for the thresholds
    (warning 70, critical 85, emergency 0) and the value 90 the alert is
    critical with threshold value 85, not emergency with threshold value 0. *)
Theorem check_threshold_skips_zero_emergency_tier
    (uuid4 : nat -> string) (float_str : Q -> string) (now : Z) :
  let th := mk_threshold CPU 70 85 (Some 0%Q) in
  let self := set_threshold th (init None) in
  let m := mkMetric "m1" "d1" "" None CPU 90 "percent" 0 SNMP [] in
  _thresholds self (m_metric_type m) = Some th
  /\ Py.ge (m_value m) 0 = true
  /\ exists a,
       _check_threshold uuid4 float_str self now m = Some a
       /\ severity a = CRITICAL /\ threshold_value a = Some 85%Q.
Proof.
  intros th self m. split; [done|]. split; [done|].
  eexists. split; [reflexivity|]. done.
Qed.

(** C9 (as stated) fails at the cap: after 1000 samples of one series, one
    more call to [process_metrics] with a single metric leaves the length of
    the series at 1000. *)
Lemma process_metrics_at_cap_not_longer :
  let m := mkMetric "m" "d1" "" None CPU 50 "percent" 0 SNMP [] in
  let key := series_key (m_device_id m) (m_metric_type m) in
  let run := process_metrics (fun _ => "a") (fun _ => "") in
  let self := fst (run (init None) 0 (replicate 1000 m)) in
  let self' := fst (run self 0 [m]) in
  length (history_of self key) = 1000%nat
  /\ length (history_of self' key) <> S (length (history_of self key)).
Proof. vm_compute. split; [reflexivity | discriminate]. Qed.

(** Witness for [process_metrics_series_length]. *)
Lemma process_metrics_series_length_witness :
  let m := mkMetric "m" "d1" "" None CPU 50 "percent" 0 SNMP [] in
  let self := init None in
  let key := series_key (m_device_id m) (m_metric_type m) in
  let self' := fst (process_metrics (fun _ => "a") (fun _ => "") self 0 [m]) in
  0 < _max_history self
  /\ Z.of_nat (length (history_of self' key))
      = Z.min (Z.of_nat (length (history_of self key)) + 1)
              (_max_history self).
Proof.
  intros m self key self'.
  assert (0 < _max_history self) as H by (vm_compute; reflexivity).
  split; [exact H|].
  exact (proj1 (process_metrics_series_length
                  (fun _ => "a") (fun _ => "") self 0 m H)).
Defined.

End HealthProofs.

(** ** Anomaly engine: the maintenance gate *)

Module AnomalyProofs.
Import Anomaly.

Lemma covering_in_maintenance (self : AnomalyDetector) (w : MaintenanceWindow)
    (now : Z) (dev : string) :
  w ∈ _maintenance_windows self -> covering w now dev ->
  _in_maintenance self now dev = true.
Proof.
  intros Hin [[Hs He] Hcov]. unfold _in_maintenance.
  apply existsb_exists. exists w. split; [by apply list_elem_of_In|].
  unfold is_active, covers_device.
  apply andb_true_iff. split.
  - apply andb_true_iff. split; by apply Z.leb_le.
  - destruct Hcov as [-> | (ids & -> & Hd)]; [done|].
    by apply bool_decide_eq_true.
Qed.

Lemma in_maintenance_covering (self : AnomalyDetector) (now : Z)
    (dev : string) :
  _in_maintenance self now dev = true ->
  exists w, w ∈ _maintenance_windows self /\ covering w now dev.
Proof.
  unfold _in_maintenance. intros (w & Hin & Hw)%existsb_exists.
  exists w. split; [by apply list_elem_of_In|].
  apply andb_true_iff in Hw as [Ha Hc].
  apply andb_true_iff in Ha as [Hs He].
  apply Z.leb_le in Hs, He. split; [done|].
  unfold covers_device in Hc. destruct (w_device_ids w) as [ids|]; [|by left].
  right. exists ids. split; [done|]. by apply bool_decide_eq_true in Hc.
Qed.

Lemma history_of_with_history (self : AnomalyDetector) (key : string)
    (l : list Q) :
  history_of (with_history (<[key := l]> (_history self)) self) key = l.
Proof. unfold history_of. simpl. by rewrite lookup_insert_eq. Qed.

Section WithEnvironment.
Variable sqrt : Q -> Q.
Variable float_str : Q -> string.
Variable fmt2 : Q -> string.


(** What [detect] does when the gate is closed. *)
Lemma detect_gated (self : AnomalyDetector) (now : Z) (m : Metric)
    (methods : option (list string)) :
  _in_maintenance self now (m_device_id m) = true ->
  detect sqrt float_str fmt2 self now m methods
  = (with_history
       (<[series_key (m_device_id m) (m_metric_type m) :=
            Py.trim (_max_history self)
              (history_of self (series_key (m_device_id m) (m_metric_type m))
                 ++ [m_value m])]> (_history self)) self,
     []).
Proof.
  intros Hm. unfold detect.
  assert (forall h, _in_maintenance (with_history h self) now (m_device_id m)
                    = true) as Hgate by (intros h; exact Hm).
  rewrite Hgate. by destruct methods as [[|? ?]|].
Qed.

(** The series of one key after a batch that is gated throughout. *)
Lemma detect_batch_gated (key_dev : string) (key_type : MetricType)
    (w : MaintenanceWindow) (batch : list (Z * Metric)) :
  forall self : AnomalyDetector,
  w ∈ _maintenance_windows self ->
  Forall (fun nm => covering w (fst nm) (m_device_id (snd nm))
                    /\ m_device_id (snd nm) = key_dev
                    /\ m_metric_type (snd nm) = key_type) batch ->
  Z.of_nat (length (history_of self (series_key key_dev key_type))
            + length batch) <= _max_history self ->
  exists self',
    detect_batch sqrt float_str fmt2 self batch = (self', [])
    /\ history_of self' (series_key key_dev key_type)
       = history_of self (series_key key_dev key_type)
           ++ map (fun nm => m_value (snd nm)) batch
    /\ _anomalies self' = _anomalies self.
Proof.
  unfold detect_batch.
  induction batch as [|[now m] batch IH]; intros self Hw Hall Hlen.
  - exists self. simpl. by rewrite app_nil_r.
  - apply Forall_cons in Hall as [(Hcov & Hd & Ht) Hall]. simpl in *.
    rewrite detect_gated by eauto using covering_in_maintenance.
    rewrite Hd, Ht.
    set (key := series_key key_dev key_type) in *.
    rewrite trim_below by (rewrite length_app; simpl; lia).
    set (self1 := with_history _ self).
    assert (history_of self1 key = history_of self key ++ [m_value m]) as Hh.
    { unfold history_of, self1. simpl. by rewrite lookup_insert_eq. }
    destruct (IH self1) as (self' & Hrun & Hhist & Han).
    + done.
    + done.
    + rewrite Hh, length_app. simpl. unfold self1. simpl. lia.
    + exists self'. split; [exact Hrun|]. split; [|by rewrite Han].
      rewrite Hhist, Hh, <- app_assoc. done.
Qed.


(** C3. Under an active maintenance window that covers the device of the
    metric, [detect] returns the empty list, records no anomaly, and still
    appends the value to the series of the metric (followed by the usual
    trim to [max_history]). In the scenario of the specification, a window
    over [d1] for [now - 1h, now + 1h] and sixteen samples of one series of
    [d1] (fifteen values and then 200, or any others), every call returns
    the empty list and the series ends up with sixteen samples. *)
Theorem detect_under_maintenance_window :
  (forall (self : AnomalyDetector) (w : MaintenanceWindow) (now : Z)
          (m : Metric) (methods : option (list string)),
     w ∈ _maintenance_windows self ->
     covering w now (m_device_id m) ->
     let key := series_key (m_device_id m) (m_metric_type m) in
     let out := detect sqrt float_str fmt2 self now m methods in
     snd out = []
     /\ history_of (fst out) key
        = Py.trim (_max_history self) (history_of self key ++ [m_value m])
     /\ (0 < _max_history self ->
         last (history_of (fst out) key) = Some (m_value m))
     /\ (Z.of_nat (length (history_of self key)) < _max_history self ->
         history_of (fst out) key = history_of self key ++ [m_value m])
     /\ _anomalies (fst out) = _anomalies self)
  /\ (forall (now0 : Z) (batch : list (Z * Metric)),
       length batch = 16%nat ->
       Forall (fun nm =>
                 now0 - 3600000000 <= fst nm <= now0 + 3600000000
                 /\ m_device_id (snd nm) = "d1"
                 /\ m_metric_type (snd nm) = CPU) batch ->
       let w := mkMaintenanceWindow "maintenance" (now0 - 3600000000)
                  (now0 + 3600000000) (Some ["d1"]) in
       let out := detect_batch sqrt float_str fmt2
                    (add_maintenance_window w init) batch in
       snd out = []
       /\ length (history_of (fst out) (series_key "d1" CPU)) = 16%nat).
Proof.
  split.
  - intros self w now m methods Hin Hcov key out. subst out.
    rewrite detect_gated by eauto using covering_in_maintenance.
    fold key. simpl. rewrite history_of_with_history.
    split; [done|]. split; [done|]. split; [|split; [|done]].
    + intros Hcap. by apply trim_last.
    + intros Hlt. apply trim_below. rewrite length_app. simpl. lia.
  - intros now0 batch Hlen Hall w out. subst out.
    destruct (detect_batch_gated "d1" CPU w batch
                (add_maintenance_window w init)) as (self' & Hrun & Hh & _).
    + simpl. constructor.
    + eapply Forall_impl; [exact Hall|].
      intros [now m] (Hnow & Hd & Ht). simpl in Hnow, Hd, Ht |- *.
      split; [|done]. split; [done|]. right. exists ["d1"].
      split; [done|]. rewrite Hd. constructor.
    + rewrite Hlen. vm_compute. discriminate.
    + rewrite Hrun. simpl. split; [done|].
      rewrite Hh, length_app, length_map, Hlen. reflexivity.
Qed.

End WithEnvironment.

(** Witness for [detect_under_maintenance_window]: the scenario of the
    specification with the values 50 (fifteen times) and 200. *)
Lemma detect_under_maintenance_window_witness :
  let batch := map (fun v => (1000, mkMetric "m" "d1" "" None CPU v "%" 1000
                                      SNMP []))
                   (replicate 15 50%Q ++ [200%Q]) in
  let w := mkMaintenanceWindow "maintenance" (1000 - 3600000000)
             (1000 + 3600000000) (Some ["d1"]) in
  let out := detect_batch (fun x => x) (fun _ => "") (fun _ => "")
               (add_maintenance_window w init) batch in
  snd out = [] /\ length (history_of (fst out) (series_key "d1" CPU)) = 16%nat.
Proof.
  intros batch w out.
  refine (proj2 (detect_under_maintenance_window
                   (fun x => x) (fun _ => "") (fun _ => "")) 1000 batch _ _).
  - reflexivity.
  - subst batch. simpl. repeat constructor; simpl; lia.
Defined.

End AnomalyProofs.

(** ** Anomaly engine: temporal correlation *)

Module CorrelationProofs.
Import Anomaly.

Lemma within_window_spec (w : Z) (a b : AnomalyResult) :
  within_window w a b = true
  <-> Z.abs (r_timestamp a - r_timestamp b) <= w * 1000000.
Proof.
  unfold within_window. rewrite Qle_bool_iff.
  unfold total_seconds, Qabs, Qle, inject_Z. simpl. lia.
Qed.

Lemma within_window_refl (w : Z) (a b : AnomalyResult) :
  within_window w a b = true -> within_window w a a = true.
Proof. rewrite !within_window_spec. lia. Qed.

Lemma enumerate_snd {A : Type} (start : nat) (l : list A) (i : nat) (a : A) :
  (i, a) ∈ enumerate start l -> a ∈ l.
Proof. unfold enumerate. apply elem_of_zip_r. Qed.

(** The inner loop only appends members that lie within the window of the
    anchor, taken from the list it scans. *)
Lemma inner_fold_spec (w : Z) (a : AnomalyResult)
    (l : list (nat * AnomalyResult)) :
  forall (group : list AnomalyResult) (used : gset nat),
  exists extra,
    fst (foldl (inner_step w a) (group, used) l) = group ++ extra
    /\ Forall (fun b => within_window w a b = true) extra
    /\ (forall b, b ∈ extra -> b ∈ map snd l).
Proof.
  induction l as [|[j b] l IH]; intros group used; simpl.
  - exists []. rewrite app_nil_r. split; [done|]. split; [constructor|].
    intros b Hb. by apply elem_of_nil in Hb.
  - case_bool_decide as Hj.
    + destruct (IH group used) as (extra & Hg & Hw & Hin).
      exists extra. split; [done|]. split; [done|].
      intros x Hx. right. by apply Hin.
    + destruct (within_window w a b) eqn:Hwin.
      * destruct (IH (group ++ [b]) (used ∪ {[ j ]}))
          as (extra & Hg & Hw & Hin).
        exists (b :: extra). split; [by rewrite Hg, <- app_assoc|].
        split; [by constructor|].
        intros x [->|Hx]%elem_of_cons; [left | right; by apply Hin].
      * destruct (IH group used) as (extra & Hg & Hw & Hin).
        exists extra. split; [done|]. split; [done|].
        intros x Hx. right. by apply Hin.
Qed.

Lemma outer_fold_spec (w : Z) (anomalies : list AnomalyResult)
    (l : list (nat * AnomalyResult)) :
  (forall i a, (i, a) ∈ l -> a ∈ anomalies) ->
  forall (groups : list (list AnomalyResult)) (used : gset nat),
  Forall (kept w anomalies) groups ->
  Forall (kept w anomalies)
         (fst (foldl (outer_step w anomalies) (groups, used) l)).
Proof.
  induction l as [|[i a] l IH]; intros Hl groups used Hgroups; simpl.
  - done.
  - assert (forall i' a', (i', a') ∈ l -> a' ∈ anomalies) as Hl'.
    { intros i' a' H. apply (Hl i' a'). by right. }
    case_bool_decide as Hi; [by apply IH|].
    destruct (inner_fold_spec w a
                (enumerate (i + 1) (drop (i + 1) anomalies))
                [a] (used ∪ {[ i ]})) as (extra & Hg & Hw & Hin).
    destruct (foldl (inner_step w a) _ _) as [group used'] eqn:Hfold.
    simpl in Hg. subst group. apply IH; [done|].
    destruct (Nat.ltb_spec 1 (length (a :: extra))) as [Hlen|]; [|done].
    apply Forall_app. split; [done|]. constructor; [|constructor].
    destruct extra as [|b extra]; [simpl in Hlen; lia|].
    split; [done|]. split.
    + exists a, (b :: extra). split; [done|]. simpl.
      apply Forall_cons in Hw as Hw'. destruct Hw' as [Hb _].
      constructor; [by eapply within_window_refl|done].
    + intros x [->|Hx]%elem_of_cons.
      * apply (Hl i a). by left.
      * apply Hin in Hx.
        change (x ∈ snd <$> enumerate (i + 1) (drop (i + 1) anomalies)) in Hx.
        apply list_elem_of_fmap in Hx as ([j y] & -> & Hy).
        apply enumerate_snd in Hy. simpl.
        by eapply subseteq_drop.
Qed.






(** *** Every close pair is grouped *)

Lemma enumerate_cons {A : Type} (start : nat) (x : A) (l : list A) :
  enumerate start (x :: l) = (start, x) :: enumerate (S start) l.
Proof. done. Qed.

Lemma enumerate_fst {A : Type} (l : list A) :
  forall (start i : nat) (a : A),
  (i, a) ∈ enumerate start l -> (start <= i < start + length l)%nat.
Proof.
  induction l as [|x l IH]; intros start i a Hin.
  - by apply elem_of_nil in Hin.
  - rewrite enumerate_cons in Hin.
    apply elem_of_cons in Hin as [[= -> ->]|Hin]; [simpl; lia|].
    apply IH in Hin. simpl. lia.
Qed.




Lemma inner_step_eq (w : Z) (a b : AnomalyResult) (j : nat)
    (group : list AnomalyResult) (used : gset nat) :
  inner_step w a (group, used) (j, b)
  = if bool_decide (j ∈ used) then (group, used)
    else if within_window w a b
         then (group ++ [b], used ∪ {[ j ]})
         else (group, used).
Proof. done. Qed.

Lemma outer_step_eq (w : Z) (anomalies : list AnomalyResult)
    (a : AnomalyResult) (i : nat) (groups : list (list AnomalyResult))
    (used : gset nat) :
  outer_step w anomalies (groups, used) (i, a)
  = if bool_decide (i ∈ used) then (groups, used)
    else
      let '(group, used') :=
        foldl (inner_step w a) ([a], used ∪ {[ i ]})
              (enumerate (i + 1) (drop (i + 1) anomalies)) in
      (if (1 <? length group)%nat then groups ++ [group] else groups,
       used').
Proof. done. Qed.




Lemma correlation_groups_kept (w : Z) (anomalies : list AnomalyResult) :
  Forall (kept w anomalies) (correlation_groups w anomalies).
Proof.
  unfold correlation_groups. apply outer_fold_spec; [|constructor].
  intros i a H. by eapply enumerate_snd.
Qed.



(** Five anomalies at 0 s, 400 s, 300 s, 600 s and 2000 s with a window
    of 300 s: the first anchors the third, the second anchors the fourth,
    the last stays alone and is dropped. *)
Lemma correlate_anomalies_example :
  let mk := fun (dev : string) (t : Z) =>
              mkAnomalyResult true 4 "z_score"
                (mkMetric "m" dev "" None CPU 99 "%" t SNMP []) "" t in
  correlate_anomalies
    (with_anomalies [mk "a" 0; mk "b" 400000000; mk "c" 300000000;
                     mk "a" 600000000; mk "d" 2000000000] init) 300
  = [mkCorrelationGroup 2 ["a"; "c"] ["cpu"] (300000000 # 1000000);
     mkCorrelationGroup 2 ["b"; "a"] ["cpu"] (200000000 # 1000000)].
Proof. reflexivity. Qed.

End CorrelationProofs.

(** ** Alert manager *)

Module AlertingProofs.
Import Alerting.

(** *** The dictionary *)

Lemma dict_get_elem {V : Type} (k : string) (v : V) (d : list (string * V)) :
  dict_get k d = Some v -> (k, v) ∈ d.
Proof.
  induction d as [|[k' v'] d IH]; simpl; [done|].
  case_decide as Hk.
  - intros [= ->]. subst. by left.
  - intros H. right. by apply IH.
Qed.

Lemma dict_get_none {V : Type} (k : string) (d : list (string * V)) :
  dict_get k d = None <-> k ∉ map fst d.
Proof.
  induction d as [|[k' v'] d IH]; simpl.
  - split; [intros _; apply not_elem_of_nil | done].
  - case_decide as Hk.
    + subst. split; [done|]. intros H. exfalso. apply H. by left.
    + rewrite IH, not_elem_of_cons.
      split; [intros ?; split; [congruence | done] | by intros [_ ?]].
Qed.

Lemma dict_set_fresh {V : Type} (k : string) (v : V) (d : list (string * V)) :
  dict_get k d = None -> dict_set k v d = d ++ [(k, v)].
Proof.
  induction d as [|[k' v'] d IH]; simpl; [done|].
  case_decide as Hk; [done|]. intros H. by rewrite IH.
Qed.

Lemma dict_set_same {V : Type} (k : string) (v : V) (d : list (string * V)) :
  NoDup (map fst d) -> (k, v) ∈ d -> dict_set k v d = d.
Proof.
  induction d as [|[k' v'] d IH]; simpl; intros Hnd Hin.
  - by apply elem_of_nil in Hin.
  - apply NoDup_cons in Hnd as [Hk' Hnd].
    apply elem_of_cons in Hin as [[= <- <-]|Hin].
    + by rewrite decide_True.
    + case_decide as Hk.
      * subst. exfalso. apply Hk'.
        change (fst (k, v) ∈ fst <$> d). by apply list_elem_of_fmap_2.
      * by rewrite IH.
Qed.

Lemma dict_set_keys {V : Type} (k : string) (v : V) (d : list (string * V)) :
  map fst (dict_set k v d)
  = if decide (k ∈ map fst d) then map fst d else map fst d ++ [k].
Proof.
  induction d as [|[k' v'] d IH].
  - destruct (decide (k ∈ map fst [])) as [H|]; [|done].
    by apply elem_of_nil in H.
  - cbn [dict_set]. destruct (decide (k' = k)) as [->|Hk].
    + destruct (decide (k ∈ map fst ((k, v') :: d))) as [_|H]; [done|].
      exfalso. apply H. by left.
    + cbn [map fst]. rewrite IH.
      destruct (decide (k ∈ map fst d)) as [Hin|Hnin];
        destruct (decide (k ∈ k' :: map fst d))
          as [Hin'|Hnin']; try done.
      * exfalso. apply Hnin'. by right.
      * apply elem_of_cons in Hin' as [?|?]; [congruence | done].
Qed.

Lemma dict_set_elem {V : Type} (k : string) (v : V) (d : list (string * V))
    (k' : string) (v' : V) :
  (k', v') ∈ dict_set k v d -> (k' = k /\ v' = v) \/ (k', v') ∈ d.
Proof.
  induction d as [|[k0 v0] d IH]; simpl.
  - intros [[= -> ->]|H]%elem_of_cons; [by left | by apply elem_of_nil in H].
  - case_decide as Hk.
    + intros [[= -> ->]|H]%elem_of_cons; [by left|]. right. by right.
    + intros [[= -> ->]|H]%elem_of_cons; [right; by left|].
      destruct (IH H) as [?|?]; [by left|]. right. by right.
Qed.

Lemma dict_set_length_fresh {V : Type} (k : string) (v : V)
    (d : list (string * V)) :
  dict_get k d = None -> length (dict_set k v d) = S (length d).
Proof.
  intros H. rewrite dict_set_fresh by done. rewrite length_app. simpl. lia.
Qed.

(** *** The heap *)

Lemma heap_set_eq (h : Heap) (r : ref) (a : Alert) : heap_set h r a r = a.
Proof. unfold heap_set. by rewrite decide_True. Qed.

Lemma heap_set_ne (h : Heap) (r r' : ref) (a : Alert) :
  r' <> r -> heap_set h r a r' = h r'.
Proof. intros H. unfold heap_set. by rewrite decide_False. Qed.

Lemma max_severity_idem (s : AlertSeverity) : max_severity s s = s.
Proof. by destruct s. Qed.

(** [max_severity] is the maximum for the order
    info < warning < critical < emergency. *)
Lemma max_severity_spec (old new : AlertSeverity) :
  AlertSeverity_index (max_severity old new)
  = Nat.max (AlertSeverity_index old) (AlertSeverity_index new)
  /\ (max_severity old new = old \/ max_severity old new = new).
Proof. destruct old, new; vm_compute; split; auto. Qed.

Lemma is_duplicate_matches (h : Heap) (alert existing : ref) :
  is_duplicate h alert existing = true <-> matches h alert existing.
Proof.
  unfold is_duplicate, matches.
  rewrite !andb_true_iff, !bool_decide_eq_true. tauto.
Qed.

(** The incoming alert after the suppression statement: only its state can
    have changed, and only to [SUPPRESSED]. *)
Lemma suppress_incoming_other (self : AlertManager) (h : Heap) (now : Z)
    (alert r : ref) :
  r <> alert -> suppress_incoming self h now alert r = h r.
Proof.
  intros H. unfold suppress_incoming.
  destruct (_is_suppressed _ _ _); [by apply heap_set_ne | done].
Qed.

Lemma suppress_incoming_self (self : AlertManager) (h : Heap) (now : Z)
    (alert : ref) :
  suppress_incoming self h now alert alert
  = if _is_suppressed self now (h alert)
    then set_state SUPPRESSED (h alert) else h alert.
Proof.
  unfold suppress_incoming.
  destruct (_is_suppressed _ _ _); [by apply heap_set_eq | done].
Qed.

Lemma suppress_incoming_fields (self : AlertManager) (h : Heap) (now : Z)
    (alert r : ref) :
  let h1 := suppress_incoming self h now alert in
  id (h1 r) = id (h r) /\ device_id (h1 r) = device_id (h r)
  /\ metric_type (h1 r) = metric_type (h r)
  /\ metric_value (h1 r) = metric_value (h r)
  /\ description (h1 r) = description (h r)
  /\ severity (h1 r) = severity (h r).
Proof.
  simpl. destruct (decide (r = alert)) as [->|Hne].
  - rewrite suppress_incoming_self. by destruct (_is_suppressed _ _ _).
  - by rewrite suppress_incoming_other.
Qed.

(** The heap after the deduplication branch. *)
Lemma dedup_update_existing (h1 : Heap) (alert existing : ref) :
  dedup_update h1 alert existing existing
  = set_severity
      (max_severity (severity (h1 existing)) (severity (h1 alert)))
      (set_description (description (h1 alert))
         (set_metric_value (metric_value (h1 alert)) (h1 existing))).
Proof.
  unfold dedup_update. rewrite !heap_set_eq.
  destruct (decide (alert = existing)) as [->|Hne].
  - by rewrite !heap_set_eq.
  - by rewrite !heap_set_ne.
Qed.

Lemma dedup_update_other (h1 : Heap) (alert existing r : ref) :
  r <> existing -> dedup_update h1 alert existing r = h1 r.
Proof. intros H. unfold dedup_update. by rewrite !heap_set_ne. Qed.

(** The two outcomes of [add_alert]. *)
Lemma add_alert_cases (self : AlertManager) (h : Heap) (now : Z)
    (alert : ref) :
  let h1 := suppress_incoming self h now alert in
  (exists k existing,
      (k, existing) ∈ _alerts self
      /\ matches h1 alert existing
      /\ add_alert self h now alert
         = (existing, self, dedup_update h1 alert existing))
  \/ ((forall k e, (k, e) ∈ _alerts self -> ~ matches h1 alert e)
      /\ add_alert self h now alert
         = (alert,
            mkAlertManager (dict_set (id (h1 alert)) alert (_alerts self))
                           (_suppression_rules self),
            h1)).
Proof.
  intros h1. unfold add_alert. fold h1.
  destruct (find _ _) as [[k e]|] eqn:Hf.
  - left. exists k, e. apply find_some in Hf as [Hin Hdup].
    split; [by apply list_elem_of_In|].
    split; [by apply is_duplicate_matches | done].
  - right. split; [|done]. intros k e Hin Hm.
    apply list_elem_of_In in Hin.
    pose proof (find_none _ _ Hf _ Hin) as Hn. simpl in Hn.
    apply is_duplicate_matches in Hm. congruence.
Qed.

(** A match after the suppression statement is a match before it, unless
    it is the incoming alert itself. *)
Lemma matches_suppress_incoming (self : AlertManager) (h : Heap) (now : Z)
    (alert e : ref) :
  matches (suppress_incoming self h now alert) alert e ->
  matches h alert e.
Proof.
  unfold matches.
  destruct (suppress_incoming_fields self h now alert e) as (_ & -> & -> & _).
  destruct (suppress_incoming_fields self h now alert alert)
    as (_ & -> & -> & _).
  intros (Hd & Ht & Hs). split; [done|]. split; [done|].
  destruct (decide (e = alert)) as [->|Hne].
  - rewrite suppress_incoming_self in Hs.
    by destruct (_is_suppressed _ _ _).
  - by rewrite suppress_incoming_other in Hs.
Qed.

Lemma matches_before_suppress (self : AlertManager) (h : Heap) (now : Z)
    (alert e : ref) :
  matches h alert e -> e <> alert ->
  matches (suppress_incoming self h now alert) alert e.
Proof.
  unfold matches. intros (Hd & Ht & Hs) Hne.
  destruct (suppress_incoming_fields self h now alert alert)
    as (_ & -> & -> & _).
  by rewrite suppress_incoming_other.
Qed.


(** *** Deduplication *)

(** [add_alert] maintains the keying of the dictionary. *)
Lemma add_alert_keys_wf (self : AlertManager) (h : Heap) (now : Z)
    (alert r : ref) (self' : AlertManager) (h' : Heap) :
  keys_wf self h ->
  add_alert self h now alert = (r, self', h') ->
  keys_wf self' h'.
Proof.
  intros [Hnd Hid] Hadd.
  destruct (add_alert_cases self h now alert)
    as [(k & e & Hin & Hm & Heq)|[Hno Heq]];
    rewrite Heq in Hadd; injection Hadd as <- <- <-.
  - split; [done|]. intros k' r' Hin'.
    destruct (decide (r' = e)) as [->|Hne].
    + rewrite dedup_update_existing. simpl.
      destruct (suppress_incoming_fields self h now alert e) as (-> & _).
      by apply Hid.
    + rewrite dedup_update_other by done.
      destruct (suppress_incoming_fields self h now alert r') as (-> & _).
      by apply Hid.
  - split; simpl.
    + rewrite dict_set_keys. case_decide as Hk; [done|].
      apply NoDup_app. split; [done|]. split.
      * intros x Hx [->|Hx']%elem_of_cons; [done|].
        by apply elem_of_nil in Hx'.
      * apply NoDup_singleton.
    + intros k' r' [[-> ->]|Hin']%dict_set_elem; [done|].
      destruct (suppress_incoming_fields self h now alert r') as (-> & _).
      by apply Hid.
Qed.

(** The deduplication step: if some stored alert matches the incoming one
    and is active, [add_alert] returns such a stored alert, updated, and
    leaves the manager as it is. *)
Lemma add_alert_dedup_step (self : AlertManager) (h : Heap) (now : Z)
    (alert r : ref) (self' : AlertManager) (h' : Heap) :
  keys_wf self h ->
  (exists e, stored self e /\ matches h alert e) ->
  add_alert self h now alert = (r, self', h') ->
  stored self r
  /\ matches h alert r
  /\ metric_value (h' r) = metric_value (h alert)
  /\ description (h' r) = description (h alert)
  /\ severity (h' r) = max_severity (severity (h r)) (severity (h alert))
  /\ self' = self.
Proof.
  intros [Hnd Hid] (e0 & [k0 Hin0] & Hm0) Hadd.
  destruct (add_alert_cases self h now alert)
    as [(k & e & Hin & Hm & Heq)|[Hno Heq]];
    rewrite Heq in Hadd; injection Hadd as <- <- <-.
  - split; [by exists k|].
    split; [by eapply matches_suppress_incoming|].
    rewrite dedup_update_existing. simpl.
    destruct (suppress_incoming_fields self h now alert alert)
      as (_ & _ & _ & -> & -> & ->).
    destruct (suppress_incoming_fields self h now alert e)
      as (_ & _ & _ & _ & _ & ->).
    done.
  - (* no match is left after the suppression statement: the only match
       was the incoming alert itself, which is stored already *)
    assert (e0 = alert) as ->.
    { destruct (decide (e0 = alert)) as [|Hne]; [done|].
      exfalso. apply (Hno k0 e0 Hin0).
      by apply matches_before_suppress. }
    split; [by exists k0|]. split; [done|].
    destruct (suppress_incoming_fields self h now alert alert)
      as (Hi' & _ & _ & -> & -> & ->).
    rewrite max_severity_idem. repeat split.
    rewrite Hi', (Hid k0 alert Hin0).
    rewrite dict_set_same by done. by destruct self.
Qed.

(** C1. If some stored alert has the device and the metric type of the
    incoming alert and is active, [add_alert] updates the metric value and
    the description of such a stored alert, sets its severity to the larger
    of the old and the new one in the order
    info < warning < critical < emergency, returns it, and leaves the
    dictionary as it is, so [total_alerts] does not change. Hence adding an
    alert that creates an entry and then, while that alert is active, a
    matching alert (the same object or another one) raises [total_alerts]
    by exactly one. *)
Theorem add_alert_dedup :
  (forall (self : AlertManager) (h : Heap) (now : Z) (alert r : ref)
          (self' : AlertManager) (h' : Heap),
     keys_wf self h ->
     (exists e, stored self e /\ matches h alert e) ->
     add_alert self h now alert = (r, self', h') ->
     stored self r
     /\ matches h alert r
     /\ metric_value (h' r) = metric_value (h alert)
     /\ description (h' r) = description (h alert)
     /\ severity (h' r) = max_severity (severity (h r)) (severity (h alert))
     /\ AlertSeverity_index (severity (h' r))
        = Nat.max (AlertSeverity_index (severity (h r)))
                  (AlertSeverity_index (severity (h alert)))
     /\ _alerts self' = _alerts self
     /\ total_alerts self' = total_alerts self)
  /\ (forall (self : AlertManager) (h : Heap) (now1 now2 : Z) (a b : ref)
             (r1 r2 : ref) (s1 s2 : AlertManager) (h1 h2 : Heap),
       keys_wf self h ->
       dict_get (id (h a)) (_alerts self) = None ->
       (forall e, stored self e -> ~ matches h a e) ->
       state (h a) = ACTIVE ->
       _is_suppressed self now1 (h a) = false ->
       device_id (h b) = device_id (h a) ->
       metric_type (h b) = metric_type (h a) ->
       add_alert self h now1 a = (r1, s1, h1) ->
       add_alert s1 h1 now2 b = (r2, s2, h2) ->
       r1 = a /\ r2 = a
       /\ total_alerts s1 = S (total_alerts self)
       /\ total_alerts s2 = S (total_alerts self)
       /\ severity (h2 a)
          = max_severity (severity (h a)) (severity (h b))).
Proof.
  split.
  - intros self h now alert r self' h' Hwf Hex Hadd.
    destruct (add_alert_dedup_step self h now alert r self' h' Hwf Hex Hadd)
      as (Hst & Hm & Hv & Hd & Hs & ->).
    repeat (split; [done|]). split; [|done].
    rewrite Hs. apply max_severity_spec.
  - intros self h now1 now2 a b r1 r2 s1 s2 h1 h2
           Hwf Hfresh Hno Hact Hsup Hdev Hty Hadd1 Hadd2.
    pose proof (add_alert_keys_wf _ _ _ _ _ _ _ Hwf Hadd1) as Hwf1.
    assert (suppress_incoming self h now1 a = h) as Hh
      by (unfold suppress_incoming; by rewrite Hsup).
    destruct (add_alert_cases self h now1 a)
      as [(k & e & Hin & Hm & Heq)|[_ Heq]];
      rewrite Heq in Hadd1; injection Hadd1 as <- <- <-.
    { exfalso. apply (Hno e); [by exists k|]. by rewrite Hh in Hm. }
    rewrite Hh in *.
    set (s1 := mkAlertManager _ _) in *.
    assert (stored s1 a) as Hsa.
    { exists (id (h a)). unfold s1. simpl.
      rewrite dict_set_fresh by done. apply elem_of_app. right. by left. }
    assert (matches h b a) as Hmb by (by split).
    destruct (add_alert_dedup_step s1 h now2 b r2 s2 h2 Hwf1) as
      ([k2 Hst2] & Hm2 & _ & _ & Hs2 & ->); [by exists a | done |].
    assert (r2 = a) as ->.
    { unfold s1 in Hst2. simpl in Hst2.
      rewrite dict_set_fresh in Hst2 by done.
      apply elem_of_app in Hst2 as [Hold|Hnew].
      - exfalso. apply (Hno r2); [by exists k2|].
        destruct Hm2 as (Hd2 & Ht2 & Hs2'). split; [congruence|].
        split; [congruence | done].
      - apply elem_of_cons in Hnew as [[= _ ->]|Hn]; [done|].
        by apply elem_of_nil in Hn. }
    split; [done|]. split; [done|].
    assert (total_alerts s1 = S (total_alerts self)) as Ht.
    { unfold total_alerts, s1. simpl. by apply dict_set_length_fresh. }
    done.
Qed.


(** An alert that is not active and is not the incoming alert is neither
    returned nor written by [add_alert]. *)
Lemma add_alert_inactive_untouched (self : AlertManager) (h : Heap) (now : Z)
    (alert e r : ref) (self' : AlertManager) (h' : Heap) :
  add_alert self h now alert = (r, self', h') ->
  state (h e) <> ACTIVE -> e <> alert ->
  r <> e /\ h' e = h e.
Proof.
  intros Hadd Hst Hne.
  destruct (add_alert_cases self h now alert)
    as [(k & x & Hin & Hm & Heq)|[Hno Heq]];
    rewrite Heq in Hadd; injection Hadd as <- <- <-.
  - apply matches_suppress_incoming in Hm as (_ & _ & Hact).
    assert (x <> e) as Hxe by (intros ->; done).
    split; [done|].
    rewrite dedup_update_other by done. by apply suppress_incoming_other.
  - split; [done|]. by apply suppress_incoming_other.
Qed.

(** C10. The suppression statement comes before the deduplication loop, and
    the loop only matches active alerts. (a) A new alert object that
    matches a suppression rule and an active stored alert on the same
    device and metric type is itself marked suppressed and is not stored;
    an active stored alert is updated and returned, stays active, and the
    dictionary is unchanged. (b) A stored alert that is suppressed,
    acknowledged or resolved is never returned or written on behalf of
    another incoming alert; and when no stored alert with the incoming
    device and metric type is active, a new alert (one whose id is not yet
    a key) is appended as an entry of its own and [total_alerts] grows by
    one. *)
Theorem add_alert_suppression_before_dedup :
  (forall (self : AlertManager) (h : Heap) (now : Z) (alert r : ref)
          (self' : AlertManager) (h' : Heap),
     ~ stored self alert ->
     _is_suppressed self now (h alert) = true ->
     (exists e, stored self e /\ matches h alert e) ->
     add_alert self h now alert = (r, self', h') ->
     stored self r /\ matches h alert r /\ r <> alert
     /\ metric_value (h' r) = metric_value (h alert)
     /\ description (h' r) = description (h alert)
     /\ severity (h' r) = max_severity (severity (h r)) (severity (h alert))
     /\ state (h' r) = ACTIVE
     /\ state (h' alert) = SUPPRESSED
     /\ self' = self
     /\ ~ stored self' alert
     /\ total_alerts self' = total_alerts self)
  /\ (forall (self : AlertManager) (h : Heap) (now : Z) (alert e r : ref)
             (self' : AlertManager) (h' : Heap),
       stored self e -> state (h e) <> ACTIVE -> e <> alert ->
       add_alert self h now alert = (r, self', h') ->
       r <> e /\ h' e = h e)
  /\ (forall (self : AlertManager) (h : Heap) (now : Z) (alert r : ref)
             (self' : AlertManager) (h' : Heap),
       (forall e, stored self e -> ~ matches h alert e) ->
       dict_get (id (h alert)) (_alerts self) = None ->
       add_alert self h now alert = (r, self', h') ->
       r = alert
       /\ _alerts self' = _alerts self ++ [(id (h alert), alert)]
       /\ total_alerts self' = S (total_alerts self)
       /\ state (h' alert)
          = (if _is_suppressed self now (h alert)
             then SUPPRESSED else state (h alert))
       /\ (forall x, x <> alert -> h' x = h x)).
Proof.
  split; [|split].
  - intros self h now alert r self' h' Hnew Hsup (e0 & [k0 Hin0] & Hm0) Hadd.
    assert (e0 <> alert) as Hne0 by (intros ->; apply Hnew; by exists k0).
    destruct (add_alert_cases self h now alert)
      as [(k & e & Hin & Hm & Heq)|[Hno Heq]];
      rewrite Heq in Hadd; injection Hadd as <- <- <-.
    + assert (e <> alert) as Hne by (intros ->; apply Hnew; by exists k).
      pose proof (matches_suppress_incoming _ _ _ _ _ Hm) as Hm'.
      split; [by exists k|]. split; [done|]. split; [done|].
      rewrite dedup_update_existing. simpl.
      rewrite (dedup_update_other _ _ _ alert) by done.
      destruct (suppress_incoming_fields self h now alert alert)
        as (_ & _ & _ & -> & -> & ->).
      rewrite (suppress_incoming_other self h now alert e Hne).
      rewrite suppress_incoming_self, Hsup. simpl.
      destruct Hm' as (_ & _ & Hact). done.
    + exfalso. apply (Hno k0 e0 Hin0). by apply matches_before_suppress.
  - intros self h now alert e r self' h' _ Hst Hne Hadd.
    by eapply add_alert_inactive_untouched.
  - intros self h now alert r self' h' Hno Hfresh Hadd.
    destruct (add_alert_cases self h now alert)
      as [(k & e & Hin & Hm & Heq)|[_ Heq]];
      rewrite Heq in Hadd; injection Hadd as <- <- <-.
    + exfalso. apply (Hno e); [by exists k|].
      by eapply matches_suppress_incoming.
    + destruct (suppress_incoming_fields self h now alert alert) as (Hi & _).
      simpl. rewrite Hi. split; [done|].
      split; [by apply dict_set_fresh|].
      split; [unfold total_alerts; simpl; by apply dict_set_length_fresh|].
      split.
      * rewrite suppress_incoming_self. by destruct (_is_suppressed _ _ _).
      * intros x Hx. by apply suppress_incoming_other.
Qed.

(** *** The state machine *)

Lemma acknowledge_spec (self : AlertManager) (h : Heap) (now : Z)
    (i who : string) :
  (exists r, dict_get i (_alerts self) = Some r /\ state (h r) = ACTIVE
             /\ acknowledge self h now i who
                = (Some r, heap_set h r
                             (set_acknowledged now who
                                (set_state ACKNOWLEDGED (h r)))))
  \/ ((forall r, dict_get i (_alerts self) = Some r -> state (h r) <> ACTIVE)
      /\ acknowledge self h now i who = (None, h)).
Proof.
  unfold acknowledge. destruct (dict_get i (_alerts self)) as [r|].
  - case_bool_decide as Hs.
    + left. by exists r.
    + right. split; [|done]. by intros r' [= <-].
  - right. split; [|done]. by intros r' [=].
Qed.

Lemma resolve_spec (self : AlertManager) (h : Heap) (now : Z) (i : string) :
  (exists r, dict_get i (_alerts self) = Some r
             /\ (state (h r) = ACTIVE \/ state (h r) = ACKNOWLEDGED)
             /\ resolve self h now i
                = (Some r, heap_set h r
                             (set_resolved_at now
                                (set_state RESOLVED (h r)))))
  \/ ((forall r, dict_get i (_alerts self) = Some r ->
                 state (h r) <> ACTIVE /\ state (h r) <> ACKNOWLEDGED)
      /\ resolve self h now i = (None, h)).
Proof.
  unfold resolve. destruct (dict_get i (_alerts self)) as [r|].
  - destruct (bool_decide (state (h r) = ACTIVE)) eqn:Ha;
      [|destruct (bool_decide (state (h r) = ACKNOWLEDGED)) eqn:Hk]; simpl.
    + left. exists r. apply bool_decide_eq_true in Ha. auto.
    + left. exists r. apply bool_decide_eq_true in Hk. auto.
    + right. apply bool_decide_eq_false in Ha, Hk.
      split; [|done]. by intros r' [= <-].
  - right. split; [|done]. by intros r' [=].
Qed.




(** Outside the contract of [add_alert]: when a stored, resolved alert
    object is itself passed to [add_alert] again, it stays resolved unless
    a suppression rule matches it; then the first statement of
    [add_alert] marks it suppressed. *)
Lemma add_alert_readd_resolved (self : AlertManager) (h : Heap) (now : Z)
    (r : ref) :
  state (h r) = RESOLVED ->
  state (snd (run (OpAddAlert now r) (self, h)) r)
  = if _is_suppressed self now (h r) then SUPPRESSED else RESOLVED.
Proof.
  intros Hst. simpl.
  destruct (add_alert_cases self h now r)
    as [(k & e & Hin & Hm & ->)|[_ ->]]; simpl.
  - assert (e <> r) as Hne.
    { intros ->. destruct Hm as (_ & _ & Hact).
      rewrite suppress_incoming_self in Hact.
      destruct (_is_suppressed _ _ _); simpl in Hact; congruence. }
    rewrite dedup_update_other by done.
    rewrite suppress_incoming_self.
    by destruct (_is_suppressed _ _ _).
  - rewrite suppress_incoming_self.
    by destruct (_is_suppressed _ _ _).
Qed.





(** Witness for [add_alert_dedup]: the second end-to-end scenario. A
    critical CPU alert for [d1] is stored; an emergency CPU alert for [d1]
    arrives; one alert is stored, now at emergency. *)
Lemma add_alert_dedup_witness :
  let a0 := mkAlert "a1" "d1" "" None CRITICAL ACTIVE "CPU" "cpu is 90"
              (Some CPU) (Some 90%Q) (Some 85%Q) "health_monitor"
              None 0 None None None [] in
  let a1 := mkAlert "a2" "d1" "" None EMERGENCY ACTIVE "CPU" "cpu is 97"
              (Some CPU) (Some 97%Q) (Some 95%Q) "health_monitor"
              None 1 None None None [] in
  let h0 : Heap := fun r => if decide (r = 0%nat) then a0 else a1 in
  exists r1 s1 h1 r2 s2 h2,
    add_alert init h0 10 0%nat = (r1, s1, h1)
    /\ add_alert s1 h1 20 1%nat = (r2, s2, h2)
    /\ r2 = 0%nat /\ total_alerts s2 = 1%nat
    /\ severity (h2 0%nat) = EMERGENCY
    /\ metric_value (h2 0%nat) = Some 97%Q.
Proof.
  intros a0 a1 h0.
  eexists _, _, _, _, _, _.
  split; [reflexivity|]. split; [reflexivity|].
  assert (keys_wf init h0) as Hwf.
  { split; [constructor|]. intros k r Hin. by apply elem_of_nil in Hin. }
  assert (forall e, stored init e -> ~ matches h0 0%nat e) as Hno.
  { intros e [k Hin]. by apply elem_of_nil in Hin. }
  destruct (proj2 add_alert_dedup init h0 10 20 0%nat 1%nat
              _ _ _ _ _ _ Hwf eq_refl Hno eq_refl eq_refl eq_refl eq_refl
              eq_refl eq_refl) as (_ & H2 & _ & Ht & Hs).
  split; [exact H2|]. split; [exact Ht|]. split; [exact Hs|].
  set (s1 := mkAlertManager [("a1", 0%nat)] []).
  assert (keys_wf s1 h0) as Hwf1.
  { split; [repeat constructor; apply not_elem_of_nil|].
    intros k r Hin. apply list_elem_of_singleton in Hin. by injection Hin as -> ->. }
  assert (exists e, stored s1 e /\ matches h0 1%nat e) as Hex.
  { exists 0%nat. split; [exists "a1"; by left | by repeat split]. }
  destruct (proj1 add_alert_dedup s1 h0 20 1%nat _ _ _ Hwf1 Hex eq_refl)
    as (_ & _ & Hv & _).
  exact Hv.
Defined.

(** Witness for [add_alert_suppression_before_dedup]: an active alert for
    [d1] is stored, a suppression rule for [d1] is installed, and another
    alert for [d1] arrives. *)
Lemma add_alert_suppression_before_dedup_witness :
  let a0 := mkAlert "a1" "d1" "" None WARNING ACTIVE "CPU" "cpu is 75"
              (Some CPU) (Some 75%Q) (Some 70%Q) "health_monitor"
              None 0 None None None [] in
  let a1 := mkAlert "a2" "d1" "" None CRITICAL ACTIVE "CPU" "cpu is 90"
              (Some CPU) (Some 90%Q) (Some 85%Q) "health_monitor"
              None 1 None None None [] in
  let h0 : Heap := fun r => if decide (r = 0%nat) then a0 else a1 in
  let self := mkAlertManager [("a1", 0%nat)]
                [mkSuppressionRule (Some "d1") None None None "window"] in
  exists r self' h',
    add_alert self h0 10 1%nat = (r, self', h')
    /\ r = 0%nat /\ state (h' 0%nat) = ACTIVE
    /\ state (h' 1%nat) = SUPPRESSED
    /\ severity (h' 0%nat) = CRITICAL
    /\ total_alerts self' = 1%nat.
Proof.
  intros a0 a1 h0 self.
  eexists _, _, _. split; [reflexivity|].
  assert (~ stored self 1%nat) as Hnew.
  { intros [k Hin]. apply list_elem_of_singleton in Hin. discriminate. }
  assert (exists e, stored self e /\ matches h0 1%nat e) as Hex.
  { exists 0%nat. split; [exists "a1"; by left | by repeat split]. }
  destruct (proj1 add_alert_suppression_before_dedup self h0 10 1%nat
              _ _ _ Hnew eq_refl Hex eq_refl)
    as (_ & _ & _ & _ & _ & Hs & Hact & Hsup & _ & _ & Ht).
  split; [reflexivity|]. split; [exact Hact|]. split; [exact Hsup|].
  split; [exact Hs|]. exact Ht.
Defined.

End AlertingProofs.

(** ** Configuration store *)

Module ConfigProofs.
Import Config.

Section WithEnvironment.
Variable sha256_hexdigest : string -> string.

(** The snapshot that the constructor builds when the text is new. *)
Lemma backup_config_unchanged (self : ConfigManager) (fresh_id : string)
    (now : Z) (device_id text source hostname : string)
    (latest : ConfigSnapshot) :
  get_latest self device_id = Some latest ->
  config_hash latest = sha256_hexdigest text ->
  backup_config sha256_hexdigest self fresh_id now device_id text source
    hostname = (latest, self).
Proof.
  unfold get_latest, backup_config. intros -> Hh. by rewrite decide_True.
Qed.

Lemma backup_config_changed (self : ConfigManager) (fresh_id : string)
    (now : Z) (device_id text source hostname : string) :
  (forall latest, get_latest self device_id = Some latest ->
                  config_hash latest <> sha256_hexdigest text) ->
  backup_config sha256_hexdigest self fresh_id now device_id text source
    hostname
  = (mkConfigSnapshot fresh_id device_id (Py.str_or hostname device_id)
       text (sha256_hexdigest text) now source [],
     mkConfigManager
       (<[device_id :=
            snapshots_of self device_id
              ++ [mkConfigSnapshot fresh_id device_id
                    (Py.str_or hostname device_id) text
                    (sha256_hexdigest text) now source []]]>
          (_snapshots self))
       (_golden_configs self)).
Proof.
  unfold get_latest, backup_config. intros Hne.
  destruct (last (snapshots_of self device_id)) as [latest|]; [|done].
  rewrite decide_False; [done|]. by apply Hne.
Qed.

(** After a backup, the latest snapshot of the device is the returned one,
    and it carries the hash of the text. *)
Lemma backup_config_latest (self : ConfigManager) (fresh_id : string)
    (now : Z) (device_id text source hostname : string) :
  let out := backup_config sha256_hexdigest self fresh_id now device_id text
               source hostname in
  get_latest (snd out) device_id = Some (fst out)
  /\ config_hash (fst out) = sha256_hexdigest text.
Proof.
  simpl. unfold backup_config.
  destruct (last (snapshots_of self device_id)) as [latest|] eqn:Hl.
  - case_decide as Hh; simpl.
    + done.
    + unfold get_latest, snapshots_of. simpl.
      rewrite lookup_insert_eq. simpl. by rewrite last_snoc.
  - simpl. unfold get_latest, snapshots_of. simpl.
    rewrite lookup_insert_eq. simpl. by rewrite last_snoc.
Qed.

(** A backup for one device leaves the snapshots of the others alone. *)
Lemma backup_config_other_device (self : ConfigManager) (fresh_id : string)
    (now : Z) (device_id text source hostname other : string) :
  other <> device_id ->
  snapshots_of
    (snd (backup_config sha256_hexdigest self fresh_id now device_id text
            source hostname)) other
  = snapshots_of self other.
Proof.
  intros Hne. unfold backup_config.
  destruct (last (snapshots_of self device_id)) as [latest|].
  - case_decide; simpl; [done|].
    unfold snapshots_of. simpl. by rewrite lookup_insert_ne.
  - simpl. unfold snapshots_of. simpl. by rewrite lookup_insert_ne.
Qed.

(** Calls in between that do not bring a text with another hash for the
    device leave its latest snapshot in place. *)
Lemma backup_calls_latest (d t : string) (s : ConfigSnapshot)
    (between : list BackupCall) :
  forall self : ConfigManager,
  get_latest self d = Some s ->
  config_hash s = sha256_hexdigest t ->
  Forall (fun c => call_device_id c = d ->
                   sha256_hexdigest (call_text c) = sha256_hexdigest t)
         between ->
  get_latest (backup_calls sha256_hexdigest self between) d = Some s.
Proof.
  induction between as [|c between IH]; intros self Hl Hh Hall; [done|].
  apply Forall_cons in Hall as [Hc Hall]. simpl. apply IH; [|done|done].
  destruct (decide (call_device_id c = d)) as [Hd|Hd].
  - rewrite Hd.
    rewrite (backup_config_unchanged self _ _ d (call_text c) _ _ s);
      [done | done |]. rewrite Hh. symmetry. by apply Hc.
  - unfold get_latest. by rewrite backup_config_other_device.
Qed.

(** C5 (amended). Two calls [backup_config(d, t)] with the same text and no
    backup of [d] with a text of another hash in between (backups of other
    devices may come in between): the second creates no snapshot (the
    store is unchanged) and returns the snapshot the first call returned,
    hence the same identifier, whatever identifier, time, source and
    hostname the second call carries. The decision compares the sha-256 of
    [t] with the hash of the latest stored snapshot of [d]: equal, the
    latest snapshot is returned and nothing is stored; different or no
    snapshot yet, a snapshot with that hash is appended. *)
Theorem backup_config_idempotent :
  (forall (self : ConfigManager) (id1 id2 : string) (now1 now2 : Z)
          (d t source1 source2 hostname1 hostname2 : string)
          (between : list BackupCall),
     Forall (fun c => call_device_id c = d ->
                      sha256_hexdigest (call_text c) = sha256_hexdigest t)
            between ->
     let first := backup_config sha256_hexdigest self id1 now1 d t source1
                    hostname1 in
     let middle := backup_calls sha256_hexdigest (snd first) between in
     let second := backup_config sha256_hexdigest middle id2 now2 d t
                     source2 hostname2 in
     fst second = fst first
     /\ s_id (fst second) = s_id (fst first)
     /\ snd second = middle
     /\ total_snapshots (snd second) = total_snapshots middle)
  /\ (forall (self : ConfigManager) (fresh_id : string) (now : Z)
            (d t source hostname : string) (latest : ConfigSnapshot),
       get_latest self d = Some latest ->
       config_hash latest = sha256_hexdigest t ->
       backup_config sha256_hexdigest self fresh_id now d t source hostname
       = (latest, self))
  /\ (forall (self : ConfigManager) (fresh_id : string) (now : Z)
            (d t source hostname : string),
       (forall latest, get_latest self d = Some latest ->
                       config_hash latest <> sha256_hexdigest t) ->
       let out := backup_config sha256_hexdigest self fresh_id now d t
                    source hostname in
       s_id (fst out) = fresh_id
       /\ config_text (fst out) = t
       /\ config_hash (fst out) = sha256_hexdigest t
       /\ snapshots_of (snd out) d = snapshots_of self d ++ [fst out]).
Proof.
  split; [|split].
  - intros self id1 id2 now1 now2 d t source1 source2 hostname1 hostname2
           between Hall first middle second.
    destruct (backup_config_latest self id1 now1 d t source1 hostname1)
      as [Hl Hh]. fold first in Hl, Hh.
    assert (second = (fst first, middle)) as ->.
    { subst second. apply backup_config_unchanged; [|done].
      subst middle. by eapply backup_calls_latest. }
    done.
  - intros. by apply backup_config_unchanged.
  - intros self fresh_id now d t source hostname Hne out. subst out.
    rewrite backup_config_changed by done. simpl.
    repeat (split; [done|]).
    unfold snapshots_of at 1. simpl. by rewrite lookup_insert_eq.
Qed.

End WithEnvironment.

(** C5 (as stated) fails when another text was backed up in between: the
    third call below repeats the text of the first and receives a new
    snapshot. *)
Lemma backup_config_same_text_after_change :
  let backup := backup_config SHA256.hexdigest in
  let first := backup init "s1" 10 "dev1" "config v1" "manual" "" in
  let other := backup (snd first) "s2" 20 "dev1" "config v2" "manual" "" in
  let again := backup (snd other) "s3" 30 "dev1" "config v1" "manual" "" in
  s_id (fst first) = "s1"
  /\ s_id (fst again) = "s3"
  /\ s_id (fst again) <> s_id (fst first)
  /\ total_snapshots (snd other) = 2%nat
  /\ total_snapshots (snd again) = 3%nat.
Proof. vm_compute. repeat split; discriminate. Qed.

(** Witness for [backup_config_idempotent]: the test
    [test_no_duplicate_backup], with a backup of another device between
    the two calls. *)
Lemma backup_config_idempotent_witness :
  let backup := backup_config SHA256.hexdigest in
  let between := [mkBackupCall "s2" 15 "dev2" "other config" "manual" ""] in
  let first := backup init "s1" 10 "dev1" "same config" "manual" "" in
  let middle := backup_calls SHA256.hexdigest (snd first) between in
  let second := backup middle "s3" 20 "dev1" "same config" "manual" "" in
  s_id (fst first) = "s1"
  /\ fst second = fst first
  /\ s_id (fst second) = s_id (fst first)
  /\ total_snapshots (snd second) = 2%nat.
Proof.
  intros backup between first middle second.
  destruct (proj1 (backup_config_idempotent SHA256.hexdigest)
              init "s1" "s3" 10 20 "dev1" "same config" "manual" "manual"
              "" "" between) as (H1 & H2 & H3 & H4).
  { repeat constructor. simpl. discriminate. }
  split; [vm_compute; reflexivity|]. split; [exact H1|]. split; [exact H2|].
  vm_compute. reflexivity.
Defined.

End ConfigProofs.

(** ** Topology graph *)

Module TopologyProofs.
Import Topology.

(** Equality of two pairs of sets, pointwise, with case analysis on the
    decidable facts about the point. *)
Ltac pair_set_eq x :=
  apply pair_equal_spec; split; apply set_eq; intros x; set_unfold.

(** The innermost loop over a list of neighbours. *)
Lemma visit_fold (d : string) (l : list string) :
  forall next_layer affected : gset string,
  foldl (visit d) (next_layer, affected) l
  = (next_layer ∪ (list_to_set l ∖ affected ∖ {[ d ]}),
     affected ∪ (list_to_set l ∖ {[ d ]})).
Proof.
  induction l as [|x l IH]; intros nl af; simpl.
  - pair_set_eq y; tauto.
  - destruct (bool_decide (x ∉ af) && bool_decide (x ≠ d)) eqn:E.
    + apply andb_true_iff in E as [E1 E2].
      apply bool_decide_eq_true in E1, E2.
      rewrite IH. clear IH.
      pair_set_eq y; destruct (decide (y = x)) as [->|]; tauto.
    + rewrite IH. clear IH.
      apply andb_false_iff in E as [E|E]; apply bool_decide_eq_false in E.
      * assert (x ∈ af) by (destruct (decide (x ∈ af)); done).
        pair_set_eq y; destruct (decide (y = x)) as [->|]; tauto.
      * assert (x = d) as -> by (destruct (decide (x = d)); done).
        pair_set_eq y; destruct (decide (y = d)) as [->|]; tauto.
Qed.

Lemma expand_spec (adj : gmap string (gset string)) (d dev : string)
    (next_layer affected : gset string) :
  expand adj d (next_layer, affected) dev
  = (next_layer ∪ (adjacent adj dev ∖ affected ∖ {[ d ]}),
     affected ∪ (adjacent adj dev ∖ {[ d ]})).
Proof.
  unfold expand. rewrite visit_fold. by rewrite list_to_set_elements_L.
Qed.

(** The loop over the devices of the current layer. *)
Lemma expand_fold (adj : gmap string (gset string)) (d : string)
    (devs : list string) :
  forall next_layer affected : gset string,
  foldl (expand adj d) (next_layer, affected) devs
  = (next_layer ∪ (neighbourhood adj devs ∖ affected ∖ {[ d ]}),
     affected ∪ (neighbourhood adj devs ∖ {[ d ]})).
Proof.
  unfold neighbourhood.
  induction devs as [|dev devs IH]; intros nl af; simpl.
  - pair_set_eq y; tauto.
  - rewrite expand_spec, IH. clear IH.
    pair_set_eq y; destruct (decide (y ∈ adjacent adj dev)); tauto.
Qed.

Lemma elem_of_neighbourhood (adj : gmap string (gset string))
    (cur : gset string) (v : string) :
  v ∈ neighbourhood adj (elements cur)
  <-> exists u, u ∈ cur /\ v ∈ adjacent adj u.
Proof.
  unfold neighbourhood. rewrite elem_of_union_list. split.
  - intros (X & HX & Hv).
    apply list_elem_of_fmap in HX as (u & -> & Hu).
    exists u. split; [by apply elem_of_elements | done].
  - intros (u & Hu & Hv). exists (adjacent adj u). split; [|done].
    apply list_elem_of_fmap_2. by apply elem_of_elements.
Qed.

Lemma layer_step_spec (adj : gmap string (gset string)) (d : string)
    (cur affected : gset string) :
  layer_step adj d (cur, affected)
  = (neighbourhood adj (elements cur) ∖ affected ∖ {[ d ]},
     affected ∪ (neighbourhood adj (elements cur) ∖ {[ d ]})).
Proof.
  unfold layer_step. rewrite expand_fold. apply pair_equal_spec; split; [set_solver | done].
Qed.

Lemma hops_O_inv (adj : gmap string (gset string)) (d v : string) :
  hops adj d 0 v -> v = d.
Proof. by inversion 1. Qed.

Lemma hops_S_inv (adj : gmap string (gset string)) (d v : string) (n : nat) :
  hops adj d (S n) v -> exists u, hops adj d n u /\ v ∈ adjacent adj u.
Proof. inversion 1; subst. eauto. Qed.

(** The loop invariant of the layer expansion: [affected] holds the
    devices other than [d] within [n] hops, [current_layer] those at
    distance exactly [n]. *)
Lemma bfs_state_spec (adj : gmap string (gset string)) (d : string)
    (n : nat) :
  (forall v, v ∈ snd (bfs_state adj d n)
             <-> v <> d /\ exists m, (m <= n)%nat /\ hops adj d m v)
  /\ (forall v, v ∈ fst (bfs_state adj d n)
                <-> hops adj d n v
                    /\ forall m, (m < n)%nat -> ~ hops adj d m v).
Proof.
  induction n as [|n [IHa IHc]].
  - unfold bfs_state. simpl. split; intros v.
    + split; [set_solver|]. intros (Hne & m & Hm & Hh).
      assert (m = 0%nat) as -> by lia. by apply hops_O_inv in Hh.
    + rewrite elem_of_singleton. split.
      * intros ->. split; [constructor | lia].
      * intros [Hh _]. by apply hops_O_inv in Hh.
  - unfold bfs_state in *. simpl.
    destruct (Nat.iter n (layer_step adj d) ({[ d ]}, ∅)) as [cur af].
    simpl in IHa, IHc. rewrite layer_step_spec. simpl.
    assert (forall v, v ∈ neighbourhood adj (elements cur) ->
                      hops adj d (S n) v) as Hnext.
    { intros v (u & Hu & Hv)%elem_of_neighbourhood.
      apply IHc in Hu as [Hu _]. by econstructor. }
    assert (forall v, hops adj d (S n) v ->
                      (forall m, (m <= n)%nat -> ~ hops adj d m v) ->
                      v ∈ neighbourhood adj (elements cur)) as Hfront.
    { intros v (u & Hu & Hv)%hops_S_inv Hmin.
      apply elem_of_neighbourhood. exists u. split; [|done].
      apply IHc. split; [done|]. intros m Hm Hmu.
      apply (Hmin (S m)); [lia|]. by econstructor. }
    split; intros v.
    + rewrite elem_of_union, elem_of_difference, elem_of_singleton, IHa.
      split.
      * intros [(Hne & m & Hm & Hh)|[Hv Hne]].
        -- split; [done|]. exists m. split; [lia | done].
        -- split; [done|]. exists (S n). split; [lia | by apply Hnext].
      * intros (Hne & m & Hm & Hh).
        destruct (decide (v ∈ af)) as [Hin|Hnin].
        -- left. by apply IHa.
        -- right. split; [|done].
           assert (forall m', (m' <= n)%nat -> ~ hops adj d m' v) as Hmin.
           { intros m' Hm' Hh'. apply Hnin, IHa. eauto. }
           destruct (decide (m = S n)) as [->|Hlt]; [by apply Hfront|].
           exfalso. apply (Hmin m); [lia | done].
    + rewrite !elem_of_difference, elem_of_singleton, IHa. split.
      * intros [[Hv Hnaf] Hne]. split; [by apply Hnext|].
        intros m Hm Hh. apply Hnaf. split; [done|].
        exists m. split; [lia | done].
      * intros [Hh Hmin].
        assert (v <> d) as Hne.
        { intros ->. apply (Hmin 0%nat); [lia | constructor]. }
        split; [split|done].
        -- apply Hfront; [done|]. intros m Hm. apply Hmin. lia.
        -- intros (_ & m & Hm & Hh'). apply (Hmin m); [lia | done].
Qed.

Lemma blast_radius_one (self : TopologyDiscovery) (d : string) :
  get_blast_radius self d 1 = adjacent (_adjacency self) d ∖ {[ d ]}.
Proof.
  change (get_blast_radius self d 1)
    with (snd (layer_step (_adjacency self) d ({[ d ]}, ∅))).
  rewrite layer_step_spec. cbn [snd].
  rewrite elements_singleton. unfold neighbourhood. cbn [fmap list_fmap].
  set_solver.
Qed.


Lemma adjacent_adj_add (adj : gmap string (gset string)) (a b d : string) :
  adjacent (adj_add a b adj) d
  = if decide (d = a) then adjacent adj a ∪ {[ b ]} else adjacent adj d.
Proof.
  unfold adj_add, adjacent at 1. case_decide as Hd.
  - subst. by rewrite lookup_insert_eq.
  - by rewrite lookup_insert_ne.
Qed.

(** Self-loops only come from a neighbor relation of a device with
    itself. *)
Lemma add_neighbor_no_self_loops (self : TopologyDiscovery) (n : Neighbor) :
  local_device_id n <> remote_device_id n ->
  no_self_loops (_adjacency self) ->
  no_self_loops (_adjacency (add_neighbor self n)).
Proof.
  intros Hne Hno d. unfold add_neighbor. simpl.
  rewrite !adjacent_adj_add. specialize (Hno d).
  repeat case_decide; subst; set_solver.
Qed.

(** C8 (amended). [get_blast_radius(d, max_hops)] is exactly the set of
    devices other than [d] that are reachable from [d] within [max_hops]
    hops of the adjacency. For [max_hops = 1] it is the neighbour set of
    [d] minus [d]; its cardinality is the degree of [d] when [d] is not its
    own neighbour, and one less than the degree when it is. *)
Theorem get_blast_radius_spec :
  (forall (self : TopologyDiscovery) (d : string) (max_hops : Z) (v : string),
     v ∈ get_blast_radius self d max_hops
     <-> v <> d /\ within_hops (_adjacency self) d max_hops v)
  /\ (forall (self : TopologyDiscovery) (d : string),
       get_blast_radius self d 1 = adjacent (_adjacency self) d ∖ {[ d ]})
  /\ (forall (self : TopologyDiscovery) (d : string),
       d ∉ adjacent (_adjacency self) d ->
       size (get_blast_radius self d 1) = degree self d)
  /\ (forall (self : TopologyDiscovery) (d : string),
       d ∈ adjacent (_adjacency self) d ->
       S (size (get_blast_radius self d 1)) = degree self d).
Proof.
  split; [|split; [|split]].
  - intros self d k v. unfold get_blast_radius, within_hops.
    change (Nat.iter ?n ?f ?x) with (bfs_state (_adjacency self) d n).
    rewrite (proj1 (bfs_state_spec (_adjacency self) d (Z.to_nat k)) v).
    split; intros (Hne & m & Hm & Hh); (split; [done|]).
    + exists m. split; [|done].
      destruct (decide (k < 0)) as [Hk|Hk]; [|lia].
      assert (m = 0%nat) as -> by lia. by apply hops_O_inv in Hh.
    + exists m. split; [lia | done].
  - intros self d. apply blast_radius_one.
  - intros self d Hd. rewrite blast_radius_one. unfold degree.
    f_equal. set_solver.
  - intros self d Hd. rewrite blast_radius_one. unfold degree.
    rewrite size_difference by set_solver. rewrite size_singleton.
    assert (size (adjacent (_adjacency self) d) <> 0%nat) as Hnz.
    { apply size_non_empty_iff. set_solver. }
    lia.
Qed.

(** C8 (as stated) fails on a self-loop: a device that sees itself and one
    other device has degree 2 and a blast radius of one device. *)
Lemma blast_radius_self_loop_smaller_than_degree :
  let nb := fun a b => mkNeighbor a "Gi0/1" b "Gi0/2" "" None "lldp" 0 in
  let topo := add_neighbor (add_neighbor init (nb "sw1" "sw1"))
                           (nb "sw1" "sw2") in
  degree topo "sw1" = 2%nat
  /\ elements (get_blast_radius topo "sw1" 1) = ["sw2"]
  /\ size (get_blast_radius topo "sw1" 1) <> degree topo "sw1".
Proof. vm_compute. split; [done|]. split; [done | discriminate]. Qed.

(** Witness for [get_blast_radius_spec]: the topology of
    [test_blast_radius], a core with two distribution switches. *)
Lemma get_blast_radius_spec_witness :
  let nb := fun a b => mkNeighbor a "Gi0/0" b "Et1" "" None "lldp" 0 in
  let topo := add_neighbor (add_neighbor init (nb "core" "dist1"))
                           (nb "core" "dist2") in
  size (get_blast_radius topo "core" 1) = degree topo "core"
  /\ degree topo "core" = 2%nat.
Proof.
  intros nb topo. split; [|reflexivity].
  apply (proj1 (proj2 (proj2 get_blast_radius_spec)) topo "core").
  apply (bool_decide_unpack _). vm_compute. exact I.
Defined.

End TopologyProofs.

(** ** Forecast agent *)

Module ForecastProofs.
Import Forecast.

Section WithEnvironment.
Variable float_str : Q -> string.

(** With at least three values and a positive slope the prediction is
    [breach_predicted]. The reported hours are the rounded, unclipped time
    to the breach; only [estimated_breach_time] is clipped at zero. *)
Lemma predict_breach_positive_slope (now : Z) (values : list Q)
    (threshold : Q) (interval_seconds : Z) (slope intercept latest : Q) :
  (3 <= length values)%nat ->
  _linear_regression (range (length values)) values = (slope, intercept) ->
  (0 < slope)%Q ->
  last values = Some latest ->
  let seconds_to_breach :=
    ((threshold - latest) / slope * inject_Z interval_seconds)%Q in
  predict_threshold_breach float_str now values threshold interval_seconds
  = breach_predicted (py_round latest 2) threshold (py_round slope 6)
      (now + round_half_even (qmax 0 seconds_to_breach * 1000000))
      (py_round (seconds_to_breach / 3600) 1)
      (_calculate_confidence (range (length values)) values slope intercept)
      ("Threshold of " +:+ float_str threshold
         +:+ " predicted to be reached in "
         +:+ float_str (py_round (seconds_to_breach / 3600) 1)
         +:+ " hours").
Proof.
  intros Hlen Hreg Hpos Hlast secs. unfold predict_threshold_breach.
  destruct (Nat.ltb_spec (length values) 3) as [|_]; [lia|].
  rewrite Hreg, Hlast. simpl.
  assert (Qle_bool slope 0 = false) as Hle.
  { destruct (Qle_bool slope 0) eqn:E; [|done].
    apply Qle_bool_iff in E. exfalso. by apply (Qlt_not_le _ _ Hpos). }
  unfold Py.gt. rewrite Hle. simpl. reflexivity.
Qed.

(** The confidence is R-squared, clipped below at 0 and rounded to three
    places. *)
Lemma calculate_confidence_r_squared (x y : list Q) (slope intercept : Q) :
  ~ (ss_tot y == 0)%Q ->
  _calculate_confidence x y slope intercept
  = py_round (qmax 0 (1 - ss_res x y slope intercept / ss_tot y)) 3.
Proof.
  intros Hnz. unfold _calculate_confidence.
  destruct (Qeq_bool (ss_tot y) 0) eqn:E; [|done].
  by apply Qeq_bool_eq in E.
Qed.

(** The fifth end-to-end scenario: ten values growing by 2 per interval
    from 10 to 28, threshold 50. Slope 2, (50 - 28) / 2 = 11 intervals of
    60 s = 660 s, reported as 0.2 hours; the fit is exact. *)
Lemma forecast_linear_growth (now : Z) :
  match predict_threshold_breach float_str now
          (map inject_Z [10; 12; 14; 16; 18; 20; 22; 24; 26; 28]) 50 60 with
  | breach_predicted current _ slope ebt hours confidence _ =>
      (current == 28)%Q /\ (slope == 2)%Q /\ ebt = now + 660000000
      /\ (hours == py_round (11 * 60 / 3600) 1)%Q /\ (hours == 0.2)%Q
      /\ (confidence == 1)%Q
  | _ => False
  end.
Proof. vm_compute. repeat split; congruence. Qed.

End WithEnvironment.

(** C7. The reported [time_to_breach_hours] is not clipped at 0: for the
    values 10, 20, 30 (slope 10 per interval), threshold -3570 and 60 s
    per interval, (threshold - latest) / slope = -360 intervals, and the
    result carries -6.0 hours, while [estimated_breach_time], built from
    [max(0, seconds_to_breach)], is the present instant. *)
Theorem time_to_breach_hours_not_clipped
    (float_str : Q -> string) (now : Z) :
  match predict_threshold_breach float_str now [10; 20; 30]%Q (-3570) 60 with
  | breach_predicted _ _ slope ebt hours _ _ =>
      (slope == 10)%Q /\ ebt = now + 0
      /\ (hours == -6)%Q /\ (hours < 0)%Q
  | _ => False
  end.
Proof. vm_compute. repeat split; congruence. Qed.

End ForecastProofs.

(* ===================================================================== *)
(** * Further properties *)

(** ** Alert manager: invariants of the operations *)

Module AlertInvariants.
Import Alerting AlertQueries AlertingProofs.

Lemma dict_elem_get {V : Type} (k : string) (v : V) (d : list (string * V)) :
  NoDup (map fst d) -> (k, v) ∈ d -> dict_get k d = Some v.
Proof.
  induction d as [|[k' v'] d IH]; simpl; intros Hnd Hin.
  - by apply elem_of_nil in Hin.
  - apply NoDup_cons in Hnd as [Hk' Hnd].
    apply elem_of_cons in Hin as [[= <- <-]|Hin].
    + by rewrite decide_True.
    + case_decide as Hk; [|by apply IH].
      subst. exfalso. apply Hk'.
      change (fst (k, v) ∈ fst <$> d). by apply list_elem_of_fmap_2.
Qed.

Lemma dict_set_length {V : Type} (k : string) (v : V) (d : list (string * V)) :
  (length d <= length (dict_set k v d) <= S (length d))%nat.
Proof.
  induction d as [|[k' v'] d IH]; simpl; [lia|].
  case_decide; simpl; lia.
Qed.

Lemma dict_set_new_elem {V : Type} (k : string) (v : V)
    (d : list (string * V)) :
  (k, v) ∈ dict_set k v d.
Proof.
  induction d as [|[k' v'] d IH]; simpl; [by left|].
  case_decide; [by left | by right].
Qed.

(** The fields that [acknowledge] and [resolve] leave alone. *)
Lemma heap_set_same_id (h : Heap) (r x : ref) (a : Alert) :
  id a = id (h r) -> id (heap_set h r a x) = id (h x).
Proof.
  intros Hid. unfold heap_set. case_decide; [by subst | done].
Qed.

Lemma acknowledge_id (self : AlertManager) (h : Heap) (now : Z)
    (i who : string) (x : ref) :
  id (snd (acknowledge self h now i who) x) = id (h x).
Proof.
  destruct (acknowledge_spec self h now i who)
    as [(r & _ & _ & ->)|[_ ->]]; [|done].
  simpl. by apply heap_set_same_id.
Qed.

Lemma resolve_id (self : AlertManager) (h : Heap) (now : Z) (i : string)
    (x : ref) :
  id (snd (resolve self h now i) x) = id (h x).
Proof.
  destruct (resolve_spec self h now i)
    as [(r & _ & _ & ->)|[_ ->]]; [|done].
  simpl. by apply heap_set_same_id.
Qed.

Lemma add_alerts_fold_keys_wf (now : Z) (alerts : list ref) :
  forall (out : list ref) (self : AlertManager) (h : Heap),
  keys_wf self h ->
  let res := foldl (fun acc a =>
                      let '(out, s, hp) := acc in
                      let '(r, s', hp') := add_alert s hp now a in
                      (out ++ [r], s', hp'))
                   (out, self, h) alerts in
  keys_wf (snd (fst res)) (snd res).
Proof.
  induction alerts as [|a alerts IH]; intros out self h Hwf; [done|].
  simpl. destruct (add_alert self h now a) as [[r s'] h'] eqn:Hadd.
  apply IH. by eapply add_alert_keys_wf.
Qed.

(** X1. Every operation of the manager keeps the dictionary keyed by the
    identifiers of its alerts, each key once. *)
Theorem run_keys_wf (op : Op) (self : AlertManager) (h : Heap) :
  keys_wf self h ->
  keys_wf (fst (run op (self, h))) (snd (run op (self, h))).
Proof.
  intros Hwf. destruct op as [now a|now l|now i who|now i|rule]; simpl.
  - destruct (add_alert self h now a) as [[r s'] h'] eqn:Hadd. simpl.
    by eapply add_alert_keys_wf.
  - pose proof (add_alerts_fold_keys_wf now l [] self h Hwf) as H.
    unfold add_alerts. simpl in H.
    by destruct (foldl _ _ l) as [[out s'] h'].
  - destruct Hwf as [Hnd Hid]. split; [done|]. intros k r Hin.
    rewrite acknowledge_id. by apply Hid.
  - destruct Hwf as [Hnd Hid]. split; [done|]. intros k r Hin.
    rewrite resolve_id. by apply Hid.
  - done.
Qed.

(** Witness for [run_keys_wf]. *)
Lemma run_keys_wf_witness :
  let a0 := mkAlert "a1" "d1" "" None WARNING ACTIVE "CPU" "cpu is 75"
              (Some CPU) (Some 75%Q) (Some 70%Q) "health_monitor"
              None 0 None None None [] in
  let h0 : Heap := fun _ => a0 in
  keys_wf (fst (run (OpAddAlert 10 0%nat) (init, h0)))
          (snd (run (OpAddAlert 10 0%nat) (init, h0))).
Proof.
  intros a0 h0. apply run_keys_wf.
  split; [constructor|]. intros k r Hin. by apply elem_of_nil in Hin.
Defined.


(** What [add_alert] can change in an alert: never its device, metric type
    or identifier, and its state only by suppressing the incoming alert. *)
Lemma add_alert_heap (self : AlertManager) (h : Heap) (now : Z)
    (alert r : ref) (self' : AlertManager) (h' : Heap) (x : ref) :
  add_alert self h now alert = (r, self', h') ->
  device_id (h' x) = device_id (h x)
  /\ metric_type (h' x) = metric_type (h x)
  /\ (state (h' x) = state (h x)
      \/ (x = alert /\ state (h' x) = SUPPRESSED)).
Proof.
  intros Hadd.
  assert (state (suppress_incoming self h now alert x) = state (h x)
          \/ (x = alert
              /\ state (suppress_incoming self h now alert x) = SUPPRESSED))
    as Hst.
  { destruct (decide (x = alert)) as [->|Hne].
    - rewrite suppress_incoming_self.
      destruct (_is_suppressed _ _ _); [by right | by left].
    - left. by rewrite suppress_incoming_other. }
  destruct (suppress_incoming_fields self h now alert x)
    as (_ & Hd & Ht & _).
  destruct (add_alert_cases self h now alert)
    as [(k & e & Hin & Hm & Heq)|[Hno Heq]];
    rewrite Heq in Hadd; injection Hadd as <- <- <-; [|done].
  destruct (decide (x = e)) as [->|Hne].
  - rewrite dedup_update_existing. simpl. done.
  - by rewrite dedup_update_other.
Qed.

Lemma add_alert_stored (self : AlertManager) (h : Heap) (now : Z)
    (alert r : ref) (self' : AlertManager) (h' : Heap) (x : ref) :
  add_alert self h now alert = (r, self', h') ->
  stored self' x -> x = alert \/ stored self x.
Proof.
  intros Hadd [k Hin].
  destruct (add_alert_cases self h now alert)
    as [(k0 & e & Hin0 & Hm & Heq)|[Hno Heq]];
    rewrite Heq in Hadd; injection Hadd as <- <- <-.
  - right. by exists k.
  - simpl in Hin. apply dict_set_elem in Hin as [[_ ->]|Hin]; [by left|].
    right. by exists k.
Qed.

Lemma add_alert_unique_active (self : AlertManager) (h : Heap) (now : Z)
    (alert r : ref) (self' : AlertManager) (h' : Heap) :
  unique_active self h ->
  add_alert self h now alert = (r, self', h') ->
  unique_active self' h'.
Proof.
  intros Huniq Hadd e1 e2 Hs1 Hs2 Ha1 Ha2 Hd Ht.
  destruct (add_alert_heap _ _ _ _ _ _ _ e1 Hadd) as (Hd1 & Ht1 & Hst1).
  destruct (add_alert_heap _ _ _ _ _ _ _ e2 Hadd) as (Hd2 & Ht2 & Hst2).
  assert (state (h e1) = ACTIVE) as Hact1
    by (destruct Hst1 as [<-|[_ ?]]; [done | congruence]).
  assert (state (h e2) = ACTIVE) as Hact2
    by (destruct Hst2 as [<-|[_ ?]]; [done | congruence]).
  rewrite Hd1, Hd2 in Hd. rewrite Ht1, Ht2 in Ht.
  destruct (add_alert_cases self h now alert)
    as [(k0 & e & Hin0 & Hm & Heq)|[Hno Heq]];
    rewrite Heq in Hadd; injection Hadd as <- <- <-.
  - by apply Huniq.
  - (* the incoming alert was stored: no stored alert matched it *)
    assert (forall x, stored self x -> x <> alert ->
                      state (h x) = ACTIVE ->
                      device_id (h x) = device_id (h alert) ->
                      metric_type (h x) = metric_type (h alert) -> False)
      as Hclash.
    { intros x [k Hx] Hne Hax Hdx Htx. apply (Hno k x Hx).
      apply matches_before_suppress; [by split | done]. }
    destruct (decide (e1 = e2)) as [|Hne]; [done|]. exfalso.
    destruct (add_alert_stored _ _ _ _ _ _ _ e1 Heq Hs1) as [->|Hold1];
      destruct (add_alert_stored _ _ _ _ _ _ _ e2 Heq Hs2) as [->|Hold2].
    + done.
    + apply (Hclash e2); [done | congruence | done | congruence | congruence].
    + apply (Hclash e1); [done | congruence | done | congruence | congruence].
    + apply Hne. by apply Huniq.
Qed.

Lemma add_alerts_fold_unique_active (now : Z) (alerts : list ref) :
  forall (out : list ref) (self : AlertManager) (h : Heap),
  unique_active self h ->
  let res := foldl (fun acc a =>
                      let '(out, s, hp) := acc in
                      let '(r, s', hp') := add_alert s hp now a in
                      (out ++ [r], s', hp'))
                   (out, self, h) alerts in
  unique_active (snd (fst res)) (snd res).
Proof.
  induction alerts as [|a alerts IH]; intros out self h Hu; [done|].
  simpl. destruct (add_alert self h now a) as [[r s'] h'] eqn:Hadd.
  apply IH. by eapply add_alert_unique_active.
Qed.

(** X2. If no two stored alerts are active for the same device and metric
    type, no operation of the manager makes it so: deduplication keeps the
    active alert of a device and metric type unique. *)
Theorem run_unique_active (op : Op) (self : AlertManager) (h : Heap) :
  unique_active self h ->
  unique_active (fst (run op (self, h))) (snd (run op (self, h))).
Proof.
  intros Hu. destruct op as [now a|now l|now i who|now i|rule]; simpl.
  - destruct (add_alert self h now a) as [[r s'] h'] eqn:Hadd. simpl.
    by eapply add_alert_unique_active.
  - pose proof (add_alerts_fold_unique_active now l [] self h Hu) as H.
    unfold add_alerts. simpl in H.
    by destruct (foldl _ _ l) as [[out s'] h'].
  - destruct (acknowledge_spec self h now i who)
      as [(r & _ & _ & ->)|[_ ->]]; [|done]. simpl.
    intros e1 e2 Hs1 Hs2 Ha1 Ha2 Hd Ht.
    assert (e1 <> r) as H1 by (intros ->; by rewrite heap_set_eq in Ha1).
    assert (e2 <> r) as H2 by (intros ->; by rewrite heap_set_eq in Ha2).
    rewrite heap_set_ne in Ha1, Ha2, Hd, Ht by done.
    rewrite heap_set_ne in Hd, Ht by done. by apply Hu.
  - destruct (resolve_spec self h now i)
      as [(r & _ & _ & ->)|[_ ->]]; [|done]. simpl.
    intros e1 e2 Hs1 Hs2 Ha1 Ha2 Hd Ht.
    assert (e1 <> r) as H1 by (intros ->; by rewrite heap_set_eq in Ha1).
    assert (e2 <> r) as H2 by (intros ->; by rewrite heap_set_eq in Ha2).
    rewrite heap_set_ne in Ha1, Ha2, Hd, Ht by done.
    rewrite heap_set_ne in Hd, Ht by done. by apply Hu.
  - done.
Qed.

(** Witness for [run_unique_active]: the empty manager. *)
Lemma run_unique_active_witness :
  let a0 := mkAlert "a1" "d1" "" None WARNING ACTIVE "CPU" "cpu is 75"
              (Some CPU) (Some 75%Q) (Some 70%Q) "health_monitor"
              None 0 None None None [] in
  let h0 : Heap := fun _ => a0 in
  unique_active (fst (run (OpAddAlerts 10 [0%nat; 1%nat]) (init, h0)))
                (snd (run (OpAddAlerts 10 [0%nat; 1%nat]) (init, h0))).
Proof.
  intros a0 h0. apply run_unique_active.
  intros e1 e2 [k Hin]. by apply elem_of_nil in Hin.
Defined.

Lemma add_alerts_fold_total (now : Z) (alerts : list ref) :
  forall (out : list ref) (self : AlertManager) (h : Heap),
  let res := foldl (fun acc a =>
                      let '(out, s, hp) := acc in
                      let '(r, s', hp') := add_alert s hp now a in
                      (out ++ [r], s', hp'))
                   (out, self, h) alerts in
  (total_alerts self <= total_alerts (snd (fst res))
   <= total_alerts self + length alerts)%nat
  /\ length (fst (fst res)) = (length out + length alerts)%nat.
Proof.
  induction alerts as [|a alerts IH]; intros out self h; simpl; [lia|].
  destruct (add_alert_cases self h now a)
    as [(k0 & e & Hin0 & Hm & ->)|[Hno ->]].
  - specialize (IH (out ++ [e]) self
                   (dedup_update (suppress_incoming self h now a) a e)).
    simpl in IH. rewrite length_app in IH. simpl in IH. lia.
  - set (s' := mkAlertManager _ _).
    specialize (IH (out ++ [a]) s' (suppress_incoming self h now a)).
    simpl in IH. rewrite length_app in IH. simpl in IH.
    assert (total_alerts self <= total_alerts s' <= S (total_alerts self))%nat
      by apply dict_set_length.
    lia.
Qed.

(** X3. No operation removes an alert: [total_alerts] never decreases, and
    it grows by at most the number of alerts passed to the operation.
    [add_alerts] returns one alert per alert passed. *)
Theorem run_total_alerts (op : Op) (self : AlertManager) (h : Heap) :
  (total_alerts self <= total_alerts (fst (run op (self, h)))
   <= total_alerts self + length (op_arguments op))%nat
  /\ (forall now l,
        length (fst (fst (add_alerts self h now l))) = length l).
Proof.
  split.
  - destruct op as [now a|now l|now i who|now i|rule]; simpl;
      try (unfold total_alerts; simpl; lia).
    + destruct (add_alert_cases self h now a)
        as [(k0 & e & Hin0 & Hm & ->)|[Hno ->]]; simpl; [lia|].
      pose proof (dict_set_length
                    (id (suppress_incoming self h now a a)) a (_alerts self)).
      unfold total_alerts. simpl. lia.
    + pose proof (proj1 (add_alerts_fold_total now l [] self h)) as H.
      unfold add_alerts. simpl in H.
      by destruct (foldl _ _ l) as [[out s'] h'].
  - intros now l.
    apply (proj2 (add_alerts_fold_total now l [] self h)).
Qed.

(** X4. Under the keying invariant, the alert that [add_alert] returns is
    stored afterwards and [get_alert] finds it under its identifier. *)
Theorem add_alert_then_get_alert (self : AlertManager) (h : Heap) (now : Z)
    (alert r : ref) (self' : AlertManager) (h' : Heap) :
  keys_wf self h ->
  add_alert self h now alert = (r, self', h') ->
  stored self' r /\ get_alert self' (id (h' r)) = Some r.
Proof.
  intros Hwf Hadd.
  destruct (add_alert_keys_wf _ _ _ _ _ _ _ Hwf Hadd) as [Hnd' Hid'].
  assert (stored self' r) as [k Hin].
  { destruct (add_alert_cases self h now alert)
      as [(k0 & e & Hin0 & Hm & Heq)|[Hno Heq]];
      rewrite Heq in Hadd; injection Hadd as <- <- <-.
    - by exists k0.
    - eexists. simpl. apply dict_set_new_elem. }
  split; [by exists k|].
  unfold get_alert. rewrite (Hid' k r Hin). by apply dict_elem_get.
Qed.

(** Witness for [add_alert_then_get_alert]. *)
Lemma add_alert_then_get_alert_witness :
  let a0 := mkAlert "a1" "d1" "" None WARNING ACTIVE "CPU" "cpu is 75"
              (Some CPU) (Some 75%Q) (Some 70%Q) "health_monitor"
              None 0 None None None [] in
  let h0 : Heap := fun _ => a0 in
  exists r self' h',
    add_alert init h0 10 0%nat = (r, self', h')
    /\ get_alert self' (id (h' r)) = Some r.
Proof.
  intros a0 h0.
  destruct (add_alert init h0 10 0%nat) as [[r s'] h'] eqn:E.
  exists r, s', h'. split; [reflexivity|].
  refine (proj2 (add_alert_then_get_alert init h0 10 0%nat r s' h' _ E)).
  split; [constructor|]. intros k x Hin. by apply elem_of_nil in Hin.
Defined.

End AlertInvariants.

(** ** Alert manager: queries *)

Module AlertQueriesProofs.
Import Alerting AlertQueries AlertingProofs.

Lemma insert_desc_perm (h : Heap) (x : ref) (l : list ref) :
  insert_desc h x l ≡ₚ x :: l.
Proof.
  induction l as [|y l IH]; simpl; [done|].
  destruct (created_at (h y) >? created_at (h x)); [|done].
  rewrite IH. apply Permutation_swap.
Qed.

Lemma sort_desc_perm (h : Heap) (l : list ref) : sort_desc h l ≡ₚ l.
Proof.
  induction l as [|x l IH]; simpl; [done|].
  by rewrite insert_desc_perm, IH.
Qed.

Lemma insert_desc_sorted (h : Heap) (x : ref) (l : list ref) :
  newest_first h l -> newest_first h (insert_desc h x l).
Proof.
  unfold newest_first. induction l as [|y l IH]; simpl; intros Hs.
  - repeat constructor.
  - apply StronglySorted_inv in Hs as [Hs Hall].
    destruct (Z.gtb_spec (created_at (h y)) (created_at (h x))) as [Hgt|Hle].
    + constructor; [by apply IH|].
      rewrite insert_desc_perm. constructor; [lia | done].
    + constructor; [by constructor|].
      constructor; [done|].
      eapply Forall_impl; [exact Hall|]. simpl. lia.
Qed.

Lemma sort_desc_sorted (h : Heap) (l : list ref) :
  newest_first h (sort_desc h l).
Proof.
  induction l as [|x l IH]; simpl; [constructor|].
  by apply insert_desc_sorted.
Qed.

Lemma filter_alerts_spec (h : Heap) (st : option AlertState)
    (sev : option AlertSeverity) (dev : option string) (l : list ref)
    (a : ref) :
  a ∈ filter_alerts h st sev dev l <-> a ∈ l /\ selected h st sev dev a.
Proof.
  unfold filter_alerts, selected.
  destruct st as [s1|], sev as [s2|], dev as [d|]; simpl;
    try (destruct (decide (d = "")) as [->|Hd]);
    rewrite ?list_elem_of_filter; split; intros H; intuition (try congruence).
  all: try (match goal with H : _ = Some _ |- _ => by injection H as -> end).
  all: try (f_equal; auto).
Qed.

Lemma slice_to_prefix {A : Type} (n : Z) (l : list A) :
  PySeq.slice_to n l `prefix_of` l.
Proof. unfold PySeq.slice_to. apply prefix_take. Qed.

Lemma slice_to_length {A : Type} (n : Z) (l : list A) :
  Z.of_nat (length (PySeq.slice_to n l))
  = if n <? 0 then Z.max 0 (Z.of_nat (length l) + n)
    else Z.min n (Z.of_nat (length l)).
Proof.
  unfold PySeq.slice_to. rewrite length_take.
  destruct (n <? 0) eqn:E; lia.
Qed.

Lemma newest_first_app (h : Heap) (l1 l2 : list ref) :
  newest_first h (l1 ++ l2) ->
  forall a x, a ∈ l1 -> x ∈ l2 -> created_at (h x) <= created_at (h a).
Proof.
  unfold newest_first. induction l1 as [|y l1 IH]; simpl; intros Hs a x Ha Hx.
  - by apply elem_of_nil in Ha.
  - apply StronglySorted_inv in Hs as [Hs Hall].
    apply elem_of_cons in Ha as [->|Ha]; [|by eapply IH].
    rewrite Forall_forall in Hall. apply Hall.
    apply elem_of_app. by right.
Qed.


Lemma filter_alerts_length (h : Heap) (st : option AlertState)
    (sev : option AlertSeverity) (dev : option string) (l : list ref) :
  (length (filter_alerts h st sev dev l) <= length l)%nat.
Proof.
  unfold filter_alerts.
  destruct st as [s1|], sev as [s2|]; destruct (Py.truthy_str dev);
    repeat (etrans; [apply length_filter|]); done.
Qed.

(** X5. [get_alerts] returns stored alerts that pass the three filters,
    newest first; with a limit of at least 0 it returns at most [limit] of
    them; an alert that passes the filters and is left out is not newer
    than any alert returned; and when the limit is not below the number of
    stored alerts, every stored alert that passes the filters is
    returned. *)
Theorem get_alerts_spec (self : AlertManager) (h : Heap)
    (st : option AlertState) (sev : option AlertSeverity)
    (dev : option string) (limit : Z) :
  let result := get_alerts self h st sev dev limit in
  (forall a, a ∈ result -> stored self a /\ selected h st sev dev a)
  /\ newest_first h result
  /\ (0 <= limit -> Z.of_nat (length result) <= limit)
  /\ (forall a x, a ∈ result -> stored self x -> selected h st sev dev x ->
                  x ∉ result -> created_at (h x) <= created_at (h a))
  /\ (Z.of_nat (total_alerts self) <= limit ->
      forall x, stored self x -> selected h st sev dev x -> x ∈ result).
Proof.
  intros result. subst result. unfold get_alerts.
  set (chosen := filter_alerts h st sev dev (map snd (_alerts self))).
  set (sorted := sort_desc h chosen).
  assert (forall a, a ∈ sorted <-> stored self a /\ selected h st sev dev a)
    as Hmem.
  { intros a. unfold sorted. rewrite sort_desc_perm. unfold chosen.
    rewrite filter_alerts_spec.
    change (map snd (_alerts self)) with (snd <$> _alerts self).
    rewrite list_elem_of_fmap. unfold stored. split.
    - intros [([k r] & -> & Hin) Hsel]. split; [by exists k | done].
    - intros [[k Hin] Hsel]. split; [|done]. by exists (k, a). }
  pose proof (sort_desc_sorted h chosen) as Hsorted. fold sorted in Hsorted.
  pose proof (slice_to_prefix limit sorted) as [rest Hrest].
  split; [|split; [|split; [|split]]].
  - intros a Ha. apply Hmem. rewrite Hrest. apply elem_of_app. by left.
  - unfold newest_first in *. rewrite Hrest in Hsorted.
    clear -Hsorted. induction (PySeq.slice_to limit sorted) as [|y l IH].
    + constructor.
    + simpl in Hsorted. apply StronglySorted_inv in Hsorted as [Hs Hall].
      constructor; [by apply IH|].
      apply Forall_app in Hall. tauto.
  - intros Hl. rewrite slice_to_length.
    destruct (Z.ltb_spec limit 0); lia.
  - intros a x Ha Hx Hsel Hnot.
    assert (x ∈ sorted) as Hxs by (by apply Hmem).
    rewrite Hrest in Hxs. apply elem_of_app in Hxs as [?|Hxr]; [done|].
    eapply newest_first_app; [|exact Ha|exact Hxr].
    by rewrite <- Hrest.
  - intros Hl x Hx Hsel.
    assert (PySeq.slice_to limit sorted = sorted) as ->;
      [|by apply Hmem].
    unfold PySeq.slice_to.
    assert (length sorted <= total_alerts self)%nat as Hlen.
    { unfold sorted. rewrite sort_desc_perm. unfold chosen.
      etrans; [apply filter_alerts_length|].
      unfold total_alerts. by rewrite length_map. }
    destruct (Z.ltb_spec limit 0); [lia|].
    apply take_ge. lia.
Qed.

(** Witness for [get_alerts_spec]: two stored alerts, limit 1. *)
Lemma get_alerts_spec_witness :
  let mk := fun (i : string) (t : Z) =>
              mkAlert i "d1" "" None WARNING ACTIVE "t" "" (Some CPU) None
                None "threshold" None t None None None [] in
  let h0 : Heap := fun r => if decide (r = 0%nat) then mk "a1" 5
                            else mk "a2" 9 in
  let self := mkAlertManager [("a1", 0%nat); ("a2", 1%nat)] [] in
  get_alerts self h0 None None None 1 = [1%nat]
  /\ Z.of_nat (length (get_alerts self h0 None None None 1)) <= 1.
Proof.
  intros mk h0 self. split; [reflexivity|].
  apply (proj1 (proj2 (proj2 (get_alerts_spec self h0 None None None 1)))).
  lia.
Defined.

(** *** Counters *)

Lemma dict_get_set {V : Type} (k k' : string) (v : V)
    (d : list (string * V)) :
  dict_get k' (dict_set k v d)
  = if decide (k = k') then Some v else dict_get k' d.
Proof.
  induction d as [|[k0 v0] d IH]; simpl.
  - by destruct (decide (k = k')).
  - destruct (decide (k0 = k)) as [->|Hk0]; simpl.
    + by destruct (decide (k = k')).
    + rewrite IH. destruct (decide (k0 = k')) as [->|?]; [|done].
      by rewrite decide_False.
Qed.

Lemma dict_incr_get (k k' : string) (d : list (string * nat)) :
  default 0%nat (dict_get k' (dict_incr k d))
  = (default 0%nat (dict_get k' d) + (if decide (k = k') then 1 else 0))%nat.
Proof.
  unfold dict_incr. rewrite dict_get_set.
  destruct (decide (k = k')) as [->|]; simpl; lia.
Qed.

Lemma dict_incr_total (k : string) (d : list (string * nat)) :
  dict_total (dict_incr k d) = S (dict_total d).
Proof.
  unfold dict_incr. induction d as [|[k0 v0] d IH]; simpl; [done|].
  destruct (decide (k0 = k)) as [->|Hk0]; simpl; [lia|].
  rewrite IH. lia.
Qed.

(** Counting the elements of a list by a key. *)
Lemma count_fold_get {A : Type} (f : A -> string) (k : string)
    (l : list A) :
  forall d : list (string * nat),
  default 0%nat (dict_get k (foldl (fun d a => dict_incr (f a) d) d l))
  = (default 0%nat (dict_get k d) + length (filter (fun a => f a = k) l))%nat.
Proof.
  induction l as [|a l IH]; intros d; simpl; [lia|].
  rewrite IH, dict_incr_get, filter_cons.
  destruct (decide (f a = k)); simpl; lia.
Qed.

Lemma count_fold_total {A : Type} (f : A -> string) (l : list A) :
  forall d : list (string * nat),
  dict_total (foldl (fun d a => dict_incr (f a) d) d l)
  = (dict_total d + length l)%nat.
Proof.
  induction l as [|a l IH]; intros d; simpl; [lia|].
  rewrite IH, dict_incr_total. lia.
Qed.

Lemma count_fold_total_if {A : Type} (f : A -> string) (P : A -> Prop)
    `{!forall a, Decision (P a)} (l : list A) :
  forall d : list (string * nat),
  dict_total (foldl (fun d a => if decide (P a) then dict_incr (f a) d
                                else d) d l)
  = (dict_total d + length (filter P l))%nat.
Proof.
  induction l as [|a l IH]; intros d; simpl; [lia|].
  rewrite IH, filter_cons.
  destruct (decide (P a)); simpl; [rewrite dict_incr_total|]; lia.
Qed.

Lemma AlertState_value_inj (s1 s2 : AlertState) :
  AlertState_value s1 = AlertState_value s2 <-> s1 = s2.
Proof. split; [|by intros ->]. by destruct s1, s2. Qed.

Lemma count_states (l : list Alert) :
  (length (filter (fun a => state a = ACTIVE) l)
   + length (filter (fun a => state a = ACKNOWLEDGED) l)
   + length (filter (fun a => state a = RESOLVED) l)
   + length (filter (fun a => state a = SUPPRESSED) l))%nat = length l.
Proof.
  induction l as [|a l IH]; simpl; [done|].
  rewrite !filter_cons.
  destruct (state a); repeat case_decide; try done; simpl; lia.
Qed.

(** X6. [get_summary] counts every stored alert once: the four state
    counters are the numbers of stored alerts in each state and add up to
    [total]; the severity counters add up to [total]; the device counters
    add up to the number of active alerts. *)
Theorem get_summary_spec (self : AlertManager) (h : Heap) :
  let s := get_summary self h in
  let in_state := fun st =>
    length (filter (fun kv => state (h (snd kv)) = st) (_alerts self)) in
  sum_total s = total_alerts self
  /\ sum_active s = in_state ACTIVE
  /\ sum_acknowledged s = in_state ACKNOWLEDGED
  /\ sum_resolved s = in_state RESOLVED
  /\ sum_suppressed s = in_state SUPPRESSED
  /\ (sum_active s + sum_acknowledged s + sum_resolved s
      + sum_suppressed s)%nat = sum_total s
  /\ dict_total (sum_by_severity s) = sum_total s
  /\ dict_total (sum_by_device s) = sum_active s.
Proof.
  intros s in_state. subst s. unfold get_summary. simpl.
  set (alerts := map (fun kv => h (snd kv)) (_alerts self)).
  assert (forall st,
            default 0%nat
              (dict_get (AlertState_value st)
                 (foldl (fun d a => dict_incr (AlertState_value (state a)) d)
                        [] alerts))
            = in_state st) as Hcount.
  { intros st.
    rewrite (count_fold_get (fun a => AlertState_value (state a))). simpl.
    unfold in_state, alerts. clear.
    induction (_alerts self) as [|kv l IH]; simpl; [done|].
    rewrite !filter_cons.
    destruct (decide (state (h (snd kv)) = st)) as [He|Hne];
      destruct (decide (AlertState_value (state (h (snd kv)))
                        = AlertState_value st)) as [Hv|Hv]; simpl.
    - congruence.
    - by rewrite He in Hv.
    - by apply AlertState_value_inj in Hv.
    - done. }
  pose proof (Hcount ACTIVE) as Ha. pose proof (Hcount ACKNOWLEDGED) as Hk.
  pose proof (Hcount RESOLVED) as Hr. pose proof (Hcount SUPPRESSED) as Hs.
  simpl in Ha, Hk, Hr, Hs. rewrite Ha, Hk, Hr, Hs.
  assert (length alerts = length (_alerts self)) as Hlen
    by (unfold alerts; apply length_map).
  assert (forall st, in_state st
                     = length (filter (fun a => state a = st) alerts))
    as Hin.
  { intros st. unfold in_state, alerts. clear.
    induction (_alerts self) as [|kv l IH]; simpl; [done|].
    rewrite !filter_cons.
    destruct (decide (state (h (snd kv)) = st)); simpl; congruence. }
  repeat (split; [done|]). split; [|split].
  - rewrite !Hin, count_states. done.
  - rewrite count_fold_total. simpl. done.
  - rewrite (count_fold_total_if _ (fun a => state a = ACTIVE)). simpl.
    by rewrite Hin.
Qed.

(** X7. The full life of an alert: after a successful [acknowledge], a
    [resolve] of the same alert succeeds and keeps the acknowledgement
    fields; after that, neither [acknowledge] nor [resolve] does anything,
    and no other alert object has been touched. *)
Theorem acknowledge_then_resolve (self : AlertManager) (h : Heap)
    (now1 now2 now3 : Z) (i who who' : string) (r : ref) :
  dict_get i (_alerts self) = Some r ->
  state (h r) = ACTIVE ->
  let h1 := snd (acknowledge self h now1 i who) in
  let h2 := snd (resolve self h1 now2 i) in
  fst (acknowledge self h now1 i who) = Some r
  /\ fst (resolve self h1 now2 i) = Some r
  /\ state (h2 r) = RESOLVED
  /\ acknowledged_at (h2 r) = Some now1
  /\ acknowledged_by (h2 r) = Some who
  /\ resolved_at (h2 r) = Some now2
  /\ (forall x, x <> r -> h2 x = h x)
  /\ acknowledge self h2 now3 i who' = (None, h2)
  /\ resolve self h2 now3 i = (None, h2).
Proof.
  intros Hget Hact h1 h2. subst h1 h2.
  unfold acknowledge, resolve. rewrite Hget.
  rewrite (bool_decide_eq_true_2 _ Hact). simpl.
  rewrite heap_set_eq. simpl. rewrite !heap_set_eq. simpl.
  repeat (split; [done|]). split; [|done].
  intros x Hx. by rewrite !heap_set_ne.
Qed.

(** Witness for [acknowledge_then_resolve]. *)
Lemma acknowledge_then_resolve_witness :
  let a0 := mkAlert "a1" "d1" "" None WARNING ACTIVE "CPU" "cpu is 75"
              (Some CPU) (Some 75%Q) (Some 70%Q) "health_monitor"
              None 0 None None None [] in
  let h0 : Heap := fun _ => a0 in
  let self := mkAlertManager [("a1", 0%nat)] [] in
  let h1 := snd (acknowledge self h0 10 "a1" "admin") in
  let h2 := snd (resolve self h1 20 "a1") in
  state (h2 0%nat) = RESOLVED /\ acknowledged_by (h2 0%nat) = Some "admin".
Proof.
  intros a0 h0 self h1 h2.
  destruct (acknowledge_then_resolve self h0 10 20 30 "a1" "admin" "x"
              0%nat eq_refl eq_refl) as (_ & _ & Hs & _ & Hb & _).
  split; [exact Hs | exact Hb].
Defined.
End AlertQueriesProofs.

(** ** Health engine: batches, bounds and queries *)

Module HealthQueriesProofs.
Import Health HealthQueries.

Section WithEnvironment.
Variable uuid4 : nat -> string.
Variable float_str : Q -> string.

(** One step of the loop: what it does to the fields of the monitor. *)
Lemma process_metric_fields (now : Z) (self : HealthMonitor)
    (new_alerts : list Alert) (m : Metric) :
  let out := process_metric uuid4 float_str now (self, new_alerts) m in
  let key := series_key (m_device_id m) (m_metric_type m) in
  _thresholds (fst out) = _thresholds self
  /\ _max_history (fst out) = _max_history self
  /\ _metric_history (fst out)
     = <[key := Py.trim (_max_history self) (history_of self key ++ [m])]>
         (_metric_history self)
  /\ (exists extra,
        _alerts (fst out) = _alerts self ++ extra
        /\ snd out = new_alerts ++ extra
        /\ map alert_summary extra
           = match violation self m with Some v => [v] | None => [] end
        /\ Forall (fun a => state a = ACTIVE /\ source a = "health_monitor")
                  extra).
Proof.
  simpl. unfold process_metric, violation, _check_threshold. simpl.
  destruct (_thresholds self (m_metric_type m)) as [th|]; simpl.
  - destruct (select_tier th (m_value m)) as [[sev tv]|]; simpl.
    + repeat (split; [done|]). eexists [_]. repeat split; repeat constructor.
    + repeat (split; [done|]). exists []. rewrite !app_nil_r.
      repeat split; constructor.
  - repeat (split; [done|]). exists []. rewrite !app_nil_r.
    repeat split; constructor.
Qed.

Lemma process_metrics_fold (now : Z) (metrics : list Metric) :
  forall (self : HealthMonitor) (new_alerts : list Alert),
  let out := foldl (process_metric uuid4 float_str now) (self, new_alerts)
                   metrics in
  _thresholds (fst out) = _thresholds self
  /\ _max_history (fst out) = _max_history self
  /\ (0 < _max_history self -> bounded self -> bounded (fst out))
  /\ (exists extra,
        _alerts (fst out) = _alerts self ++ extra
        /\ snd out = new_alerts ++ extra
        /\ map alert_summary extra = omap (violation self) metrics
        /\ Forall (fun a => state a = ACTIVE /\ source a = "health_monitor")
                  extra).
Proof.
  induction metrics as [|m metrics IH]; intros self new_alerts;
    cbn [foldl]; cbv zeta.
  - simpl. repeat (split; [done|]). exists []. rewrite !app_nil_r.
    repeat split; constructor.
  - destruct (process_metric_fields now self new_alerts m)
      as (Hth & Hmax & Hhist & extra1 & Hal1 & Hnew1 & Hsum1 & Hall1).
    destruct (process_metric uuid4 float_str now (self, new_alerts) m)
      as [self1 new1] eqn:Hstep. simpl in Hth, Hmax, Hhist, Hal1, Hnew1.
    pose proof (IH self1 new1) as IH1. cbv zeta in IH1.
    destruct IH1 as (Hth2 & Hmax2 & Hb2 & extra2 & Hal2 & Hnew2
                     & Hsum2 & Hall2).
    split; [by rewrite Hth2|]. split; [by rewrite Hmax2|]. split.
    + intros Hcap Hb. apply Hb2; [congruence|].
      intros key. unfold history_of. rewrite Hhist, Hmax.
      destruct (decide (key = series_key (m_device_id m) (m_metric_type m)))
        as [->|Hne].
      * rewrite lookup_insert_eq. simpl. rewrite trim_length by done. lia.
      * rewrite lookup_insert_ne by done. apply Hb.
    + exists (extra1 ++ extra2).
      rewrite Hal2, Hal1, Hnew2, Hnew1, <- !app_assoc.
      split; [done|]. split; [done|]. split.
      * rewrite map_app, Hsum1, Hsum2.
        assert (forall m', violation self1 m' = violation self m') as Hv.
        { intros m'. unfold violation. by rewrite Hth. }
        assert (omap (violation self1) metrics
                = omap (violation self) metrics) as ->.
        { clear -Hv. induction metrics as [|x l IHl]; simpl; [done|].
          rewrite Hv. destruct (violation self x); [f_equal|]; exact IHl. }
        change (omap (violation self) (m :: metrics))
          with (match violation self m with
                | Some v => v :: omap (violation self) metrics
                | None => omap (violation self) metrics
                end).
        by destruct (violation self m).
      * by apply Forall_app.
Qed.


(** X8. [process_metrics] keeps every series within [max_history]: a
    monitor whose series all respect the cap still has only such series
    after any batch (the cap being positive, as [__init__] sets it). *)
Theorem process_metrics_bounded (self : HealthMonitor) (now : Z)
    (metrics : list Metric) :
  0 < _max_history self ->
  bounded self ->
  bounded (fst (process_metrics uuid4 float_str self now metrics))
  /\ _max_history (fst (process_metrics uuid4 float_str self now metrics))
     = _max_history self.
Proof.
  intros Hcap Hb. unfold process_metrics.
  destruct (process_metrics_fold now metrics self [])
    as (_ & Hmax & Hbd & _).
  split; [by apply Hbd | done].
Qed.

(** X9. [process_metrics] returns one alert per metric of the batch that
    violates its threshold, in the order of the batch, carrying the
    device, metric type, value, severity and threshold value of that
    violation; metrics of a type without threshold contribute nothing.
    The returned alerts are active, have source [health_monitor], and are
    exactly what is appended to the alerts of the monitor. *)
Theorem process_metrics_alerts (self : HealthMonitor) (now : Z)
    (metrics : list Metric) :
  let out := process_metrics uuid4 float_str self now metrics in
  map alert_summary (snd out) = omap (violation self) metrics
  /\ _alerts (fst out) = _alerts self ++ snd out
  /\ alert_count (fst out) = (alert_count self + length (snd out))%nat
  /\ (length (snd out) <= length metrics)%nat
  /\ Forall (fun a => state a = ACTIVE /\ source a = "health_monitor")
            (snd out).
Proof.
  intros out. subst out. unfold process_metrics.
  destruct (process_metrics_fold now metrics self [])
    as (_ & _ & _ & extra & Hal & Hnew & Hsum & Hall).
  simpl in Hnew. rewrite Hnew, Hal.
  split; [done|]. split; [done|]. split.
  - unfold alert_count. rewrite Hal. apply length_app.
  - split; [|done].
    rewrite <- (length_map alert_summary), Hsum.
    clear. induction metrics as [|m metrics IH]; [done|].
    change (omap (violation self) (m :: metrics))
      with (match violation self m with
            | Some v => v :: omap (violation self) metrics
            | None => omap (violation self) metrics
            end).
    destruct (violation self m); simpl; lia.
Qed.

End WithEnvironment.

(** Witness for [process_metrics_bounded]. *)
Lemma process_metrics_bounded_witness :
  let m := mkMetric "m" "d1" "" None CPU 90 "%" 0 SNMP [] in
  bounded (fst (process_metrics (fun _ => "a") (fun _ => "") (init None) 0
                  [m; m])).
Proof.
  intros m.
  apply (process_metrics_bounded (fun _ => "a") (fun _ => "") (init None)).
  - reflexivity.
  - intros key. unfold history_of. simpl. rewrite lookup_empty. simpl.
    vm_compute. discriminate.
Defined.

(** *** Queries *)

Lemma last_n_positive {A : Type} (m : Z) (l : list A) :
  0 < m -> Py.last_n m l = drop (length l - Z.to_nat m) l.
Proof.
  intros Hm. unfold Py.last_n, Py.slice_from.
  destruct (Z.ltb_spec (- m) 0); [|lia]. f_equal. lia.
Qed.

Lemma last_n_zero {A : Type} (l : list A) : Py.last_n 0 l = l.
Proof.
  unfold Py.last_n, Py.slice_from.
  change (- 0 <? 0) with false. cbv iota zeta.
  assert (Z.to_nat (Z.min (- 0) (Z.of_nat (length l))) = 0%nat) as -> by lia.
  done.
Qed.

(** X10. [get_metric_history] returns, oldest first, the newest [limit]
    samples of the series when [limit] is positive (all of them if there
    are fewer); with [limit = 0] it returns the whole series, not an empty
    list; for a series that was never fed it returns the empty list. *)
Theorem get_metric_history_spec (isoformat : Z -> string)
    (self : HealthMonitor) (device_id : string) (metric_type : MetricType)
    (limit : Z) :
  let history := history_of self (series_key device_id metric_type) in
  let points := get_metric_history isoformat self device_id metric_type
                  limit in
  (0 < limit ->
     map hp_value points
     = map m_value (drop (length history - Z.to_nat limit) history)
     /\ Z.of_nat (length points) = Z.min limit (Z.of_nat (length history)))
  /\ (limit = 0 -> map hp_value points = map m_value history)
  /\ (_metric_history self !! series_key device_id metric_type = None ->
      points = []).
Proof.
  intros history points. subst points. unfold get_metric_history.
  fold history. split; [|split].
  - intros Hl. rewrite last_n_positive by done. split.
    + rewrite map_map. done.
    + rewrite length_map, length_drop. lia.
  - intros ->. rewrite last_n_zero, map_map. done.
  - intros Hnone. subst history. unfold history_of. rewrite Hnone. simpl.
    unfold Py.last_n, Py.slice_from. by rewrite drop_nil.
Qed.

(** Witness for [get_metric_history_spec]. *)
Lemma get_metric_history_spec_witness :
  let m := fun v => mkMetric "m" "d1" "" None CPU v "%" 0 SNMP [] in
  let self := fst (process_metrics (fun _ => "a") (fun _ => "") (init None)
                     0 [m 1%Q; m 2%Q; m 3%Q]) in
  map hp_value (get_metric_history (fun _ => "t") self "d1" CPU 2)
  = [2%Q; 3%Q].
Proof.
  intros m self.
  rewrite (proj1 (proj1 (get_metric_history_spec (fun _ => "t") self "d1"
                           CPU 2) eq_refl)).
  reflexivity.
Defined.


(** *** Trend of a series *)

Lemma qsum_replicate (k : nat) (v : Q) :
  (Anomaly.qsum (replicate k v) == inject_Z (Z.of_nat k) * v)%Q.
Proof.
  induction k as [|k IH].
  - simpl. ring.
  - rewrite replicate_S. simpl Anomaly.qsum.
    change (foldr Qplus 0%Q (replicate k v))
      with (Anomaly.qsum (replicate k v)).
    rewrite IH, Nat2Z.inj_succ. unfold Z.succ. rewrite inject_Z_plus. ring.
Qed.

Lemma mean_replicate (k : nat) (v : Q) :
  (0 < k)%nat -> (Anomaly.mean (replicate k v) == v)%Q.
Proof.
  intros Hk. unfold Anomaly.mean. rewrite qsum_replicate, length_replicate.
  assert (~ (inject_Z (Z.of_nat k) == 0)%Q) as Hnz.
  { unfold Qeq, inject_Z. simpl. lia. }
  field. exact Hnz.
Qed.

(** X11. [_calculate_trend] on a constant series: with fewer than three
    samples the trend is [stable]; with three or more it is [stable] when
    the constant is at least 0 and [increasing] when the constant is
    negative, because the change 0 is compared with 10% of the older mean,
    sign included. It is never [decreasing]. The constant is 0 or more, or
    at most [-1e-300]: closer to zero from below, 10% of it is no longer
    a float below zero. *)
Theorem calculate_trend_constant (v : Q) (n : nat) :
  (0 <= v \/ v <= - (1 # 10 ^ 300))%Q ->
  _calculate_trend (replicate n v)
  = if (n <? 3)%nat then "stable"
    else if Py.lt v 0 then "increasing" else "stable".
Proof.
  intros _. unfold _calculate_trend. rewrite length_replicate.
  destruct (Nat.ltb_spec n 3) as [|Hn]; [done|].
  set (recent := if (5 <=? n)%nat then _ else _).
  set (older := Anomaly.mean _).
  assert (older == v)%Q as Ho.
  { unfold older, PySeq.slice_to. rewrite length_replicate.
    destruct (Z.ltb_spec 5 0); [lia|]. rewrite take_replicate.
    apply mean_replicate. lia. }
  assert (recent == v)%Q as Hr.
  { unfold recent. destruct (Nat.leb_spec 5 n).
    - rewrite last_n_positive by lia.
      rewrite length_replicate, drop_replicate.
      apply mean_replicate. lia.
    - destruct n as [|n]; [lia|]. rewrite replicate_S_end, last_snoc.
      simpl. reflexivity. }
  unfold Py.gt, Py.lt.
  destruct (Qle_bool (recent - older) (older * 0.1)) eqn:E1;
    destruct (Qle_bool 0 v) eqn:E2; simpl.
  - destruct (Qle_bool (- older * 0.1) (recent - older)) eqn:E3; [done|].
    exfalso. apply Qle_bool_iff in E2.
    assert (~ (- older * 0.1 <= recent - older)%Q) as H3.
    { intros H. apply Qle_bool_iff in H. congruence. }
    apply H3. rewrite Hr, Ho. lra.
  - exfalso. apply Qle_bool_iff in E1. rewrite Hr, Ho in E1.
    assert (~ (0 <= v)%Q) as H2.
    { intros H. apply Qle_bool_iff in H. congruence. }
    apply H2. lra.
  - exfalso. apply Qle_bool_iff in E2.
    assert (~ (recent - older <= older * 0.1)%Q) as H1.
    { intros H. apply Qle_bool_iff in H. congruence. }
    apply H1. rewrite Hr, Ho. lra.
  - done.
Qed.

Lemma calculate_trend_constant_witness :
  _calculate_trend (replicate 6 (-5)%Q) = "increasing"
  /\ _calculate_trend (replicate 6 50%Q) = "stable".
Proof.
  split.
  - apply (calculate_trend_constant (-5) 6). right. by vm_compute.
  - apply (calculate_trend_constant 50 6). left. by vm_compute.
Defined.

End HealthQueriesProofs.

(** ** Anomaly engine: what [detect] returns and records *)

Module AnomalyQueriesProofs.
Import Anomaly AnomalyQueries.

Lemma trim_length_le {A : Type} (cap : Z) (l : list A) :
  (length (Py.trim cap l) <= length l)%nat.
Proof.
  unfold Py.trim, Py.last_n, Py.slice_from.
  destruct (_ >? _); [|done]. rewrite length_drop. lia.
Qed.

Lemma history_of_other (self : AnomalyDetector) (key key' : string)
    (l : list Q) :
  key' <> key ->
  history_of (with_history (<[key := l]> (_history self)) self) key'
  = history_of self key'.
Proof. intros Hk. unfold history_of. simpl. by rewrite lookup_insert_ne. Qed.

Section WithEnvironment.
Variable sqrt : Q -> Q.
Variable float_str : Q -> string.
Variable fmt2 : Q -> string.

Lemma z_score_detect_shape (self : AnomalyDetector) (now : Z) (m : Metric)
    (h : list Q) (r : AnomalyResult) :
  _z_score_detect sqrt float_str fmt2 self now m h = Some r ->
  is_anomaly r = true /\ method r = "z_score" /\ r_metric r = m
  /\ r_timestamp r = now
  /\ Py.gt (score r) (z_score_threshold self) = true.
Proof.
  unfold _z_score_detect. cbv zeta.
  destruct (Qeq_bool _ 0); [done|].
  destruct (Py.gt _ _) eqn:Hgt; [|done].
  intros [= <-]. done.
Qed.

Lemma iqr_detect_shape (self : AnomalyDetector) (now : Z) (m : Metric)
    (h : list Q) (r : AnomalyResult) :
  _iqr_detect fmt2 self now m h = Some r ->
  is_anomaly r = true /\ method r = "iqr" /\ r_metric r = m
  /\ r_timestamp r = now.
Proof.
  unfold _iqr_detect. cbv zeta.
  destruct (_ || _); [|done]. intros [= <-]. done.
Qed.

Lemma ewma_detect_shape (self : AnomalyDetector) (now : Z) (m : Metric)
    (key : string) :
  let out := _ewma_detect sqrt fmt2 self now m key in
  (exists e v, fst out = with_ewma e v self)
  /\ (forall r, snd out = Some r ->
        is_anomaly r = true /\ method r = "ewma" /\ r_metric r = m
        /\ r_timestamp r = now
        /\ Py.gt (score r) (z_score_threshold self) = true).
Proof.
  unfold _ewma_detect. cbv zeta.
  destruct (_ewma self !! key) as [prev|];
    [|simpl; split; [by eauto | done]].
  destruct (Qeq_bool _ 0); [simpl; split; [by eauto | done]|].
  destruct (Py.gt (_ / _) _) eqn:Hgt; [|simpl; split; [by eauto | done]].
  simpl. split; [by eauto|]. intros r [= <-]. done.
Qed.

(** The shape of the outcome of [detect]. *)
Lemma detect_shape (self : AnomalyDetector) (now : Z) (m : Metric)
    (methods : option (list string)) :
  let key := series_key (m_device_id m) (m_metric_type m) in
  let out := detect sqrt float_str fmt2 self now m methods in
  Forall (fun r =>
            is_anomaly r = true /\ r_metric r = m /\ r_timestamp r = now
            /\ method r ∈ effective_methods methods
            /\ (method r <> "iqr" ->
                Py.gt (score r) (z_score_threshold self) = true)) (snd out)
  /\ map method (snd out) `sublist_of` default_methods
  /\ _anomalies (fst out) = _anomalies self ++ snd out
  /\ history_of (fst out) key
     = Py.trim (_max_history self) (history_of self key ++ [m_value m])
  /\ (forall key', key' <> key ->
        history_of (fst out) key' = history_of self key')
  /\ _maintenance_windows (fst out) = _maintenance_windows self
  /\ _max_history (fst out) = _max_history self
  /\ min_samples (fst out) = min_samples self.
Proof.
  intros key out. subst out. unfold detect. fold key.
  change (match methods with
          | Some (m0 :: r) => m0 :: r
          | _ => default_methods
          end) with (effective_methods methods).
  set (ms := effective_methods methods).
  set (self1 := with_history _ self).
  assert (history_of self1 key
          = Py.trim (_max_history self) (history_of self key ++ [m_value m]))
    as Hh by apply AnomalyProofs.history_of_with_history.
  assert (forall key', key' <> key ->
            history_of self1 key' = history_of self key') as Ho
    by (intros key' Hk; by apply history_of_other).
  destruct (_in_maintenance self1 now (m_device_id m)).
  { simpl. rewrite app_nil_r. repeat split; try done.
    apply sublist_nil_l. }
  destruct (_ <? _).
  { simpl. rewrite app_nil_r. repeat split; try done.
    apply sublist_nil_l. }
  set (z := _z_score_detect sqrt float_str fmt2 self1 now m
              (history_of self1 key)).
  set (q := _iqr_detect fmt2 self1 now m (history_of self1 key)).
  pose proof (z_score_detect_shape self1 now m (history_of self1 key)) as Hz.
  pose proof (iqr_detect_shape self1 now m (history_of self1 key)) as Hq.
  destruct (ewma_detect_shape self1 now m key) as [(e & v & He) Hr].
  fold z in Hz. fold q in Hq.
  destruct (_ewma_detect sqrt fmt2 self1 now m key) as [s2 r3] eqn:E.
  simpl in He, Hr. subst s2.
  assert (forall b1 b2 b3 : bool,
    let r1 := if b1 then opt_list z else [] in
    let r2 := if b2 then opt_list q else [] in
    let r3' := if b3 then opt_list r3 else [] in
    map method (r1 ++ r2 ++ r3') `sublist_of` default_methods) as Hsub.
  { intros b1 b2 b3.
    assert (forall r, z = Some r -> method r = "z_score") as Hz1
      by (intros r H; by destruct (Hz r H) as (_ & ? & _)).
    assert (forall r, q = Some r -> method r = "iqr") as Hq1
      by (intros r H; by destruct (Hq r H) as (_ & ? & _)).
    assert (forall r, r3 = Some r -> method r = "ewma") as Hr1
      by (intros r H; by destruct (Hr r H) as (_ & ? & _)).
    clearbody z q. clear Hz Hq Hr E.
    destruct b1, b2, b3, z as [rz|], q as [rq|], r3 as [re|]; simpl;
      rewrite ?(Hz1 _ eq_refl), ?(Hq1 _ eq_refl), ?(Hr1 _ eq_refl);
      unfold default_methods;
      repeat first [ apply sublist_nil_l
                   | apply sublist_skip
                   | apply sublist_cons ]. }
  set (P := fun r : AnomalyResult =>
              is_anomaly r = true /\ r_metric r = m /\ r_timestamp r = now
              /\ method r ∈ ms
              /\ (method r <> "iqr" ->
                  Py.gt (score r) (z_score_threshold self) = true)).
  assert ("z_score" ∈ ms -> Forall P (opt_list z)) as Hf1.
  { intros Hin. destruct z as [rz|]; [|constructor].
    destruct (Hz rz eq_refl) as (? & Hm & ? & ? & ?).
    constructor; [|constructor]. unfold P. rewrite Hm. done. }
  assert ("iqr" ∈ ms -> Forall P (opt_list q)) as Hf2.
  { intros Hin. destruct q as [rq|]; [|constructor].
    destruct (Hq rq eq_refl) as (? & Hm & ? & ?).
    constructor; [|constructor]. unfold P. rewrite Hm. done. }
  assert ("ewma" ∈ ms -> Forall P (opt_list r3)) as Hf3.
  { intros Hin. destruct r3 as [re|]; [|constructor].
    destruct (Hr re eq_refl) as (? & Hm & ? & ? & ?).
    constructor; [|constructor]. unfold P. rewrite Hm. done. }
  specialize (Hsub (bool_decide ("z_score" ∈ ms))
                   (bool_decide ("iqr" ∈ ms))
                   (bool_decide ("ewma" ∈ ms))).
  cbv zeta in Hsub.
  clearbody z q. clear Hz Hq Hr E.
  split.
  { destruct (bool_decide ("ewma" ∈ ms)) eqn:Be; simpl;
      repeat (apply Forall_app; split);
      repeat case_bool_decide; try done; auto using Forall_nil. }
  split; [by destruct (bool_decide ("ewma" ∈ ms))|].
  destruct (bool_decide ("ewma" ∈ ms)); simpl; repeat split; done.
Qed.

(** X12. Whatever the state, the clock and the methods asked for, [detect]
    returns only results flagged as anomalies, about the metric it was
    given and stamped with the time of the call; each comes from a method
    that was asked for (the three defaults when none or an empty list is
    given), there is at most one per method, in the order z_score, iqr,
    ewma, and a z_score or ewma result has a score above
    [z_score_threshold]. What is returned is exactly what is appended to
    the log of anomalies. The sample is appended to its own series (then
    trimmed) in every case, and no other series, window or limit
    changes. *)
Theorem detect_results (self : AnomalyDetector) (now : Z) (m : Metric)
    (methods : option (list string)) :
  let key := series_key (m_device_id m) (m_metric_type m) in
  let out := detect sqrt float_str fmt2 self now m methods in
  Forall (fun r =>
            is_anomaly r = true /\ r_metric r = m /\ r_timestamp r = now
            /\ method r ∈ effective_methods methods
            /\ (method r <> "iqr" ->
                Py.gt (score r) (z_score_threshold self) = true)) (snd out)
  /\ map method (snd out) `sublist_of` default_methods
  /\ _anomalies (fst out) = _anomalies self ++ snd out
  /\ history_of (fst out) key
     = Py.trim (_max_history self) (history_of self key ++ [m_value m])
  /\ (forall key', key' <> key ->
        history_of (fst out) key' = history_of self key')
  /\ _maintenance_windows (fst out) = _maintenance_windows self
  /\ _max_history (fst out) = _max_history self
  /\ min_samples (fst out) = min_samples self.
Proof. apply detect_shape. Qed.


(** X13. Warm-up: while the series of the metric, with the new sample, is
    shorter than [min_samples], [detect] returns nothing, logs nothing and
    leaves the EWMA state alone (so the first sample that is evaluated only
    seeds it); the sample is still stored. *)
Theorem detect_warm_up (self : AnomalyDetector) (now : Z) (m : Metric)
    (methods : option (list string)) :
  let key := series_key (m_device_id m) (m_metric_type m) in
  Z.of_nat (length (history_of self key)) + 1 < min_samples self ->
  let out := detect sqrt float_str fmt2 self now m methods in
  snd out = []
  /\ _anomalies (fst out) = _anomalies self
  /\ _ewma (fst out) = _ewma self
  /\ _ewma_var (fst out) = _ewma_var self
  /\ history_of (fst out) key
     = Py.trim (_max_history self) (history_of self key ++ [m_value m]).
Proof.
  intros key Hlen out. subst out. unfold detect. fold key.
  set (self1 := with_history _ self).
  assert (history_of self1 key
          = Py.trim (_max_history self) (history_of self key ++ [m_value m]))
    as Hh by apply AnomalyProofs.history_of_with_history.
  destruct (_in_maintenance self1 now (m_device_id m)); [done|].
  rewrite Hh.
  pose proof (trim_length_le (_max_history self)
                (history_of self key ++ [m_value m])) as Hle.
  rewrite length_app in Hle. simpl in Hle.
  destruct (Z.ltb_spec
              (Z.of_nat (length (Py.trim (_max_history self)
                                   (history_of self key ++ [m_value m]))))
              (min_samples self1)) as [_|Hge]; [done|].
  change (min_samples self1) with (min_samples self) in Hge. lia.
Qed.

Lemma detect_bounded (self : AnomalyDetector) (now : Z) (m : Metric)
    (methods : option (list string)) :
  0 < _max_history self -> bounded self ->
  bounded (fst (detect sqrt float_str fmt2 self now m methods)).
Proof.
  intros Hcap Hb.
  destruct (detect_shape self now m methods)
    as (_ & _ & _ & Hk & Ho & _ & Hc & _).
  intros key'. rewrite Hc.
  destruct (decide (key' = series_key (m_device_id m) (m_metric_type m)))
    as [->|Hne].
  - rewrite Hk, trim_length by done. lia.
  - rewrite Ho by done. apply Hb.
Qed.

Lemma detect_batch_fold (batch : list (Z * Metric)) :
  forall (self : AnomalyDetector) (acc : list AnomalyResult),
  0 < _max_history self -> bounded self ->
  let out := foldl (fun acc nm =>
                      let '(s, all_results) := acc in
                      let '(s', results) :=
                        detect sqrt float_str fmt2 s (fst nm) (snd nm) None in
                      (s', all_results ++ results))
                   (self, acc) batch in
  bounded (fst out)
  /\ _max_history (fst out) = _max_history self
  /\ exists new,
       snd out = acc ++ new
       /\ _anomalies (fst out) = _anomalies self ++ new
       /\ Forall (fun r => is_anomaly r = true
                           /\ (r_timestamp r, r_metric r) ∈ batch) new.
Proof.
  induction batch as [|[now m] batch IH]; intros self acc Hcap Hb.
  - simpl. repeat split; try done. exists [].
    rewrite !app_nil_r. repeat split; done.
  - cbn [foldl fst snd].
    pose proof (detect_bounded self now m None Hcap Hb) as Hb1.
    destruct (detect_shape self now m None)
      as (Hres & _ & Han & _ & _ & _ & Hc & _).
    destruct (detect sqrt float_str fmt2 self now m None) as [s1 res] eqn:E.
    simpl in Hb1, Hres, Han, Hc.
    destruct (IH s1 (acc ++ res)) as (Hb2 & Hc2 & new & Hs & Ha & Hf);
      [lia | done |].
    cbv zeta in Hb2, Hc2, Hs, Ha.
    split; [exact Hb2|]. split; [congruence|].
    exists (res ++ new). rewrite Hs, Ha, Han, !app_assoc.
    split; [done|]. split; [done|].
    apply Forall_app. split.
    + eapply Forall_impl; [exact Hres|].
      intros r (? & -> & -> & _). split; [done|]. left.
    + eapply Forall_impl; [exact Hf|].
      intros r [? ?]. split; [done|]. by right.
Qed.

(** X14. [detect_batch] keeps every series within [max_history] (when the
    cap is positive and was respected before), returns the results of its
    calls of [detect] in order, each flagged as an anomaly and about a
    metric of the batch at the time of its call, and appends exactly the
    returned results to the log of anomalies. *)
Theorem detect_batch_spec (self : AnomalyDetector)
    (batch : list (Z * Metric)) :
  0 < _max_history self -> bounded self ->
  let out := detect_batch sqrt float_str fmt2 self batch in
  bounded (fst out)
  /\ _max_history (fst out) = _max_history self
  /\ _anomalies (fst out) = _anomalies self ++ snd out
  /\ Forall (fun r => is_anomaly r = true
                      /\ (r_timestamp r, r_metric r) ∈ batch) (snd out)
  /\ anomaly_count (fst out)
     = (anomaly_count self + length (snd out))%nat.
Proof.
  intros Hcap Hb out. subst out. unfold detect_batch.
  destruct (detect_batch_fold batch self [] Hcap Hb)
    as (Hb' & Hc & new & Hs & Ha & Hf).
  cbv zeta in Hb', Hc, Hs, Ha. simpl in Hs.
  rewrite Hs. unfold anomaly_count. rewrite Ha, length_app.
  repeat split; done.
Qed.

End WithEnvironment.

Lemma bounded_init : bounded init.
Proof. intros key. unfold history_of. simpl. rewrite lookup_empty. done. Qed.

Lemma detect_warm_up_witness :
  let m := mkMetric "m" "d1" "" None CPU 50 "%" 1000 SNMP [] in
  snd (detect (fun x => x) (fun _ => "") (fun _ => "") init 1000 m None)
  = [].
Proof.
  intros m.
  refine (proj1 (detect_warm_up (fun x => x) (fun _ => "") (fun _ => "")
                   init 1000 m None _)).
  vm_compute. reflexivity.
Defined.

Lemma detect_batch_spec_witness :
  let batch := map (fun v => (1000, mkMetric "m" "d1" "" None CPU v "%" 1000
                                      SNMP []))
                   (replicate 15 50%Q ++ [200%Q]) in
  let out := detect_batch (fun x => x) (fun _ => "") (fun _ => "") init
               batch in
  bounded (fst out) /\ _anomalies (fst out) = snd out.
Proof.
  intros batch out.
  destruct (detect_batch_spec (fun x => x) (fun _ => "") (fun _ => "")
              init batch) as (Hb & _ & Ha & _).
  - vm_compute. reflexivity.
  - exact bounded_init.
  - split; [exact Hb | exact Ha].
Defined.

(** X15. [get_anomalies] returns the newest entries of the selection that
    its filters make from the log: the selection keeps the order of the
    log and holds exactly the logged anomalies of the given device (when
    [device_id] is given and not empty) at or after [since] (when given).
    With a positive [limit] at most [limit] entries are returned; with
    [limit = 0] the slice [-0:] returns the whole selection. *)
Theorem get_anomalies_spec (self : AnomalyDetector)
    (device_id : option string) (since : option Z) (limit : Z) :
  let out := get_anomalies self device_id since limit in
  exists selection,
    selection `sublist_of` _anomalies self
    /\ (forall r, r ∈ selection
                  <-> r ∈ _anomalies self /\ wanted device_id since r)
    /\ out `suffix_of` selection
    /\ (0 < limit ->
        Z.of_nat (length out) = Z.min limit (Z.of_nat (length selection)))
    /\ (limit = 0 -> out = selection).
Proof.
  intros out. subst out. unfold get_anomalies.
  set (l1 := if Py.truthy_str device_id then _ else _).
  set (l2 := match since with Some t => _ | None => _ end).
  exists l2.
  assert (l1 `sublist_of` _anomalies self
          /\ forall r, r ∈ l1
               <-> r ∈ _anomalies self
                   /\ (forall d, device_id = Some d -> d <> "" ->
                         m_device_id (r_metric r) = d)) as [Hs1 H1].
  { subst l1. unfold Py.truthy_str.
    destruct device_id as [d|]; [destruct (decide (d = "")) as [->|Hd]|].
    - split; [done|]. intros r. split; [|tauto].
      intros Hr. split; [done|]. intros d [= <-]. done.
    - split; [apply sublist_filter|]. intros r.
      rewrite list_elem_of_filter. split.
      + intros [[= Heq] Hr]. split; [done|]. by intros d' [= <-].
      + intros [Hr Hw]. split; [|done]. f_equal. by apply Hw.
    - split; [done|]. intros r. split; [|tauto].
      intros Hr. split; [done|]. done. }
  assert (l2 `sublist_of` l1
          /\ forall r, r ∈ l2
               <-> r ∈ l1 /\ (forall t, since = Some t -> t <= r_timestamp r))
    as [Hs2 H2].
  { subst l2. destruct since as [t|].
    - split; [apply sublist_filter|]. intros r.
      rewrite list_elem_of_filter. split.
      + intros [Ht Hr]. split; [done|]. by intros t' [= <-].
      + intros [Hr Hw]. split; [|done]. by apply Hw.
    - split; [done|]. intros r. split; [|tauto].
      intros Hr. split; [done|]. done. }
  split; [by etrans|]. split.
  { intros r. rewrite H2, H1. unfold wanted. tauto. }
  split; [apply last_n_suffix|]. split.
  - intros Hl. rewrite last_n_length by done. done.
  - intros ->. apply HealthQueriesProofs.last_n_zero.
Qed.

End AnomalyQueriesProofs.

(** ** Anomaly engine: how the correlation groups partition the log *)

Module CorrelationQueriesProofs.
Import Anomaly AnomalyQueries CorrelationProofs.

(** Each member that the inner loop appends marks one index that was not
    marked before. *)
Lemma inner_fold_count (w : Z) (a : AnomalyResult)
    (l : list (nat * AnomalyResult)) :
  forall (group : list AnomalyResult) (used : gset nat),
  let out := foldl (inner_step w a) (group, used) l in
  (length (fst out) + base.size used = length group + base.size (snd out))%nat
  /\ used ⊆ snd out
  /\ (forall j, j ∈ snd out -> j ∈ used \/ exists b, (j, b) ∈ l).
Proof.
  induction l as [|[j b] l IH]; intros group used out; subst out;
    cbn [foldl].
  - simpl. split; [done|]. split; [done|]. by left.
  - assert (forall g u,
      (length (fst (foldl (inner_step w a) (g, u) l)) + base.size u
       = length g + base.size (snd (foldl (inner_step w a) (g, u) l)))%nat
      /\ u ⊆ snd (foldl (inner_step w a) (g, u) l)
      /\ (forall j', j' ∈ snd (foldl (inner_step w a) (g, u) l) ->
            j' ∈ u \/ exists b', (j', b') ∈ l)) as IH' by exact IH.
    rewrite inner_step_eq.
    case_bool_decide as Hj.
    + destruct (IH' group used) as (Hc & Hs & Hi).
      split; [done|]. split; [done|].
      intros j' Hj'. destruct (Hi j' Hj') as [?|[b' ?]]; [by left|].
      right. exists b'. by right.
    + destruct (within_window w a b).
      * destruct (IH' (group ++ [b]) (used ∪ {[ j ]})) as (Hc & Hs & Hi).
        rewrite length_app, size_union, size_singleton in Hc
          by set_solver.
        simpl in Hc.
        split; [lia|]. split; [set_solver|].
        intros j' Hj'. destruct (Hi j' Hj') as [Hu|[b' ?]].
        -- apply elem_of_union in Hu as [?|Hu]; [by left|].
           apply elem_of_singleton in Hu as ->.
           right. exists b. by left.
        -- right. exists b'. by right.
      * destruct (IH' group used) as (Hc & Hs & Hi).
        split; [done|]. split; [done|].
        intros j' Hj'. destruct (Hi j' Hj') as [?|[b' ?]]; [by left|].
        right. exists b'. by right.
Qed.

Lemma outer_fold_count (w : Z) (anomalies : list AnomalyResult)
    (l : list (nat * AnomalyResult)) :
  (forall i a, (i, a) ∈ l -> (i < length anomalies)%nat) ->
  forall (groups : list (list AnomalyResult)) (used : gset nat),
  (sum_list (map length groups) <= base.size used)%nat ->
  (forall j, j ∈ used -> (j < length anomalies)%nat) ->
  let out := foldl (outer_step w anomalies) (groups, used) l in
  (sum_list (map length (fst out)) <= base.size (snd out))%nat
  /\ (forall j, j ∈ snd out -> (j < length anomalies)%nat).
Proof.
  induction l as [|[i a] l IH]; intros Hl groups used Hsum Hbound out;
    subst out; cbn [foldl].
  - done.
  - assert (forall i' a', (i', a') ∈ l -> (i' < length anomalies)%nat)
      as Hl' by (intros i' a' H; apply (Hl i' a'); by right).
    assert (i < length anomalies)%nat as Hi by (apply (Hl i a); by left).
    rewrite outer_step_eq.
    case_bool_decide as Hu; [by apply IH|].
    destruct (inner_fold_count w a
                (enumerate (i + 1) (drop (i + 1) anomalies))
                [a] (used ∪ {[ i ]})) as (Hc & Hs & Hin).
    destruct (foldl (inner_step w a) _ _) as [group used'] eqn:Hfold.
    simpl in Hc, Hs, Hin.
    rewrite size_union, size_singleton in Hc by set_solver.
    apply IH; [done| |].
    + destruct (1 <? length group)%nat; [|lia].
      rewrite map_app, sum_list_with_app. simpl. lia.
    + intros j Hj. destruct (Hin j Hj) as [Hju|[b Hb]].
      * apply elem_of_union in Hju as [?|Hju]; [by apply Hbound|].
        by apply elem_of_singleton in Hju as ->.
      * apply enumerate_fst in Hb. rewrite length_drop in Hb. lia.
Qed.

Lemma size_below (n : nat) (X : gset nat) :
  (forall j, j ∈ X -> (j < n)%nat) -> (base.size X <= n)%nat.
Proof.
  intros HX.
  assert (X ⊆ list_to_set (seq 0 n)) as Hsub.
  { intros j Hj. apply elem_of_list_to_set, elem_of_seq.
    specialize (HX j Hj). lia. }
  apply subseteq_size in Hsub.
  rewrite size_list_to_set, length_seq in Hsub by apply NoDup_seq.
  done.
Qed.

Lemma correlation_groups_count (w : Z) (anomalies : list AnomalyResult) :
  (sum_list (map length (correlation_groups w anomalies))
   <= length anomalies)%nat.
Proof.
  unfold correlation_groups.
  destruct (outer_fold_count w anomalies (enumerate 0 anomalies))
    with (groups := @nil (list AnomalyResult)) (used := (∅ : gset nat))
    as [Hsum Hb].
  - intros i a Hin. apply enumerate_fst in Hin. lia.
  - simpl. lia.
  - set_solver.
  - cbv zeta in Hsum, Hb. etrans; [exact Hsum|]. by apply size_below.
Qed.

Lemma sum_list_lower (k : nat) (l : list nat) :
  Forall (fun x => (k <= x)%nat) l -> (k * length l <= sum_list l)%nat.
Proof. induction 1; simpl; lia. Qed.

(** X16. The groups reported by [correlate_anomalies] do not share log
    entries: their sizes add up to at most the number of logged
    anomalies, so there are at most half as many groups as anomalies. A
    negative window yields no group at all. *)
Theorem correlate_anomalies_disjoint (self : AnomalyDetector) (w : Z) :
  (sum_list (map size (correlate_anomalies self w))
   <= anomaly_count self)%nat
  /\ (2 * length (correlate_anomalies self w) <= anomaly_count self)%nat
  /\ (w < 0 -> correlate_anomalies self w = []).
Proof.
  assert (correlate_anomalies self w
          = map summarize (correlation_groups w (_anomalies self))) as ->.
  { unfold correlate_anomalies. destruct (_anomalies self); done. }
  pose proof (correlation_groups_count w (_anomalies self)) as Hsum.
  pose proof (correlation_groups_kept w (_anomalies self)) as Hkept.
  assert (map size (map summarize (correlation_groups w (_anomalies self)))
          = map length (correlation_groups w (_anomalies self))) as Hsz.
  { rewrite map_map. apply map_ext. done. }
  unfold anomaly_count. rewrite Hsz, length_map. split; [done|]. split.
  - etrans; [|exact Hsum].
    rewrite <- (length_map length).
    apply sum_list_lower.
    apply Forall_fmap. eapply Forall_impl; [exact Hkept|].
    intros g (Hlen & _). simpl. lia.
  - intros Hw. destruct (correlation_groups w (_anomalies self))
      as [|g gs]; [done|].
    apply Forall_cons in Hkept as [(_ & (a & rest & -> & Hwin) & _) _].
    apply Forall_cons in Hwin as [Ha _].
    apply within_window_spec in Ha. lia.
Qed.

(** When every later member lies within the window of the anchor and no
    index of the scanned part is marked, the inner loop takes them all. *)
Lemma inner_fold_all (w : Z) (a : AnomalyResult) (l : list AnomalyResult) :
  forall (start : nat) (group : list AnomalyResult) (used : gset nat),
  (forall j, j ∈ used -> (j < start)%nat) ->
  Forall (fun b => within_window w a b = true) l ->
  foldl (inner_step w a) (group, used) (enumerate start l)
  = (group ++ l, used ∪ list_to_set (seq start (length l))).
Proof.
  induction l as [|b l IH]; intros start group used Hu Hall.
  - simpl. rewrite app_nil_r. f_equal. set_solver.
  - apply Forall_cons in Hall as [Hb Hall].
    rewrite enumerate_cons. cbn [foldl]. rewrite inner_step_eq.
    case_bool_decide as Hj; [apply Hu in Hj; lia|].
    rewrite Hb, IH; [| |done].
    + rewrite <- app_assoc. simpl. f_equal. set_solver.
    + intros j [Hj'|Hj']%elem_of_union.
      * apply Hu in Hj'. lia.
      * apply elem_of_singleton in Hj'. lia.
Qed.

Lemma outer_fold_skip (w : Z) (anomalies : list AnomalyResult)
    (l : list (nat * AnomalyResult)) :
  forall (groups : list (list AnomalyResult)) (used : gset nat),
  (forall i a, (i, a) ∈ l -> i ∈ used) ->
  foldl (outer_step w anomalies) (groups, used) l = (groups, used).
Proof.
  induction l as [|[i a] l IH]; intros groups used Hl; [done|].
  cbn [foldl]. rewrite outer_step_eq.
  rewrite bool_decide_eq_true_2 by (apply (Hl i a); by left).
  apply IH. intros i' a' H. apply (Hl i' a'). by right.
Qed.

(** X17. A burst: when the log starts with an anomaly and every later one
    lies within the window of that first one, [correlate_anomalies]
    reports a single group that holds the whole log. *)
Theorem correlate_anomalies_burst (self : AnomalyDetector) (w : Z)
    (a : AnomalyResult) (rest : list AnomalyResult) :
  _anomalies self = a :: rest -> rest <> [] ->
  Forall (fun b => within_window w a b = true) rest ->
  correlate_anomalies self w = [summarize (a :: rest)]
  /\ size (summarize (a :: rest)) = anomaly_count self.
Proof.
  intros Hlog Hne Hall. unfold correlate_anomalies, anomaly_count.
  rewrite Hlog. split; [|done].
  unfold correlation_groups. rewrite enumerate_cons. cbn [foldl].
  rewrite outer_step_eq.
  rewrite bool_decide_eq_false_2 by set_solver.
  change (drop (0 + 1) (a :: rest)) with rest.
  change (0 + 1)%nat with 1%nat.
  rewrite inner_fold_all; [| |done].
  - rewrite outer_fold_skip.
    + destruct rest; done.
    + intros i b Hin. apply enumerate_fst in Hin.
      apply elem_of_union. right.
      apply elem_of_list_to_set, elem_of_seq. lia.
  - intros j Hj. assert (j = 0%nat) as -> by set_solver. lia.
Qed.

Lemma correlate_anomalies_burst_witness :
  let mk := fun (dev : string) (t : Z) =>
              mkAnomalyResult true 4 "z_score"
                (mkMetric "m" dev "" None CPU 99 "%" t SNMP []) "" t in
  length (correlate_anomalies
            (with_anomalies [mk "a" 0; mk "b" 100000000; mk "c" 300000000]
               init) 300) = 1%nat.
Proof.
  intros mk.
  destruct (correlate_anomalies_burst
              (with_anomalies [mk "a" 0; mk "b" 100000000; mk "c" 300000000]
                 init) 300 (mk "a" 0) [mk "b" 100000000; mk "c" 300000000])
    as [-> _].
  - reflexivity.
  - discriminate.
  - repeat constructor.
  - reflexivity.
Defined.

End CorrelationQueriesProofs.

(** ** Anomaly engine: a flat signal under the z-score and IQR detectors *)

Module FlatSeriesProofs.
Import Anomaly AnomalyQueries.

Lemma trim_replicate (cap : Z) (n : nat) (c : Q) :
  0 < cap ->
  exists k, (0 < k)%nat
            /\ Py.trim cap (replicate n c ++ [c]) = replicate k c.
Proof.
  intros Hcap. rewrite <- replicate_S_end.
  exists (length (Py.trim cap (replicate (S n) c))). split.
  - pose proof (trim_length cap (replicate (S n) c) Hcap) as Hl.
    rewrite length_replicate in Hl. lia.
  - unfold Py.trim, Py.last_n, Py.slice_from.
    destruct (_ >? _).
    + by rewrite drop_replicate, !length_replicate.
    + by rewrite length_replicate.
Qed.

Lemma sorted_replicate (k : nat) (c : Q) :
  sorted (replicate k c) = replicate k c.
Proof.
  induction k as [|k IH]; [done|].
  change (sorted (replicate (S k) c))
    with (insert_sorted c (sorted (replicate k c))).
  rewrite IH. destruct k as [|k]; [done|]. simpl.
  assert (Qle_bool c c = true) as -> by (apply Qle_bool_iff, Qle_refl).
  done.
Qed.

Lemma nth_replicate_lt (k i : nat) (c d : Q) :
  (i < k)%nat -> nth i (replicate k c) d = c.
Proof.
  revert i. induction k as [|k IH]; intros i Hi; [lia|].
  destruct i as [|i]; [done|]. simpl. apply IH. lia.
Qed.

Section WithEnvironment.
Variable sqrt : Q -> Q.
Variable float_str : Q -> string.
Variable fmt2 : Q -> string.

(** [math.sqrt(0.0)] is [0.0]. *)
Hypothesis sqrt_zero : forall x : Q, (x == 0)%Q -> (sqrt x == 0)%Q.

Lemma z_score_flat (self : AnomalyDetector) (now : Z) (m : Metric)
    (k : nat) (c : Q) :
  _z_score_detect sqrt float_str fmt2 self now m (replicate k c) = None.
Proof.
  unfold _z_score_detect. cbv zeta. rewrite length_replicate.
  destruct (Nat.ltb_spec 1 k) as [Hk|Hk]; [|done].
  assert (Qeq_bool (stdev sqrt (replicate k c)) 0 = true) as ->; [|done].
  apply Qeq_bool_iff, sqrt_zero. unfold stdev. cbv zeta.
  change (map ?f (replicate k c)) with (f <$> replicate k c).
  rewrite fmap_replicate, HealthQueriesProofs.qsum_replicate,
    length_replicate.
  rewrite (HealthQueriesProofs.mean_replicate k c) by lia.
  unfold Qdiv. ring.
Qed.

Lemma iqr_flat (self : AnomalyDetector) (now : Z) (m : Metric)
    (k : nat) (c : Q) :
  (0 < k)%nat -> m_value m = c ->
  _iqr_detect fmt2 self now m (replicate k c) = None.
Proof.
  intros Hk Hv. unfold _iqr_detect. cbv zeta.
  rewrite sorted_replicate, length_replicate, Hv.
  rewrite !nth_replicate_lt.
  - assert (Py.lt c (c - iqr_multiplier self * (c - c)) = false) as ->.
    { unfold Py.lt. apply negb_false_iff, Qle_bool_iff.
      apply Qle_lteq. right. ring. }
    assert (Py.gt c (c + iqr_multiplier self * (c - c)) = false) as ->.
    { unfold Py.gt. apply negb_false_iff, Qle_bool_iff.
      apply Qle_lteq. right. ring. }
    done.
  - apply Nat.Div0.div_lt_upper_bound. lia.
  - apply Nat.Div0.div_lt_upper_bound. lia.
Qed.

(** X18. A flat signal raises no z-score and no IQR anomaly: when the
    stored samples of a series all equal [c] and one more sample [c]
    arrives, [detect] restricted to methods other than [ewma] returns
    nothing and logs nothing, whatever the thresholds, the windows and
    the warm-up; the series stays flat and the EWMA state is not touched.
    The mean and the standard deviation of equal samples are the sample
    and 0, and the quartiles are the sample. Only [sqrt(0) = 0] is
    assumed of the square root. *)
Theorem detect_flat_series (self : AnomalyDetector) (now : Z) (m : Metric)
    (methods : list string) (c : Q) (n : nat) :
  let key := series_key (m_device_id m) (m_metric_type m) in
  0 < _max_history self ->
  history_of self key = replicate n c -> m_value m = c ->
  methods <> [] -> "ewma" ∉ methods ->
  let out := detect sqrt float_str fmt2 self now m (Some methods) in
  snd out = []
  /\ (exists k, (0 < k)%nat /\ history_of (fst out) key = replicate k c)
  /\ _anomalies (fst out) = _anomalies self
  /\ _ewma (fst out) = _ewma self
  /\ _ewma_var (fst out) = _ewma_var self.
Proof.
  intros key Hcap Hh Hv Hne Hnew out. subst out. unfold detect. fold key.
  destruct methods as [|m0 ms]; [done|].
  rewrite Hh, Hv.
  destruct (trim_replicate (_max_history self) n c Hcap) as (k & Hk & ->).
  set (self1 := with_history _ self).
  assert (history_of self1 key = replicate k c) as Hh1
    by apply AnomalyProofs.history_of_with_history.
  destruct (_in_maintenance self1 now (m_device_id m)).
  { simpl. repeat split; try done. by exists k. }
  destruct (_ <? _).
  { simpl. repeat split; try done. by exists k. }
  rewrite Hh1, z_score_flat, (iqr_flat self1 now m k c Hk Hv).
  rewrite (bool_decide_eq_false_2 ("ewma" ∈ m0 :: ms)) by done.
  assert (forall (b : bool) (l : list AnomalyResult),
            (if b then [] else []) ++ l = l) as Hif by (by intros [] l).
  simpl. rewrite !Hif, ?app_nil_r. simpl.
  repeat split; try done. by exists k.
Qed.

End WithEnvironment.

Lemma detect_flat_series_witness :
  let m := mkMetric "m" "d1" "" None CPU 50 "%" 1000 SNMP [] in
  let self :=
    with_history {[ series_key "d1" CPU := replicate 12 50%Q ]} init in
  snd (detect (fun x => x) (fun _ => "") (fun _ => "") self 1000 m
         (Some ["z_score"; "iqr"])) = [].
Proof.
  intros m self.
  refine (proj1 (detect_flat_series (fun x => x) (fun _ => "")
                   (fun _ => "") _ self 1000 m ["z_score"; "iqr"] 50 12
                   _ _ _ _ _)).
  - intros x Hx. exact Hx.
  - vm_compute. reflexivity.
  - unfold history_of, self. simpl. by rewrite lookup_singleton_eq.
  - reflexivity.
  - discriminate.
  - intros Hin. apply elem_of_cons in Hin as [?|Hin]; [done|].
    apply elem_of_cons in Hin as [?|Hin]; [done|].
    by apply elem_of_nil in Hin.
Defined.

End FlatSeriesProofs.

(** ** Configuration store: invariants, counters and history *)

Module ConfigQueriesProofs.
Import Config ConfigQueries.

Lemma total_insert (m : gmap string (list ConfigSnapshot)) (d : string)
    (l : list ConfigSnapshot) :
  (total_snapshots (mkConfigManager (<[d := l]> m) ∅)
   + length (default [] (m !! d))
   = length l + total_snapshots (mkConfigManager m ∅))%nat.
Proof.
  unfold total_snapshots. simpl.
  assert (forall (m' : gmap string (list ConfigSnapshot)) l',
            m' !! d = None ->
            map_fold (fun _ v acc => (length v + acc)%nat) 0%nat
                     (<[d := l']> m')
            = (length l'
               + map_fold (fun _ v acc => (length v + acc)%nat) 0%nat m')%nat)
    as Hins.
  { intros m' l' Hn. rewrite map_fold_insert_L; [done| |done].
    intros. lia. }
  destruct (m !! d) as [l0|] eqn:E; simpl.
  - rewrite <- (insert_delete_eq m d l).
    rewrite <- (insert_delete_id m d l0 E) at 2.
    rewrite !Hins by apply lookup_delete_eq. lia.
  - rewrite Hins by done. lia.
Qed.

Section WithEnvironment.
Variable sha256_hexdigest : string -> string.

(** The two outcomes of [backup_config]. *)
Lemma backup_config_cases (self : ConfigManager) (fresh_id : string)
    (now : Z) (d text source hostname : string) :
  let out := backup_config sha256_hexdigest self fresh_id now d text source
               hostname in
  (snd out = self /\ get_latest self d = Some (fst out)
   /\ config_hash (fst out) = sha256_hexdigest text)
  \/ (fst out = mkConfigSnapshot fresh_id d (Py.str_or hostname d) text
                  (sha256_hexdigest text) now source []
      /\ snd out = mkConfigManager
                     (<[d := snapshots_of self d ++ [fst out]]>
                        (_snapshots self))
                     (_golden_configs self)
      /\ (forall latest, get_latest self d = Some latest ->
            config_hash latest <> sha256_hexdigest text)).
Proof.
  unfold backup_config, get_latest. cbv zeta.
  destruct (last (snapshots_of self d)) as [latest|] eqn:El.
  - case_decide as Hh; simpl.
    + left. done.
    + right. split; [done|]. split; [done|]. by intros ? [= <-].
  - simpl. right. done.
Qed.

Lemma backup_config_store_wf (self : ConfigManager) (fresh_id : string)
    (now : Z) (d text source hostname : string) :
  store_wf sha256_hexdigest self ->
  store_wf sha256_hexdigest
    (snd (backup_config sha256_hexdigest self fresh_id now d text source
            hostname)).
Proof.
  intros Hwf.
  destruct (backup_config_cases self fresh_id now d text source hostname)
    as [(-> & _)|(Hs & -> & Hne)]; [done|].
  set (snap := fst _) in *.
  intros d' l. simpl.
  destruct (decide (d' = d)) as [->|Hd];
    [|rewrite lookup_insert_ne by done; apply Hwf].
  rewrite lookup_insert_eq. intros [= <-].
  assert (snapshots_of self d = []
          \/ _snapshots self !! d = Some (snapshots_of self d)) as Hex.
  { unfold snapshots_of. destruct (_snapshots self !! d); [by right|by left]. }
  split; [by destruct (snapshots_of self d)|]. split.
  - apply Forall_app. split.
    + destruct Hex as [->|Hex]; [constructor|].
      by destruct (Hwf d _ Hex) as (_ & ? & _).
    + constructor; [|constructor]. by rewrite Hs.
  - intros i s1 s2 H1 H2.
    pose proof (lookup_lt_Some _ _ _ H2) as Hlt.
    rewrite length_app in Hlt. simpl in Hlt.
    destruct (decide (S i < length (snapshots_of self d))%nat) as [Hi|Hi].
    + rewrite lookup_app_l in H1 by lia. rewrite lookup_app_l in H2 by lia.
      destruct Hex as [He|Hex]; [rewrite He in Hi; simpl in Hi; lia|].
      destruct (Hwf d _ Hex) as (_ & _ & Hc). by eapply Hc.
    + rewrite lookup_app_l in H1 by lia. rewrite lookup_app_r in H2 by lia.
      replace (S i - length (snapshots_of self d))%nat with 0%nat in H2
        by lia.
      simpl in H2. injection H2 as <-.
      assert (get_latest self d = Some s1) as Hl.
      { unfold get_latest. rewrite last_lookup.
        replace (pred (length (snapshots_of self d))) with i by lia. done. }
      rewrite Hs. simpl. by apply Hne.
Qed.

Lemma device_count_le_total (m : gmap string (list ConfigSnapshot)) :
  (forall d l, m !! d = Some l -> l <> []) ->
  (base.size m
   <= map_fold (fun _ v acc => (length v + acc)%nat) 0%nat m)%nat.
Proof.
  apply (map_fold_weak_ind
           (fun r (m : gmap string (list ConfigSnapshot)) =>
              (forall d l, m !! d = Some l -> l <> []) ->
              (base.size m <= r)%nat)).
  - intros _. by rewrite map_size_empty.
  - intros i x m' r Hn IH Hne.
    rewrite map_size_insert_None by done.
    assert (x <> []) as Hx by (apply (Hne i); by rewrite lookup_insert_eq).
    assert (base.size m' <= r)%nat as Hle.
    { apply IH. intros d l Hl. apply (Hne d).
      rewrite lookup_insert_ne; [done|]. intros ->. congruence. }
    destruct x; [done|]. simpl. lia.
Qed.

Lemma backup_calls_keep_wf (self : ConfigManager)
    (calls : list BackupCall) :
  store_wf sha256_hexdigest self ->
  store_wf sha256_hexdigest (backup_calls sha256_hexdigest self calls).
Proof.
  unfold backup_calls. revert self.
  induction calls as [|c calls IH]; intros self Hwf; [done|].
  simpl. apply IH. by apply backup_config_store_wf.
Qed.

(** X19. Any sequence of backups keeps the store well formed: no device
    is filed with an empty history, every snapshot is filed under its own
    device id and carries the hash of its own text, and two consecutive
    snapshots of a device never carry the same hash. A well-formed store
    counts at most as many devices as snapshots. *)
Theorem backup_calls_store_wf (self : ConfigManager)
    (calls : list BackupCall) :
  store_wf sha256_hexdigest self ->
  let self' := backup_calls sha256_hexdigest self calls in
  store_wf sha256_hexdigest self'
  /\ (device_count self' <= total_snapshots self')%nat.
Proof.
  intros Hwf self'.
  assert (store_wf sha256_hexdigest self') as Hwf'
    by (by apply backup_calls_keep_wf).
  split; [done|]. apply device_count_le_total.
  intros d l Hl. by destruct (Hwf' d l Hl).
Qed.

Lemma total_snapshots_golden (m : gmap string (list ConfigSnapshot))
    (g : gmap string string) :
  total_snapshots (mkConfigManager m g)
  = total_snapshots (mkConfigManager m ∅).
Proof. done. Qed.

Lemma backup_config_counts (self : ConfigManager) (fresh_id : string)
    (now : Z) (d text source hostname : string) :
  let out := backup_config sha256_hexdigest self fresh_id now d text source
               hostname in
  (forall d', snapshots_of self d' `prefix_of` snapshots_of (snd out) d')
  /\ (total_snapshots self <= total_snapshots (snd out)
      <= total_snapshots self + 1)%nat
  /\ (device_count self <= device_count (snd out)
      <= device_count self + 1)%nat
  /\ (snd out <> self ->
      total_snapshots (snd out) = S (total_snapshots self)
      /\ snapshots_of (snd out) d = snapshots_of self d ++ [fst out]).
Proof.
  intros out. subst out.
  destruct (backup_config_cases self fresh_id now d text source hostname)
    as [(-> & _)|(Hs & Hm & Hne)].
  { split; [done|]. split; [lia|]. split; [lia|]. done. }
  set (out := backup_config _ _ _ _ _ _ _ _) in *.
  assert (snapshots_of (snd out) d = snapshots_of self d ++ [fst out])
    as Hd.
  { rewrite Hm. unfold snapshots_of at 1. simpl.
    by rewrite lookup_insert_eq. }
  assert (total_snapshots (snd out) = S (total_snapshots self)) as Ht.
  { rewrite Hm, total_snapshots_golden.
    pose proof (total_insert (_snapshots self) d
                  (snapshots_of self d ++ [fst out])) as Hti.
    rewrite length_app in Hti. simpl in Hti.
    change (default [] (_snapshots self !! d)) with (snapshots_of self d)
      in Hti.
    destruct self as [m g]. simpl in *.
    rewrite (total_snapshots_golden m g). lia. }
  split; [|split; [|split]].
  - intros d'. destruct (decide (d' = d)) as [->|Hd'].
    + rewrite Hd. by apply prefix_app_r.
    + rewrite Hm. unfold snapshots_of. simpl.
      by rewrite lookup_insert_ne.
  - lia.
  - rewrite Hm. unfold device_count. simpl. rewrite map_size_insert.
    destruct (_snapshots self !! d); unfold Datatypes.id; lia.
  - done.
Qed.

(** X20. The store is append-only: across any sequence of backups the
    history of every device is extended at its end only (what was stored
    stays in place), [total_snapshots] and [device_count] never decrease
    and grow by at most one per call. *)
Theorem backup_calls_append_only (self : ConfigManager)
    (calls : list BackupCall) :
  let self' := backup_calls sha256_hexdigest self calls in
  (forall d, snapshots_of self d `prefix_of` snapshots_of self' d)
  /\ (total_snapshots self <= total_snapshots self'
      <= total_snapshots self + length calls)%nat
  /\ (device_count self <= device_count self'
      <= device_count self + length calls)%nat.
Proof.
  unfold backup_calls. revert self.
  induction calls as [|c calls IH]; intros self.
  - simpl. split; [done|]. lia.
  - cbn [foldl length].
    destruct (backup_config_counts self (call_fresh_id c) (call_now c)
                (call_device_id c) (call_text c) (call_source c)
                (call_hostname c)) as (Hp & Ht & Hc & _).
    set (self1 := snd (backup_config _ _ _ _ _ _ _ _)) in *.
    destruct (IH self1) as (Hp' & Ht' & Hc').
    cbv zeta in Hp', Ht', Hc'.
    split; [|lia].
    intros d. etrans; [apply Hp | apply Hp'].
Qed.

(** X21. Reading back: right after [backup_config], [get_latest] yields
    the returned snapshot, [get_history] with a positive limit ends with
    it and with limit 1 is exactly that snapshot; [get_history] of a
    device that was never backed up is empty, and a positive limit
    returns the newest [min(limit, n)] snapshots, oldest first. *)
Theorem backup_then_get_history (self : ConfigManager) (fresh_id : string)
    (now : Z) (d text source hostname : string) (limit : Z) :
  0 < limit ->
  let out := backup_config sha256_hexdigest self fresh_id now d text source
               hostname in
  get_latest (snd out) d = Some (fst out)
  /\ last (get_history (snd out) d limit) = Some (fst out)
  /\ get_history (snd out) d 1 = [fst out]
  /\ get_history (snd out) d limit `suffix_of` snapshots_of (snd out) d
  /\ Z.of_nat (length (get_history (snd out) d limit))
     = Z.min limit (Z.of_nat (length (snapshots_of (snd out) d)))
  /\ (forall other, _snapshots (snd out) !! other = None ->
        get_history (snd out) other limit = []).
Proof.
  intros Hl out.
  destruct (ConfigProofs.backup_config_latest sha256_hexdigest self fresh_id
              now d text source hostname) as [Hlatest _].
  fold out in Hlatest. unfold get_latest in Hlatest.
  assert (exists l, snapshots_of (snd out) d = l ++ [fst out])
    as [l Hsn].
  { destruct (snapshots_of (snd out) d) as [|x l'] using rev_ind;
      [done|].
    rewrite last_snoc in Hlatest. injection Hlatest as ->. by exists l'. }
  unfold get_history. rewrite Hsn.
  split; [exact Hlatest|]. split; [by apply last_n_last|].
  split.
  { unfold Py.last_n, Py.slice_from. simpl.
    rewrite length_app. simpl.
    replace (Z.to_nat _) with (length l) by lia.
    by rewrite drop_app_length. }
  split; [apply last_n_suffix|]. split; [by apply last_n_length|].
  intros other Hn. unfold snapshots_of. rewrite Hn. simpl.
  unfold Py.last_n, Py.slice_from. by rewrite drop_nil.
Qed.

End WithEnvironment.

Lemma store_wf_init (H : string -> string) : store_wf H init.
Proof. intros d l Hl. simpl in Hl. by rewrite lookup_empty in Hl. Qed.

Lemma backup_calls_store_wf_witness :
  store_wf SHA256.hexdigest
    (backup_calls SHA256.hexdigest init
       [mkBackupCall "s1" 1 "r1" "hostname r1" "manual" "";
        mkBackupCall "s2" 2 "r1" "hostname r1" "manual" "";
        mkBackupCall "s3" 3 "r1" "hostname r1-new" "manual" ""]).
Proof.
  exact (proj1 (backup_calls_store_wf SHA256.hexdigest init _
                  (store_wf_init _))).
Defined.

Lemma find_by_id_none (i : string) (l : list ConfigSnapshot) :
  (forall s, s ∈ l -> s_id s <> i) -> find_by_id i l = None.
Proof.
  intros Hl. unfold find_by_id.
  destruct (find _ l) as [s|] eqn:E; [|done].
  apply find_some in E as [Hin Hs].
  apply bool_decide_eq_true in Hs.
  apply list_elem_of_In in Hin. by apply Hl in Hin.
Qed.

Lemma last_two {A : Type} (l : list A) :
  (2 <= length l)%nat ->
  exists l0 b a, l = l0 ++ [b; a]
                 /\ l !! (length l - 2)%nat = Some b /\ last l = Some a.
Proof.
  intros Hlen.
  destruct l as [|a l1] using rev_ind; [simpl in Hlen; lia|].
  destruct l1 as [|b l0] using rev_ind;
    [simpl in Hlen; lia|].
  exists l0, b, a. rewrite <- app_assoc. split; [done|]. split.
  - rewrite length_app. simpl.
    replace (length l0 + 2 - 2)%nat with (length l0 + 0)%nat by lia.
    by rewrite lookup_app_r, Nat.add_0_r, Nat.sub_diag by lia.
  - by rewrite app_assoc, last_snoc.
Qed.

Section Diff.
Variable sha256_hexdigest : string -> string.
Variable unified_diff : string -> string -> string -> string -> list string.
Variable isoformat : Z -> string.

(** X22. In a well-formed store, [diff] without identifiers answers
    exactly when the device has at least two snapshots; it then compares
    the last two, whose texts differ, names their identifiers and reports
    [lines_changed] as the smaller of the two counters. An identifier
    that no snapshot of this device carries makes [diff] return
    [None], whatever the other identifier. *)
Theorem diff_spec (self : ConfigManager) (now : Z) (d : string) :
  store_wf sha256_hexdigest self ->
  match diff unified_diff isoformat self now d None None with
  | None => (length (snapshots_of self d) < 2)%nat
  | Some r =>
      exists l b a,
        snapshots_of self d = l ++ [b; a]
        /\ d_device_id r = d
        /\ before_snapshot_id r = s_id b
        /\ after_snapshot_id r = s_id a
        /\ config_text b <> config_text a
        /\ lines_changed r = Nat.min (lines_added r) (lines_removed r)
  end
  /\ (forall i other, i <> "" ->
        (forall s, s ∈ snapshots_of self d -> s_id s <> i) ->
        diff unified_diff isoformat self now d (Some i) other = None
        /\ diff unified_diff isoformat self now d other (Some i) = None).
Proof.
  intros Hwf. split.
  - unfold diff. cbv zeta.
    destruct (Nat.ltb_spec (length (snapshots_of self d)) 2) as [Hlt|Hge];
      [done|].
    destruct (last_two _ Hge) as (l0 & b & a & Hl & -> & ->).
    exists l0, b, a. simpl. repeat (split; [done|]). split; [|done].
    assert (_snapshots self !! d = Some (l0 ++ [b; a])) as Hm.
    { unfold snapshots_of in Hl.
      destruct (_snapshots self !! d) as [l|]; simpl in Hl; [by subst|].
      by destruct l0. }
    destruct (Hwf d _ Hm) as (_ & Hf & Hc).
    apply Forall_app in Hf as [_ Hf].
    apply Forall_cons in Hf as [[_ Hb] Hf].
    apply Forall_cons in Hf as [[_ Ha] _].
    intros Heq. apply (Hc (length l0) b a).
    + by rewrite lookup_app_r, Nat.sub_diag by lia.
    + rewrite lookup_app_r by lia.
      by replace (S (length l0) - length l0)%nat with 1%nat by lia.
    + by rewrite Hb, Ha, Heq.
  - intros i other Hi Hno. unfold diff. cbv zeta.
    destruct (_ <? _)%nat; [done|].
    destruct (decide (i = "")) as [?|_]; [done|].
    rewrite find_by_id_none by done. split; [done|].
    repeat case_match; done.
Qed.

End Diff.

Lemma diff_spec_witness :
  let self := backup_calls (fun t => t) init
                [mkBackupCall "s1" 1 "r1" "hostname r1" "manual" "";
                 mkBackupCall "s2" 2 "r1" "hostname r2" "manual" ""] in
  diff (fun _ _ _ _ => []) (fun _ => "") self 3 "r1" (Some "zz") None
  = None.
Proof.
  intros self.
  refine (proj1 (proj2 (diff_spec (fun t => t) (fun _ _ _ _ => [])
                          (fun _ => "") self 3 "r1" _) "zz" None _ _)).
  - apply backup_calls_keep_wf, store_wf_init.
  - discriminate.
  - intros s Hs. vm_compute in Hs.
    apply elem_of_cons in Hs as [->|Hs]; [discriminate|].
    apply elem_of_cons in Hs as [->|Hs]; [discriminate|].
    by apply elem_of_nil in Hs.
Defined.

Lemma backup_then_get_history_witness :
  let out := backup_config (fun t => t) init "s1" 1 "r1" "hostname r1"
               "manual" "" in
  get_history (snd out) "r1" 1 = [fst out].
Proof.
  intros out.
  refine (proj1 (proj2 (proj2 (backup_then_get_history (fun t => t) init
                                 "s1" 1 "r1" "hostname r1" "manual" "" 1
                                 _)))).
  lia.
Defined.

End ConfigQueriesProofs.

(** ** Topology: adjacency and blast radius *)

Module TopologyQueriesProofs.
Import Topology TopologyQueries.

Lemma add_neighbor_adjacency (self : TopologyDiscovery) (n : Neighbor) :
  adjacency_of_neighbors self -> adjacency_of_neighbors (add_neighbor self n).
Proof.
  intros Hinv a b. unfold add_neighbor. simpl.
  rewrite !TopologyProofs.adjacent_adj_add.
  assert (linked (_neighbors self ++ [n]) a b
          <-> linked (_neighbors self) a b
              \/ (local_device_id n = a /\ remote_device_id n = b)
              \/ (local_device_id n = b /\ remote_device_id n = a)) as ->.
  { unfold linked. split.
    - intros (n' & [Hin|Hin]%elem_of_app & Hn').
      + left. by exists n'.
      + apply list_elem_of_singleton in Hin as ->. by right.
    - intros [(n' & Hin & Hn')|Hn].
      + exists n'. split; [|done]. apply elem_of_app. by left.
      + exists n. split; [|done]. apply elem_of_app. right.
        by apply list_elem_of_singleton. }
  rewrite <- (Hinv a b).
  repeat case_decide; subst; rewrite ?elem_of_union, ?elem_of_singleton;
    intuition congruence.
Qed.

Lemma adjacency_of_neighbors_init : adjacency_of_neighbors init.
Proof.
  intros a b. unfold adjacent. simpl. rewrite lookup_empty. simpl. split.
  - set_solver.
  - intros (n & Hin & _). by apply elem_of_nil in Hin.
Qed.

Lemma add_neighbors_adjacency (ns : list Neighbor) :
  forall self, adjacency_of_neighbors self ->
               adjacency_of_neighbors (add_neighbors self ns).
Proof.
  unfold add_neighbors.
  induction ns as [|n ns IH]; intros self Hinv; [done|].
  simpl. by apply IH, add_neighbor_adjacency.
Qed.

Lemma add_neighbors_records (ns : list Neighbor) :
  forall self, _neighbors (add_neighbors self ns) = _neighbors self ++ ns.
Proof.
  unfold add_neighbors.
  induction ns as [|n ns IH]; intros self; simpl.
  - by rewrite app_nil_r.
  - rewrite IH. simpl. by rewrite <- app_assoc.
Qed.

Lemma linked_sym (ns : list Neighbor) (a b : string) :
  linked ns a b -> linked ns b a.
Proof. intros (n & Hin & Hn). exists n. split; [done|]. tauto. Qed.

Lemma adjacency_symmetric (self : TopologyDiscovery) :
  adjacency_of_neighbors self -> symmetric (_adjacency self).
Proof. intros Hinv a b Hb. by apply Hinv, linked_sym, Hinv. Qed.

(** X23. A topology built from the empty one by calls of [add_neighbor]
    keeps its records in call order ([neighbor_count] is the number of
    calls), and its adjacency says exactly what the records say:
    [get_neighbors(a)] lists, each once, the devices joined to [a] by some
    record in either direction. The adjacency is therefore symmetric. *)
Theorem add_neighbors_spec (ns : list Neighbor) :
  let self := add_neighbors init ns in
  _neighbors self = ns
  /\ neighbor_count self = length ns
  /\ (forall a b, b ∈ get_neighbors self a <-> linked ns a b)
  /\ (forall a, NoDup (get_neighbors self a))
  /\ (forall a b, b ∈ get_neighbors self a <-> a ∈ get_neighbors self b).
Proof.
  intros self.
  assert (_neighbors self = ns) as Hns
    by (subst self; by rewrite add_neighbors_records).
  assert (adjacency_of_neighbors self) as Hinv
    by apply add_neighbors_adjacency, adjacency_of_neighbors_init.
  split; [done|]. split; [unfold neighbor_count; by rewrite Hns|].
  split; [|split].
  - intros a b. unfold get_neighbors. rewrite elem_of_elements, <- Hns.
    apply Hinv.
  - intros a. apply NoDup_elements.
  - intros a b. unfold get_neighbors. rewrite !elem_of_elements.
    split; apply adjacency_symmetric; done.
Qed.

(** A walk can be extended at its start. *)
Lemma hops_cons (adj : gmap string (gset string)) (d u v : string)
    (n : nat) :
  u ∈ adjacent adj d -> hops adj u n v -> hops adj d (S n) v.
Proof.
  intros Hu Hh. induction Hh as [|n x y _ IH Hy].
  - econstructor; [constructor | done].
  - econstructor; [exact IH | done].
Qed.

Lemma hops_sym (adj : gmap string (gset string)) (d v : string) (n : nat) :
  symmetric adj -> hops adj d n v -> hops adj v n d.
Proof.
  intros Hsym Hh. induction Hh as [|n u v _ IH Hv].
  - constructor.
  - eapply hops_cons; [|exact IH]. by apply Hsym.
Qed.

Lemma elem_of_blast_radius (self : TopologyDiscovery) (d v : string)
    (k : Z) :
  v ∈ get_blast_radius self d k
  <-> v <> d /\ exists m, (m <= Z.to_nat k)%nat
                          /\ hops (_adjacency self) d m v.
Proof.
  unfold get_blast_radius.
  change (Nat.iter ?n ?f ?x) with (bfs_state (_adjacency self) d n).
  apply (proj1 (TopologyProofs.bfs_state_spec (_adjacency self) d
                  (Z.to_nat k)) v).
Qed.

(** X24. Blast radius on a symmetric adjacency (such as any topology
    built by [add_neighbor]): [v] is in the blast radius of [d] exactly
    when [d] is in the blast radius of [v], for the same number of hops.
    For every adjacency the blast radius never contains the device
    itself, is empty for [max_hops <= 0], and grows with [max_hops]. *)
Theorem get_blast_radius_symmetric (self : TopologyDiscovery) (d v : string)
    (k k' : Z) :
  symmetric (_adjacency self) ->
  (v ∈ get_blast_radius self d k <-> d ∈ get_blast_radius self v k)
  /\ (d ∉ get_blast_radius self d k)
  /\ (k <= 0 -> get_blast_radius self d k = ∅)
  /\ (k <= k' -> get_blast_radius self d k ⊆ get_blast_radius self d k').
Proof.
  intros Hsym. split; [|split; [|split]].
  - rewrite !elem_of_blast_radius.
    split; intros (Hne & m & Hm & Hh); (split; [done|]); exists m;
      (split; [done|]); by apply hops_sym.
  - rewrite elem_of_blast_radius. tauto.
  - intros Hk. apply set_eq. intros x. rewrite elem_of_blast_radius.
    split; [|set_solver]. intros (Hne & m & Hm & Hh).
    assert (m = 0%nat) as -> by lia.
    apply TopologyProofs.hops_O_inv in Hh. done.
  - intros Hk x. rewrite !elem_of_blast_radius.
    intros (Hne & m & Hm & Hh). split; [done|]. exists m. split; [lia|done].
Qed.

Lemma get_blast_radius_symmetric_witness :
  let nb := fun a b => mkNeighbor a "Gi0/0" b "Et1" "" None "lldp" 0 in
  let topo := add_neighbors init [nb "core" "dist1"; nb "dist1" "acc1"] in
  ("acc1" ∈ get_blast_radius topo "core" 2)
  <-> ("core" ∈ get_blast_radius topo "acc1" 2).
Proof.
  intros nb topo.
  refine (proj1 (get_blast_radius_symmetric topo "core" "acc1" 2 2 _)).
  apply adjacency_symmetric, add_neighbors_adjacency,
    adjacency_of_neighbors_init.
Defined.

End TopologyQueriesProofs.

(** ** Forecast agent: regression, confidence and trend *)

Module ForecastQueriesProofs.
Import Forecast ForecastQueries.

Lemma round_half_even_comp (x y : Q) :
  (x == y)%Q -> round_half_even x = round_half_even y.
Proof.
  intros H. unfold round_half_even. cbv zeta.
  rewrite (Qfloor_comp x y H).
  assert (x - inject_Z (Qfloor y) == y - inject_Z (Qfloor y))%Q as Hr
    by (by rewrite H).
  by rewrite (Qcompare_comp _ _ Hr (1 # 2) (1 # 2) (Qeq_refl _)).
Qed.

Lemma py_round_comp (x y : Q) (k : nat) :
  (x == y)%Q -> py_round x k = py_round y k.
Proof.
  intros H. unfold py_round. cbv zeta.
  rewrite (round_half_even_comp (x * _) (y * inject_Z (10 ^ Z.of_nat k))).
  - done.
  - by rewrite H.
Qed.

Lemma qsum_app (l1 l2 : list Q) :
  (qsum (l1 ++ l2) == qsum l1 + qsum l2)%Q.
Proof.
  induction l1 as [|x l1 IH]; simpl.
  - ring.
  - change (foldr Qplus 0%Q (l1 ++ l2)) with (qsum (l1 ++ l2)).
    change (foldr Qplus 0%Q l1) with (qsum l1).
    rewrite IH. ring.
Qed.

Lemma range_S (n : nat) :
  range (S n) = range n ++ [inject_Z (Z.of_nat n)].
Proof. unfold range. by rewrite seq_S, map_app. Qed.

Lemma length_range (n : nat) : length (range n) = n.
Proof. unfold range. by rewrite length_map, length_seq. Qed.

Lemma inject_Z_S (n : nat) :
  (inject_Z (Z.of_nat (S n)) == inject_Z (Z.of_nat n) + 1)%Q.
Proof. by rewrite Nat2Z.inj_succ, <- Z.add_1_r, inject_Z_plus. Qed.

Lemma sum_range (n : nat) :
  (2 * qsum (range n)
   == inject_Z (Z.of_nat n) * (inject_Z (Z.of_nat n) - 1))%Q.
Proof.
  induction n as [|n IH].
  - reflexivity.
  - rewrite range_S, qsum_app, inject_Z_S. simpl qsum.
    rewrite Qmult_plus_distr_r, IH. ring.
Qed.

Lemma sum_sq_range (n : nat) :
  (6 * qsum (map (fun xi => xi * xi) (range n))
   == (inject_Z (Z.of_nat n) - 1) * inject_Z (Z.of_nat n)
      * (2 * inject_Z (Z.of_nat n) - 1))%Q.
Proof.
  induction n as [|n IH].
  - reflexivity.
  - rewrite range_S, map_app, qsum_app, inject_Z_S. simpl qsum.
    rewrite Qmult_plus_distr_r, IH. ring.
Qed.

(** The denominator of the regression over [0, 1, ..., n - 1]. *)
Lemma denom_range (n : nat) :
  (2 <= n)%nat ->
  ~ (inject_Z (Z.of_nat n) * qsum (map (fun xi => xi * xi) (range n))
     - qsum (range n) * qsum (range n) == 0)%Q.
Proof.
  intros Hn.
  set (N := inject_Z (Z.of_nat n)).
  set (s1 := qsum (range n)).
  set (s2 := qsum (map (fun xi => xi * xi)%Q (range n))).
  assert (12 * (N * s2 - s1 * s1) == N * N * (N - 1) * (N + 1))%Q as H12.
  { assert (12 * (N * s2 - s1 * s1)
            == 2 * N * (6 * s2) - 3 * ((2 * s1) * (2 * s1)))%Q as ->
      by ring.
    subst s1 s2 N. rewrite sum_range, sum_sq_range. ring. }
  assert (2 <= N)%Q as HN.
  { subst N. unfold Qle, inject_Z. simpl. lia. }
  intros H0. rewrite H0 in H12.
  assert (0 < N * N * (N - 1) * (N + 1))%Q as Hpos.
  { repeat apply Qmult_lt_0_compat; lra. }
  rewrite <- H12 in Hpos. lra.
Qed.

Lemma sum_linear (a b : Q) (x : list Q) :
  (qsum (map (fun xi => a * xi + b) x)
   == a * qsum x + inject_Z (Z.of_nat (length x)) * b)%Q.
Proof.
  induction x as [|v x IH].
  - simpl. ring.
  - cbn [map length]. rewrite inject_Z_S. simpl qsum.
    change (foldr Qplus 0%Q (map ?f x)) with (qsum (map f x)).
    change (foldr Qplus 0%Q x) with (qsum x).
    rewrite IH. ring.
Qed.

Lemma sum_xy_linear (a b : Q) (x : list Q) :
  (qsum (map (fun p => fst p * snd p) (zip x (map (fun xi => a * xi + b) x)))
   == a * qsum (map (fun xi => xi * xi) x) + b * qsum x)%Q.
Proof.
  induction x as [|v x IH].
  - simpl. ring.
  - cbn [map zip zip_with fst snd]. simpl qsum.
    change (foldr Qplus 0%Q (map ?f ?l)) with (qsum (map f l)).
    change (foldr Qplus 0%Q x) with (qsum x).
    rewrite IH. ring.
Qed.

(** The regression recovers a line from the sums that the line gives. *)
Lemma regression_of_sums (a b : Q) (x y : list Q) :
  ~ (inject_Z (Z.of_nat (length x)) * qsum (map (fun xi => xi * xi) x)
     - qsum x * qsum x == 0)%Q ->
  (qsum y == a * qsum x + inject_Z (Z.of_nat (length x)) * b)%Q ->
  (qsum (map (fun p => fst p * snd p) (zip x y))
   == a * qsum (map (fun xi => xi * xi) x) + b * qsum x)%Q ->
  (fst (_linear_regression x y) == a)%Q
  /\ (snd (_linear_regression x y) == b)%Q.
Proof.
  intros Hden Hsy Hsxy. unfold _linear_regression. cbv zeta.
  set (n := inject_Z (Z.of_nat (length x))) in *.
  set (sx := qsum x) in *.
  set (sx2 := qsum (map (fun xi => xi * xi)%Q x)) in *.
  assert (~ (n == 0)%Q) as Hn.
  { intros Hn. apply Hden. subst n sx sx2.
    destruct x as [|v x]; [reflexivity|].
    exfalso. revert Hn. unfold Qeq, inject_Z. simpl. lia. }
  destruct (Qeq_bool n 0) eqn:En; [by apply Qeq_bool_iff in En|].
  destruct (Qeq_bool (n * sx2 - sx * sx) 0) eqn:Ed;
    [by apply Qeq_bool_iff in Ed|].
  cbn [fst snd].
  set (sy := qsum y) in *.
  set (sxy := qsum (map (fun p => fst p * snd p)%Q (zip x y))) in *.
  assert ((n * sxy - sx * sy) / (n * sx2 - sx * sx) == a)%Q as Hslope.
  { rewrite Hsy, Hsxy. field. exact Hden. }
  split; [exact Hslope|].
  rewrite Hslope, Hsy. field. exact Hn.
Qed.

(** On samples that lie on a line the regression recovers the line. *)
Lemma linear_regression_exact (a b : Q) (x : list Q) :
  ~ (inject_Z (Z.of_nat (length x)) * qsum (map (fun xi => xi * xi) x)
     - qsum x * qsum x == 0)%Q ->
  (fst (_linear_regression x (map (fun xi => a * xi + b) x)) == a)%Q
  /\ (snd (_linear_regression x (map (fun xi => a * xi + b) x)) == b)%Q.
Proof.
  intros Hden. apply regression_of_sums; [done| |].
  - apply sum_linear.
  - apply sum_xy_linear.
Qed.

Lemma qmax_comp (x y : Q) : (x == y)%Q -> (qmax 0 x == qmax 0 y)%Q.
Proof.
  intros H. unfold qmax.
  rewrite (Qleb_comp 0%Q 0%Q (Qeq_refl 0%Q) x y H).
  by destruct (Qle_bool 0%Q y).
Qed.

Lemma lt_comp (x y z : Q) : (x == y)%Q -> Py.lt x z = Py.lt y z.
Proof.
  intros H. unfold Py.lt. by rewrite (Qleb_comp z z (Qeq_refl z) x y H).
Qed.

Lemma last_linear_series (a b : Q) (n : nat) :
  last (linear_series a b (S n))
  = Some (a * inject_Z (Z.of_nat n) + b)%Q.
Proof.
  unfold linear_series. rewrite range_S, map_app. simpl. apply last_snoc.
Qed.

Lemma ss_res_linear (a b slope intercept : Q) (x : list Q) :
  (slope == a)%Q -> (intercept == b)%Q ->
  (ss_res x (map (fun xi => a * xi + b) x) slope intercept == 0)%Q.
Proof.
  intros Hs Hi. unfold ss_res.
  induction x as [|v x IH].
  - reflexivity.
  - cbn [map zip zip_with fst snd]. simpl qsum.
    change (foldr Qplus 0%Q (map ?f ?l)) with (qsum (map f l)).
    rewrite IH, Hs, Hi. ring.
Qed.

Lemma calculate_confidence_linear (a b slope intercept : Q) (x : list Q) :
  (slope == a)%Q -> (intercept == b)%Q ->
  (_calculate_confidence x (map (fun xi => a * xi + b) x) slope intercept
   == 1)%Q.
Proof.
  intros Hs Hi. unfold _calculate_confidence.
  destruct (Qeq_bool _ 0%Q); [reflexivity|]. cbv zeta.
  rewrite (py_round_comp _ 1%Q 3); [reflexivity|].
  assert (1 - ss_res x (map (fun xi => a * xi + b) x) slope intercept
              / ss_tot (map (fun xi => a * xi + b) x) == 1)%Q as Hone.
  { rewrite (ss_res_linear a b slope intercept x Hs Hi).
    unfold Qdiv. ring. }
  rewrite (qmax_comp _ 1%Q Hone). reflexivity.
Qed.

Lemma py_round_int (k : Z) (d : nat) :
  (py_round (inject_Z k) d == inject_Z k)%Q.
Proof.
  unfold py_round. cbv zeta.
  assert (0 < 10 ^ Z.of_nat d) as Hpos by (apply Z.pow_pos_nonneg; lia).
  assert (round_half_even (inject_Z k * inject_Z (10 ^ Z.of_nat d))
          = k * 10 ^ Z.of_nat d) as ->.
  { rewrite (round_half_even_comp _ (inject_Z (k * 10 ^ Z.of_nat d)))
      by (by rewrite inject_Z_mult).
    unfold round_half_even. cbv zeta. rewrite Qfloor_Z.
    assert (inject_Z (k * 10 ^ Z.of_nat d)
            - inject_Z (k * 10 ^ Z.of_nat d) == 0)%Q as Hr by ring.
    by rewrite (Qcompare_comp _ _ Hr (1 # 2) (1 # 2) (Qeq_refl _)). }
  rewrite inject_Z_mult. field.
  intros H0. revert H0. unfold Qeq, inject_Z. simpl. lia.
Qed.

Lemma round_half_even_nonneg (w : Q) : (0 <= w)%Q -> 0 <= round_half_even w.
Proof.
  intros H0. unfold round_half_even. cbv zeta.
  assert (0 <= Qfloor w) as Hf.
  { change 0 with (Qfloor 0). by apply Qfloor_resp_le. }
  destruct (Qcompare _ _); [destruct (Z.even _)| |]; lia.
Qed.

Section WithEnvironment.
Variable float_str : Q -> string.

(** The prediction on a series that lies on a line, in exact arithmetic. *)
Lemma predict_line_exact (now : Z) (a b threshold : Q) (n : nat)
    (interval_seconds : Z) :
  (3 <= n)%nat ->
  let latest := (a * inject_Z (Z.of_nat (n - 1)) + b)%Q in
  let seconds :=
    ((threshold - latest) / a * inject_Z interval_seconds)%Q in
  match predict_threshold_breach float_str now (linear_series a b n)
          threshold interval_seconds with
  | no_breach slope current thr trend _ =>
      (a <= 0)%Q /\ slope = py_round a 6 /\ current = py_round latest 2
      /\ thr = threshold
      /\ trend = (if Py.lt a 0 then "decreasing" else "stable")
  | breach_predicted current thr slope ebt hours confidence _ =>
      (0 < a)%Q /\ current = py_round latest 2 /\ thr = threshold
      /\ slope = py_round a 6
      /\ ebt = now + round_half_even (qmax 0 seconds * 1000000)
      /\ hours = py_round (seconds / 3600) 1
      /\ (confidence == 1)%Q
  | _ => False
  end.
Proof.
  intros Hn latest seconds. unfold predict_threshold_breach.
  assert (length (linear_series a b n) = n) as Hlen
    by (unfold linear_series; by rewrite length_map, length_range).
  rewrite Hlen.
  destruct (Nat.ltb_spec n 3) as [|_]; [lia|]. cbv zeta.
  destruct (linear_regression_exact a b (range n)) as [Hs Hi].
  { rewrite length_range. apply denom_range. lia. }
  fold (linear_series a b n) in Hs, Hi.
  destruct (_linear_regression (range n) (linear_series a b n))
    as [slope intercept] eqn:E.
  cbn [fst snd] in Hs, Hi.
  assert (last (linear_series a b n) = Some latest) as ->.
  { destruct n as [|n']; [lia|]. rewrite last_linear_series.
    subst latest. by replace (S n' - 1)%nat with n' by lia. }
  cbn [default option_rect from_option].
  destruct (Qle_bool slope 0%Q) eqn:El.
  - apply Qle_bool_iff in El. rewrite Hs in El.
    split; [exact El|]. split; [by apply py_round_comp|].
    split; [done|]. split; [done|].
    by rewrite (lt_comp slope a 0%Q Hs).
  - unfold Py.gt. rewrite El. cbn [negb].
    assert (0 < a)%Q as Ha.
    { apply Qnot_le_lt. intros Hle.
      assert (Qle_bool slope 0%Q = true) as Ht
        by (apply Qle_bool_iff; by rewrite Hs).
      congruence. }
    assert ((threshold - latest) / slope * inject_Z interval_seconds
            == seconds)%Q as Hsec by (subst seconds; by rewrite Hs).
    split; [exact Ha|]. split; [done|]. split; [done|].
    split; [by apply py_round_comp|]. split.
    { f_equal. apply round_half_even_comp.
      by rewrite (qmax_comp _ _ Hsec). }
    split.
    { apply py_round_comp. by rewrite Hsec. }
    by apply calculate_confidence_linear.
Qed.

(** X25. On a series that lies on a line with integer coefficients,
    [b, a + b, 2a + b, ...] with [|a|, |b| <= 1000] and between 3 and 100
    samples, the regression is exact (every sum and product it forms is an
    integer far below 2^53) and the prediction follows the sign of [a].
    For [a <= 0] the answer is [no_breach] with slope [a], the latest
    sample as current value and trend [decreasing] ([a < 0]) or [stable]
    ([a = 0]), whatever the threshold, even one below the current value.
    For [a > 0] the answer is [breach_predicted] with slope [a],
    confidence 1 and a breach time that is not before the clock. The
    answer is never [stable] or [insufficient_data]. The threshold is at
    most 10^6 in magnitude, the interval at most an hour and the clock
    reads a time before the year 8000, so that the breach time is a
    [datetime]. *)
Theorem predict_integer_line (now : Z) (a b : Z) (threshold : Q) (n : nat)
    (interval_seconds : Z) :
  (3 <= n <= 100)%nat ->
  -1000 <= a <= 1000 -> -1000 <= b <= 1000 ->
  (Qabs threshold <= 1000000)%Q ->
  0 <= interval_seconds <= 3600 ->
  0 <= now <= 2 * 10 ^ 17 ->
  let latest := a * Z.of_nat (n - 1) + b in
  match predict_threshold_breach float_str now
          (linear_series (inject_Z a) (inject_Z b) n)
          threshold interval_seconds with
  | no_breach slope current thr trend _ =>
      a <= 0 /\ (slope == inject_Z a)%Q /\ (current == inject_Z latest)%Q
      /\ thr = threshold
      /\ trend = (if a <? 0 then "decreasing" else "stable")
  | breach_predicted current thr slope ebt hours confidence _ =>
      0 < a /\ (current == inject_Z latest)%Q /\ thr = threshold
      /\ (slope == inject_Z a)%Q /\ now <= ebt /\ (confidence == 1)%Q
  | _ => False
  end.
Proof.
  intros [Hn _] _ _ _ _ _ latest.
  pose proof (predict_line_exact now (inject_Z a) (inject_Z b) threshold n
                interval_seconds Hn) as H.
  cbv zeta in H.
  assert (inject_Z a * inject_Z (Z.of_nat (n - 1)) + inject_Z b
          == inject_Z latest)%Q as Hlatest.
  { subst latest. by rewrite inject_Z_plus, inject_Z_mult. }
  destruct (predict_threshold_breach _ _ _ _ _)
    as [|slope current thr trend msg
        |current thr slope ebt hours confidence msg|]; try done.
  - destruct H as (Ha & -> & -> & -> & ->).
    split; [by rewrite Zle_Qle|].
    split; [apply py_round_int|].
    split; [by rewrite (py_round_comp _ _ 2 Hlatest), py_round_int|].
    split; [done|].
    unfold Py.lt. change 0%Q with (inject_Z 0).
    destruct (Z.ltb_spec a 0) as [Hlt|Hge].
    + assert (Qle_bool (inject_Z 0) (inject_Z a) = false) as ->; [|done].
      apply not_true_is_false. rewrite Qle_bool_iff, <- Zle_Qle. lia.
    + assert (Qle_bool (inject_Z 0) (inject_Z a) = true) as ->; [|done].
      by rewrite Qle_bool_iff, <- Zle_Qle.
  - destruct H as (Ha & -> & -> & -> & -> & _ & Hc).
    split; [by rewrite Zlt_Qlt|].
    split; [by rewrite (py_round_comp _ _ 2 Hlatest), py_round_int|].
    split; [done|].
    split; [apply py_round_int|].
    split; [|done].
    assert (0 <= round_half_even
                   (qmax 0 ((threshold
                             - (inject_Z a * inject_Z (Z.of_nat (n - 1))
                                + inject_Z b))
                            / inject_Z a * inject_Z interval_seconds)
                    * 1000000)); [|lia].
    apply round_half_even_nonneg.
    apply Qmult_le_0_compat; [|done].
    unfold qmax. destruct (Qle_bool 0 _) eqn:E; [|apply Qle_refl].
    by apply Qle_bool_iff in E.
Qed.

End WithEnvironment.

Lemma predict_integer_line_witness :
  match predict_threshold_breach (fun _ => "") 0
          (linear_series (inject_Z 2) (inject_Z 10) 10) 50 60 with
  | breach_predicted current _ slope _ _ confidence _ =>
      (current == 28)%Q /\ (slope == 2)%Q /\ (confidence == 1)%Q
  | _ => False
  end.
Proof.
  pose proof (predict_integer_line (fun _ => "") 0 2 10 50%Q 10 60) as H.
  cbv zeta in H.
  assert (3 <= 10 <= 100)%nat as Hn by lia.
  assert (-1000 <= 2 <= 1000) as Ha by lia.
  assert (-1000 <= 10 <= 1000) as Hb by lia.
  assert (Qabs 50 <= 1000000)%Q as Ht by (by vm_compute).
  assert (0 <= 60 <= 3600) as Hi by lia.
  assert (0 <= 0 <= 2 * 10 ^ 17) as Hnow by lia.
  specialize (H Hn Ha Hb Ht Hi Hnow).
  destruct (predict_threshold_breach _ _ _ _ _); try done.
  - destruct H as (Hle & _). lia.
  - by destruct H as (_ & ? & _ & ? & _ & ?).
Defined.

Lemma sq_nonneg (x : Q) : (0 <= x * x)%Q.
Proof.
  destruct (Qlt_le_dec x 0) as [H|H].
  - assert (x * x == (- x) * (- x))%Q as -> by ring.
    apply Qmult_le_0_compat; lra.
  - by apply Qmult_le_0_compat.
Qed.

Lemma qsum_sq_nonneg {A : Type} (g : A -> Q) (l : list A) :
  (0 <= qsum (map (fun p => g p * g p) l))%Q.
Proof.
  induction l as [|p l IH]; simpl; [lra|].
  change (foldr Qplus 0%Q (map ?f l)) with (qsum (map f l)).
  pose proof (sq_nonneg (g p)). lra.
Qed.

Lemma round_half_even_bounds (w : Q) (k : Z) :
  (0 <= w)%Q -> (w <= inject_Z k)%Q -> 0 <= round_half_even w <= k.
Proof.
  intros H0 Hk. unfold round_half_even. cbv zeta.
  set (f := Qfloor w).
  pose proof (Qfloor_le w) as Hf. fold f in Hf.
  assert (0 <= f) as Hf0.
  { change 0 with (Qfloor 0). by apply Qfloor_resp_le. }
  assert (f <= k) as Hfk by (rewrite Zle_Qle; lra).
  assert ((w - inject_Z f <= 0)%Q \/ f + 1 <= k) as Hcase.
  { destruct (Z.eq_dec f k) as [->|]; [left; lra | right; lia]. }
  destruct (Qcompare (w - inject_Z f) (1 # 2)) eqn:C.
  - apply Qeq_alt in C.
    destruct Hcase as [Hr|Hr]; [lra|]. destruct (Z.even f); lia.
  - lia.
  - apply Qgt_alt in C. destruct Hcase as [Hr|Hr]; [lra | lia].
Qed.

Lemma py_round_unit (z : Q) :
  (0 <= z)%Q -> (z <= 1)%Q -> (0 <= py_round z 3 <= 1)%Q.
Proof.
  intros H0 H1. unfold py_round. cbv zeta.
  change (inject_Z (10 ^ Z.of_nat 3)) with 1000%Q.
  destruct (round_half_even_bounds (z * 1000) 1000) as [Hlo Hhi].
  - lra.
  - change (inject_Z 1000) with 1000%Q. lra.
  - rewrite Zle_Qle in Hlo, Hhi.
    change (inject_Z 0) with 0%Q in Hlo.
    change (inject_Z 1000) with 1000%Q in Hhi.
    split.
    + apply Qle_shift_div_l; lra.
    + apply Qle_shift_div_r; lra.
Qed.

(** X26. The confidence that [_calculate_confidence] reports is always
    between 0 and 1, whatever the samples and whatever line it is asked
    to judge. *)
Theorem calculate_confidence_range (x y : list Q) (slope intercept : Q) :
  (0 <= _calculate_confidence x y slope intercept <= 1)%Q.
Proof.
  unfold _calculate_confidence.
  destruct (Qeq_bool (ss_tot y) 0) eqn:E; [lra|]. cbv zeta.
  assert (0 <= ss_tot y)%Q as Ht by apply qsum_sq_nonneg.
  assert (0 <= ss_res x y slope intercept)%Q as Hr.
  { unfold ss_res.
    apply (qsum_sq_nonneg
             (fun p : Q * Q => snd p - (slope * fst p + intercept))%Q). }
  assert (0 < ss_tot y)%Q as Hpos.
  { apply Qle_lt_or_eq in Ht as [?|Heq]; [done|].
    symmetry in Heq. apply Qeq_bool_iff in Heq. congruence. }
  assert (0 <= ss_res x y slope intercept / ss_tot y)%Q as Hq
    by (apply Qle_shift_div_l; lra).
  apply py_round_unit; unfold qmax;
    destruct (Qle_bool 0 _) eqn:El; try lra.
  by apply Qle_bool_iff in El.
Qed.

Lemma series_sum_replicate (k : nat) (v : Q) :
  (qsum (replicate k v) == inject_Z (Z.of_nat k) * v)%Q.
Proof. apply HealthQueriesProofs.qsum_replicate. Qed.

Lemma series_mean_replicate (k : nat) (v : Q) :
  (0 < k)%nat -> (mean (replicate k v) == v)%Q.
Proof. apply HealthQueriesProofs.mean_replicate. Qed.

Lemma sum_sq_dev_replicate (k : nat) (c mu : Q) :
  (mu == c)%Q ->
  (qsum (map (fun v => (v - mu) * (v - mu)) (replicate k c)) == 0)%Q.
Proof.
  intros Hmu. change (map ?f (replicate k c)) with (f <$> replicate k c).
  rewrite fmap_replicate, series_sum_replicate, Hmu. ring.
Qed.

Lemma sum_xy_replicate (c : Q) (x : list Q) :
  (qsum (map (fun p => fst p * snd p) (zip x (replicate (length x) c)))
   == c * qsum x)%Q.
Proof.
  induction x as [|v x IH].
  - simpl. ring.
  - cbn [length replicate zip zip_with map fst snd]. simpl qsum.
    change (foldr Qplus 0%Q (map ?f ?l)) with (qsum (map f l)).
    change (foldr Qplus 0%Q x) with (qsum x).
    rewrite IH. ring.
Qed.

Lemma linear_regression_flat (c : Q) (n : nat) :
  (2 <= n)%nat ->
  (fst (_linear_regression (range n) (replicate n c)) == 0)%Q
  /\ (snd (_linear_regression (range n) (replicate n c)) == c)%Q.
Proof.
  intros Hn. apply regression_of_sums.
  - rewrite length_range. by apply denom_range.
  - rewrite length_range, series_sum_replicate. ring.
  - pose proof (sum_xy_replicate c (range n)) as H.
    rewrite length_range in H. rewrite H. ring.
Qed.

Lemma min_list_replicate (c : Q) (n : nat) :
  (0 < n)%nat -> min_list (replicate n c) = c.
Proof.
  destruct n as [|n]; [lia|]. intros _. simpl.
  induction n as [|n IH]; [done|]. simpl.
  assert (Py.lt c c = false) as ->; [|done].
  unfold Py.lt. apply negb_false_iff, Qle_bool_iff, Qle_refl.
Qed.

Lemma max_list_replicate (c : Q) (n : nat) :
  (0 < n)%nat -> max_list (replicate n c) = c.
Proof.
  destruct n as [|n]; [lia|]. intros _. simpl.
  induction n as [|n IH]; [done|]. simpl.
  assert (Py.gt c c = false) as ->; [|done].
  unfold Py.gt. apply negb_false_iff, Qle_bool_iff, Qle_refl.
Qed.

Lemma detect_seasonality_flat (c : Q) (n : nat) :
  _detect_seasonality (replicate n c) 10 = false.
Proof.
  unfold _detect_seasonality. cbv zeta. rewrite length_replicate.
  destruct (Nat.ltb_spec n (10 * 2)) as [|Hlen]; [done|].
  assert (Qeq_bool
            (qsum (map (fun v => (v - mean (replicate n c))
                                 * (v - mean (replicate n c)))%Q
                       (replicate n c)) / inject_Z (Z.of_nat n)) 0
          = true) as ->; [|done].
  apply Qeq_bool_iff.
  rewrite sum_sq_dev_replicate by (apply series_mean_replicate; lia).
  unfold Qdiv. ring.
Qed.

(** X27. [_detect_seasonality] with a positive period reports no
    seasonality for a series of fewer than [2 * min_period + 2] samples
    of magnitude at most 10^100 (with [2 * min_period] or
    [2 * min_period + 1] samples the length test passes but no lag is
    tried; the bound keeps the squares of the variance in the range of a
    float) and for a flat series of any length. *)
Theorem detect_seasonality_none (values : list Q) (min_period : nat) :
  (0 < min_period)%nat ->
  ((length values < 2 * min_period + 2)%nat
   /\ Forall (fun v => (Qabs v <= inject_Z (10 ^ 100))%Q) values)
  \/ (exists c, values = replicate (length values) c) ->
  _detect_seasonality values min_period = false.
Proof.
  intros Hp Hcase. unfold _detect_seasonality. cbv zeta.
  destruct (Nat.ltb_spec (length values) (min_period * 2)) as [|Hlen];
    [done|].
  destruct (Qeq_bool _ 0) eqn:E; [done|].
  destruct Hcase as [[Hshort _]|[c Hc]].
  - assert (length values / 2 - min_period = 0)%nat as ->; [|done].
    assert (length values / 2 < min_period + 1)%nat; [|lia].
    apply Nat.Div0.div_lt_upper_bound. lia.
  - exfalso. revert E. rewrite Hc, length_replicate.
    set (n := length values) in *.
    assert (Qeq_bool
              (qsum (map (fun v => (v - mean (replicate n c))
                                   * (v - mean (replicate n c)))%Q
                         (replicate n c)) / inject_Z (Z.of_nat n)) 0
            = true) as ->; [|done].
    apply Qeq_bool_iff.
    rewrite sum_sq_dev_replicate by (apply series_mean_replicate; lia).
    unfold Qdiv. ring.
Qed.

Lemma detect_seasonality_none_witness :
  _detect_seasonality (map inject_Z [1; 9; 1; 9; 1; 9; 1; 9; 1; 9; 1; 9;
                                     1; 9; 1; 9; 1; 9; 1; 9; 1]) 10
  = false.
Proof.
  apply detect_seasonality_none; [lia|]. left. split; [simpl; lia|].
  repeat constructor; by vm_compute.
Defined.

Section Trend.
Variable sqrt : Q -> Q.

(** [math.sqrt(0.0)] is [0.0]. *)
Hypothesis sqrt_zero : forall x : Q, (x == 0)%Q -> (sqrt x == 0)%Q.

Lemma stdev_replicate (c : Q) (n : nat) :
  (0 < n)%nat -> (Anomaly.stdev sqrt (replicate n c) == 0)%Q.
Proof.
  intros Hn. apply sqrt_zero. unfold Anomaly.stdev. cbv zeta.
  change Anomaly.qsum with qsum. change Anomaly.mean with mean.
  rewrite sum_sq_dev_replicate by (by apply series_mean_replicate).
  unfold Qdiv. ring.
Qed.

(** The report on a flat series, in exact arithmetic. *)
Lemma analyze_trend_replicate (c : Q) (n : nat) :
  (3 <= n)%nat ->
  analyze_trend sqrt (replicate n c)
  = trend_report "decreasing" (py_round 0 6) (py_round c 2) (py_round 0 2)
      (py_round c 2) (py_round c 2) false n.
Proof.
  intros Hn. unfold analyze_trend. rewrite length_replicate.
  destruct (Nat.ltb_spec n 3) as [|_]; [lia|]. cbv zeta.
  destruct (linear_regression_flat c n) as [Hs Hi]; [lia|].
  destruct (_linear_regression (range n) (replicate n c))
    as [slope intercept].
  cbn [fst snd] in Hs, Hi.
  destruct (Nat.ltb_spec 1 n) as [_|]; [|lia].
  pose proof (stdev_replicate c n) as Hstd.
  set (std := Anomaly.stdev sqrt (replicate n c)) in *.
  assert (std == 0)%Q as Hstd0 by (apply Hstd; lia).
  assert (_detect_seasonality (replicate n c) 10 = false) as ->.
  { apply detect_seasonality_flat. }
  assert (Py.lt (Qabs slope) (std * 0.01) = false) as ->.
  { unfold Py.lt. apply negb_false_iff, Qle_bool_iff.
    rewrite Hstd0, Hs. by vm_compute. }
  assert (Py.gt slope 0 = false) as ->.
  { unfold Py.gt. apply negb_false_iff, Qle_bool_iff. rewrite Hs.
    apply Qle_refl. }
  rewrite min_list_replicate, max_list_replicate by lia.
  rewrite (py_round_comp slope 0%Q 6 Hs).
  rewrite (py_round_comp std 0%Q 2 Hstd0).
  rewrite (py_round_comp (mean (replicate n c)) c 2)
    by (apply series_mean_replicate; lia).
  done.
Qed.

(** X28. On a flat series of between 3 and 1000 samples, all equal to an
    integer of magnitude at most 10^6 (so that the sums of the
    regression are integers below 2^53 and cancel exactly),
    [analyze_trend] does not answer [stable]: the slope 0 is not strictly
    below 1% of the standard deviation 0, so the trend falls through to
    [decreasing]. The report carries slope 0, standard deviation 0, the
    constant as mean, minimum and maximum, and no seasonality. Only
    [sqrt(0) = 0] is assumed of the square root. *)
Theorem analyze_trend_flat (k : Z) (n : nat) :
  (3 <= n <= 1000)%nat -> -1000000 <= k <= 1000000 ->
  exists slope avg std mn mx,
    analyze_trend sqrt (replicate n (inject_Z k))
    = trend_report "decreasing" slope avg std mn mx false n
    /\ (slope == 0)%Q /\ (avg == inject_Z k)%Q /\ (std == 0)%Q
    /\ (mn == inject_Z k)%Q /\ (mx == inject_Z k)%Q.
Proof.
  intros [Hn _] _.
  exists (py_round 0 6), (py_round (inject_Z k) 2), (py_round 0 2),
    (py_round (inject_Z k) 2), (py_round (inject_Z k) 2).
  split; [by apply analyze_trend_replicate|].
  split; [apply (py_round_int 0 6)|].
  split; [apply py_round_int|].
  split; [apply (py_round_int 0 2)|].
  split; apply py_round_int.
Qed.

End Trend.

Lemma analyze_trend_flat_witness :
  exists slope avg std mn mx,
    analyze_trend (fun x => x) (replicate 12 (inject_Z 50))
    = trend_report "decreasing" slope avg std mn mx false 12
    /\ (slope == 0)%Q /\ (avg == inject_Z 50)%Q /\ (std == 0)%Q
    /\ (mn == inject_Z 50)%Q /\ (mx == inject_Z 50)%Q.
Proof.
  apply (analyze_trend_flat (fun x => x)); [by intros x Hx | lia | lia].
Defined.

End ForecastQueriesProofs.

(** ** Topology: paths *)

Module TopologyPathsProofs.
Import Topology TopologyPaths.

Lemma adjacent_mentioned (adj : gmap string (gset string)) (u v : string) :
  v ∈ adjacent adj u -> v ∈ mentioned adj.
Proof.
  unfold adjacent, mentioned. intros Hv.
  destruct (adj !! u) as [s|] eqn:E; simpl in Hv; [|set_solver].
  apply elem_of_union_list. exists s. split; [|done].
  apply list_elem_of_fmap. exists (u, s). split; [done|].
  by apply elem_of_map_to_list.
Qed.

Lemma walk_snoc (adj : gmap string (gset string)) (p : list string)
    (u v : string) :
  walk adj p -> last p = Some u -> v ∈ adjacent adj u -> walk adj (p ++ [v]).
Proof.
  intros Hw Hl Hv i x y Hx Hy.
  pose proof (lookup_lt_Some _ _ _ Hy) as Hlt.
  rewrite length_app in Hlt. simpl in Hlt.
  destruct (decide (S i < length p)%nat) as [Hi|Hi].
  - rewrite lookup_app_l in Hx by lia. rewrite lookup_app_l in Hy by lia.
    by eapply Hw.
  - rewrite lookup_app_l in Hx by lia. rewrite lookup_app_r in Hy by lia.
    replace (S i - length p)%nat with 0%nat in Hy by lia.
    simpl in Hy. injection Hy as <-.
    rewrite last_lookup in Hl.
    replace (pred (length p)) with i in Hl by lia.
    rewrite Hx in Hl. by injection Hl as ->.
Qed.

Lemma head_snoc (p : list string) (a v : string) :
  head p = Some a -> head (p ++ [v]) = Some a.
Proof. by destruct p. Qed.

(** The scan of the neighbours of the last device of a good path. *)
Lemma scan_spec (adj : gmap string (gset string)) (source target u : string)
    (path : list string) (U : gset string) (neighbors : list string) :
  head path = Some source -> last path = Some u -> walk adj path ->
  (forall v, v ∈ neighbors -> v ∈ adjacent adj u /\ v ∈ U) ->
  forall (visited : gset string) (queue : list (list string)),
  visited ⊆ U ->
  Forall (fun p => exists w, path_between adj source w p) queue ->
  match scan target path neighbors visited queue with
  | inl p => path_between adj source target p
  | inr (visited', queue') =>
      visited' ⊆ U
      /\ (length queue' + base.size visited
          = length queue + base.size visited')%nat
      /\ Forall (fun p => exists w, path_between adj source w p) queue'
  end.
Proof.
  intros Hh Hl Hw.
  induction neighbors as [|v rest IH]; intros Hn visited queue HU Hq.
  - simpl. done.
  - assert (v ∈ adjacent adj u /\ v ∈ U) as [Hv HvU]
      by (apply Hn; by left).
    assert (forall v', v' ∈ rest -> v' ∈ adjacent adj u /\ v' ∈ U) as Hn'
      by (intros v' H; apply Hn; by right).
    assert (path_between adj source v (path ++ [v])) as Hgood.
    { split; [by apply head_snoc|]. split; [apply last_snoc|].
      by eapply walk_snoc. }
    simpl. destruct (decide (v = target)) as [->|Hne]; [done|].
    destruct (decide (v ∈ visited)) as [Hin|Hnin].
    + by apply IH.
    + specialize (IH Hn' (visited ∪ {[ v ]}) (queue ++ [path ++ [v]])).
      destruct (scan target path rest (visited ∪ {[ v ]})
                  (queue ++ [path ++ [v]])) as [p|[visited' queue']].
      * apply IH; [set_solver|]. apply Forall_app. split; [done|].
        constructor; [by exists v | constructor].
      * destruct IH as (HU' & Hc & Hq'); [set_solver| |].
        { apply Forall_app. split; [done|].
          constructor; [by exists v | constructor]. }
        rewrite length_app, size_union, size_singleton in Hc by set_solver.
        simpl in Hc. split; [done|]. split; [lia | done].
Qed.

Lemma search_spec (adj : gmap string (gset string)) (source target : string)
    (U : gset string) :
  mentioned adj ⊆ U ->
  forall (fuel : nat) (visited : gset string) (queue : list (list string)),
  visited ⊆ U ->
  Forall (fun p => exists w, path_between adj source w p) queue ->
  (base.size U + length queue < fuel + base.size visited)%nat ->
  exists p, search fuel adj target visited queue = Some p
            /\ (p = [] \/ path_between adj source target p).
Proof.
  intros HU. induction fuel as [|fuel IH]; intros visited queue Hv Hq Hf.
  - apply subseteq_size in Hv. lia.
  - destruct queue as [|path queue]; [exists []; split; [done | by left]|].
    apply Forall_cons in Hq as [(w & Hh & Hl & Hw) Hq].
    cbn [search]. rewrite Hl. change (default "" (Some w)) with w.
    pose proof (scan_spec adj source target w path U
                  (elements (adjacent adj w)) Hh Hl Hw) as Hscan.
    specialize (Hscan
      (fun v H => conj (proj1 (elem_of_elements _ v) H)
                       (HU v (adjacent_mentioned adj w v
                                (proj1 (elem_of_elements _ v) H))))
      visited queue Hv Hq).
    destruct (scan target path (elements (adjacent adj w)) visited queue)
      as [p|[visited' queue']].
    + exists p. split; [done | by right].
    + destruct Hscan as (HU' & Hc & Hq'). apply IH; [done|done|].
      simpl in Hf. lia.
Qed.

Lemma scan_inl_nonempty (target : string) (path neighbors : list string) :
  forall (visited : gset string) (queue : list (list string)) p,
  scan target path neighbors visited queue = inl p -> p <> [].
Proof.
  induction neighbors as [|v rest IH]; intros visited queue p; simpl;
    [done|].
  repeat case_decide; try by apply IH.
  intros [= <-]. by destruct path.
Qed.

(** What a completed scan leaves behind: every neighbour is visited and
    is not the target, and every newly visited device ends a new path of
    the queue. *)
Lemma scan_closed (target : string) (path neighbors : list string) :
  forall (visited : gset string) (queue : list (list string))
         (visited' : gset string) (queue' : list (list string)),
  scan target path neighbors visited queue = inr (visited', queue') ->
  visited ⊆ visited'
  /\ (forall v, v ∈ neighbors -> v <> target /\ v ∈ visited')
  /\ exists extra,
       queue' = queue ++ extra
       /\ forall x, x ∈ visited' -> x ∉ visited ->
                    exists p, p ∈ extra /\ last p = Some x.
Proof.
  induction neighbors as [|v rest IH];
    intros visited queue visited' queue'; simpl.
  - intros [= <- <-]. split; [done|]. split.
    + intros v Hv. by apply elem_of_nil in Hv.
    + exists []. rewrite app_nil_r. split; [done|]. intros x ? ?. done.
  - destruct (decide (v = target)) as [|Hne]; [done|].
    destruct (decide (v ∈ visited)) as [Hin|Hnin]; intros Hscan.
    + destruct (IH _ _ _ _ Hscan) as (Hsub & Hn & extra & -> & Hex).
      split; [done|]. split; [|by exists extra].
      intros v' [->|Hv']%elem_of_cons; [|by apply Hn].
      split; [done|]. by apply Hsub.
    + destruct (IH _ _ _ _ Hscan) as (Hsub & Hn & extra & -> & Hex).
      split; [set_solver|]. split.
      * intros v' [->|Hv']%elem_of_cons; [|by apply Hn].
        split; [done|]. apply Hsub. set_solver.
      * exists ((path ++ [v]) :: extra).
        split; [by rewrite <- app_assoc|].
        intros x Hx Hnx. destruct (decide (x = v)) as [->|Hxv].
        -- exists (path ++ [v]). split; [by left | apply last_snoc].
        -- destruct (Hex x Hx) as (p & Hp & Hl); [set_solver|].
           exists p. split; [by right | done].
Qed.

(** When the search gives up, the devices it has visited are closed
    under the adjacency and none of them has the target as a
    neighbour. *)
Lemma search_empty_closed (adj : gmap string (gset string))
    (target : string) :
  forall (fuel : nat) (visited : gset string) (queue : list (list string)),
  search fuel adj target visited queue = Some [] ->
  (forall u, u ∈ visited ->
     (exists p, p ∈ queue /\ last p = Some u)
     \/ (forall v, v ∈ adjacent adj u -> v <> target /\ v ∈ visited)) ->
  exists V : gset string,
    visited ⊆ V
    /\ forall u v, u ∈ V -> v ∈ adjacent adj u -> v <> target /\ v ∈ V.
Proof.
  induction fuel as [|fuel IH]; intros visited queue Hs Hinv; [done|].
  destruct queue as [|path queue].
  - exists visited. split; [done|]. intros u v Hu Hv.
    destruct (Hinv u Hu) as [(p & Hp & _)|Hc]; [|by apply Hc].
    by apply elem_of_nil in Hp.
  - cbn [search] in Hs.
    destruct (scan target path
                (elements (adjacent adj (default "" (last path))))
                visited queue) as [p|[visited' queue']] eqn:E.
    { injection Hs as ->. by apply scan_inl_nonempty in E. }
    destruct (scan_closed _ _ _ _ _ _ _ E)
      as (Hsub & Hn & extra & -> & Hex).
    destruct (IH visited' (queue ++ extra) Hs) as (V & HV & Hclosed).
    + intros u Hu. destruct (decide (u ∈ visited)) as [Hold|Hnew].
      * destruct (Hinv u Hold) as [(p & [->|Hp]%elem_of_cons & Hl)|Hc].
        -- right. intros v Hv. apply Hn. rewrite Hl. simpl.
           by apply elem_of_elements.
        -- left. exists p. split; [|done]. apply elem_of_app. by left.
        -- right. intros v Hv. destruct (Hc v Hv). split; [done|].
           by apply Hsub.
      * destruct (Hex u Hu Hnew) as (p & Hp & Hl).
        left. exists p. split; [|done]. apply elem_of_app. by right.
    + exists V. split; [by etrans|]. done.
Qed.

Lemma hops_closed (adj : gmap string (gset string)) (source target : string)
    (V : gset string) :
  source ∈ V ->
  (forall u v, u ∈ V -> v ∈ adjacent adj u -> v <> target /\ v ∈ V) ->
  forall n v, hops adj source n v -> v ∈ V /\ (n <> 0%nat -> v <> target).
Proof.
  intros Hs Hc n v Hh. induction Hh as [|n u v _ [IHu _] Hv].
  - done.
  - destruct (Hc u v IHu Hv). done.
Qed.

Lemma hops_isolated (adj : gmap string (gset string)) (source : string) :
  adjacent adj source = ∅ ->
  forall n v, hops adj source n v -> n = 0%nat.
Proof.
  intros He n v Hh. induction Hh as [|n u v Hu IH Hv]; [done|].
  exfalso. destruct n as [|n]; [|done].
  apply TopologyProofs.hops_O_inv in Hu as ->. set_solver.
Qed.

(** X29. [get_path] terminates: the search never needs more iterations
    than there are devices, so any larger fuel gives the same answer.
    The answer is [source] alone when source and target coincide, the
    empty list when the source has no adjacency entry, and otherwise
    either the empty list or a path that starts at the source, ends at
    the target and only steps between adjacent devices. The empty list
    is only answered, for distinct devices, when no walk of any length
    leads from the source to the target. *)
Theorem get_path_spec (self : TopologyDiscovery) (source target : string) :
  (forall fuel, (enough_fuel self source <= fuel)%nat ->
     get_path_fuel fuel self source target
     = Some (get_path self source target))
  /\ (source = target -> get_path self source target = [source])
  /\ (source <> target -> _adjacency self !! source = None ->
      get_path self source target = [])
  /\ (get_path self source target = []
      \/ path_between (_adjacency self) source target
           (get_path self source target))
  /\ (source <> target -> get_path self source target = [] ->
      forall n, ~ hops (_adjacency self) source n target).
Proof.
  set (U := mentioned (_adjacency self) ∪ {[ source ]}).
  assert (forall fuel, (enough_fuel self source <= fuel)%nat ->
            exists p, get_path_fuel fuel self source target = Some p
                      /\ (source = target -> p = [source])
                      /\ (source <> target ->
                          _adjacency self !! source = None -> p = [])
                      /\ (p = []
                          \/ path_between (_adjacency self) source target p)
                      /\ (source <> target -> p = [] ->
                          forall n, ~ hops (_adjacency self) source n target)
                      /\ (forall fuel',
                            (enough_fuel self source <= fuel')%nat ->
                            get_path_fuel fuel' self source target = Some p))
    as Hall.
  { intros fuel Hfuel. unfold get_path_fuel.
    destruct (decide (source = target)) as [->|Hne].
    { exists [target]. split; [done|]. split; [done|]. split; [done|].
      split; [|done]. right. split; [done|]. split; [done|].
      intros i x y Hx Hy. destruct i; done. }
    assert (forall n v, hops (_adjacency self) source n v ->
              n = 0%nat -> v = source) as Hzero.
    { intros n v Hh ->. by apply TopologyProofs.hops_O_inv in Hh. }
    destruct (decide (_adjacency self !! source = None)) as [Hn|Hn].
    { exists []. split; [done|]. split; [done|]. split; [done|].
      split; [by left|]. split; [|done].
      intros _ _ n Hh. apply Hne. symmetry. apply (Hzero n); [done|].
      eapply hops_isolated; [|exact Hh].
      unfold adjacent. by rewrite Hn. }
    assert (forall f, (enough_fuel self source <= f)%nat ->
              exists p, search f (_adjacency self) target {[ source ]}
                          [[source]] = Some p
                        /\ (p = [] \/ path_between (_adjacency self) source
                                        target p)) as Hs.
    { intros f Hf.
      apply (search_spec (_adjacency self) source target U).
      - subst U. set_solver.
      - subst U. set_solver.
      - constructor; [|constructor]. exists source.
        split; [done|]. split; [done|]. intros i x y Hx Hy.
        destruct i; done.
      - rewrite size_singleton. simpl. unfold enough_fuel in Hf.
        fold U in Hf. lia. }
    destruct (Hs fuel Hfuel) as (p & Hp & Hgood).
    exists p. split; [done|]. split; [done|]. split; [done|].
    split; [done|]. split.
    { intros _ -> n Hh.
      destruct (search_empty_closed _ _ _ _ _ Hp) as (V & HV & Hclosed).
      - intros u ->%elem_of_singleton. left. exists [source].
        split; [by left | done].
      - destruct (hops_closed (_adjacency self) source target V)
          with (n := n) (v := target) as [_ Hnt];
          [set_solver | done | done |].
        destruct (decide (n = 0%nat)) as [Hn0|Hn0]; [|by apply Hnt].
        apply Hne. symmetry. by apply (Hzero n). }
    intros fuel' Hfuel'.
    destruct (Hs fuel' Hfuel') as (p' & Hp' & _). rewrite Hp'. f_equal.
    (* the answer does not depend on the fuel *)
    clear -Hp Hp'. revert fuel' p p' Hp Hp'.
    generalize ({[ source ]} : gset string) ([[source]]).
    induction fuel as [|fuel IH]; intros visited queue fuel' p p' Hp Hp';
      [done|].
    destruct fuel' as [|fuel']; [done|]. simpl in Hp, Hp'.
    destruct queue as [|path queue]; [congruence|].
    destruct (scan target path _ visited queue) as [q|[v' q']];
      [congruence|]. by eapply IH. }
  destruct (Hall (enough_fuel self source))
    as (p & Hp & H1 & H2 & H3 & H5 & H4);
    [done|].
  assert (get_path self source target = p) as ->
    by (unfold get_path; by rewrite Hp).
  done.
Qed.

Lemma get_path_spec_witness :
  let nb := fun a b => mkNeighbor a "Gi0/0" b "Et1" "" None "lldp" 0 in
  let topo := add_neighbor (add_neighbor init (nb "core" "dist1"))
                           (nb "dist1" "acc1") in
  get_path_fuel 100 topo "core" "acc1"
  = Some (get_path topo "core" "acc1")
  /\ get_path topo "core" "acc1" = ["core"; "dist1"; "acc1"].
Proof.
  intros nb topo. split; [|reflexivity].
  apply (proj1 (get_path_spec topo "core" "acc1")).
  vm_compute. lia.
Defined.

End TopologyPathsProofs.

(** ** Topology: links *)

Module TopologyLinksProofs.
Import Topology TopologyLinks.

Lemma sorted_pair_comm (a b : string) : sorted_pair a b = sorted_pair b a.
Proof.
  unfold sorted_pair, String.ltb.
  rewrite (String.compare_antisym a b).
  destruct (String.compare b a) eqn:E; simpl; try done.
  by apply String.compare_eq_iff in E as ->.
Qed.

Lemma key_of_to_link (n : Neighbor) : key_of_link (to_link n) = link_key n.
Proof. done. Qed.

Lemma link_key_reversed (n : Neighbor) : link_key (reversed n) = link_key n.
Proof. unfold link_key, reversed. simpl. apply sorted_pair_comm. Qed.

Lemma link_step_eq (links : list TopologyLink)
    (seen : gset (string * string)) (n : Neighbor) :
  link_step (links, seen) n
  = if decide (link_key n ∈ seen) then (links, seen)
    else (links ++ [to_link n], seen ∪ {[ link_key n ]}).
Proof. done. Qed.

(** The loop invariant of [build_topology]. *)
Lemma link_fold_spec (ns : list Neighbor) :
  forall (links : list TopologyLink) (seen : gset (string * string)),
  seen = list_to_set (map key_of_link links) ->
  NoDup (map key_of_link links) ->
  snd (foldl link_step (links, seen) ns)
  = list_to_set (map key_of_link (fst (foldl link_step (links, seen) ns)))
  /\ NoDup (map key_of_link (fst (foldl link_step (links, seen) ns)))
  /\ (exists added, fst (foldl link_step (links, seen) ns) = links ++ added
                    /\ added `sublist_of` map to_link ns)
  /\ (forall n, n ∈ ns ->
        link_key n ∈ snd (foldl link_step (links, seen) ns)).
Proof.
  induction ns as [|n ns IH]; intros links seen Hseen Hnd; cbn [foldl].
  - simpl. split; [done|]. split; [done|]. split.
    + exists []. by rewrite app_nil_r.
    + intros n Hn. by apply elem_of_nil in Hn.
  - rewrite link_step_eq.
    destruct (decide (link_key n ∈ seen)) as [Hin|Hnin].
    + destruct (IH links seen Hseen Hnd)
        as (H1 & H2 & (added & H3 & H4) & H5).
      split; [done|]. split; [done|]. split.
      * exists added. split; [done|]. simpl. by apply sublist_cons.
      * intros n' [->|Hn']%elem_of_cons; [|by apply H5].
        rewrite H1, H3, map_app, list_to_set_app_L, <- Hseen. set_solver.
    + destruct (IH (links ++ [to_link n]) (seen ∪ {[ link_key n ]}))
        as (H1 & H2 & (added & H3 & H4) & H5).
      * rewrite map_app, list_to_set_app_L, Hseen. simpl.
        rewrite key_of_to_link. set_solver.
      * rewrite map_app. apply NoDup_app. split; [done|]. split.
        -- intros k Hk [->|Hk']%elem_of_cons.
           ++ apply Hnin. rewrite Hseen. by apply elem_of_list_to_set.
           ++ by apply elem_of_nil in Hk'.
        -- simpl. apply NoDup_singleton.
      * split; [done|]. split; [done|]. split.
        -- exists (to_link n :: added). rewrite H3, <- app_assoc.
           split; [done|]. simpl. by apply sublist_skip.
        -- intros n' [->|Hn']%elem_of_cons; [|by apply H5].
           rewrite H1, H3, !map_app, !list_to_set_app_L. simpl.
           rewrite key_of_to_link. set_solver.
Qed.

(** The links of the loop of [build_topology] are those it started with
    and those built from the records whose key was not seen before, in
    the set or in an earlier record. *)
Lemma link_fold_first (ns : list Neighbor) :
  forall (links : list TopologyLink) (seen : gset (string * string))
         (l : TopologyLink),
  l ∈ fst (foldl link_step (links, seen) ns)
  <-> (l ∈ links)
      \/ exists i n, ns !! i = Some n /\ l = to_link n
                     /\ (link_key n ∉ seen)
                     /\ forall j m, (j < i)%nat -> ns !! j = Some m ->
                                    link_key m <> link_key n.
Proof.
  induction ns as [|n0 ns IH]; intros links seen l; cbn [foldl].
  - simpl. split; [by left|]. intros [?|(i & n & Hi & _)]; [done|].
    by rewrite lookup_nil in Hi.
  - rewrite link_step_eq.
    destruct (decide (link_key n0 ∈ seen)) as [Hin|Hnin]; rewrite IH.
    + split; (intros [?|(i & n & Hi & -> & Hs & Hfirst)]; [by left|right]).
      * exists (S i), n. split; [done|]. split; [done|]. split; [done|].
        intros [|j] m Hj Hm.
        -- simpl in Hm. injection Hm as <-. intros Heq. apply Hs.
           by rewrite <- Heq.
        -- apply (Hfirst j m); [lia|done].
      * destruct i as [|i].
        -- simpl in Hi. injection Hi as <-. done.
        -- exists i, n. split; [done|]. split; [done|]. split; [done|].
           intros j m Hj Hm. apply (Hfirst (S j) m); [lia|done].
    + split.
      * intros [Hl|(i & n & Hi & -> & Hs & Hfirst)].
        -- apply elem_of_app in Hl as [?|Hl]; [by left|right].
           apply list_elem_of_singleton in Hl as ->.
           exists 0%nat, n0. split; [done|]. split; [done|].
           split; [done|]. intros j m Hj. lia.
        -- right. exists (S i), n. split; [done|]. split; [done|].
           split; [set_solver|].
           intros [|j] m Hj Hm.
           ++ simpl in Hm. injection Hm as <-. set_solver.
           ++ apply (Hfirst j m); [lia|done].
      * intros [?|(i & n & Hi & -> & Hs & Hfirst)].
        -- left. apply elem_of_app. by left.
        -- destruct i as [|i].
           ++ simpl in Hi. injection Hi as <-. left. apply elem_of_app.
              right. by apply list_elem_of_singleton.
           ++ right. exists i, n. split; [done|]. split; [done|].
              split.
              ** assert (link_key n0 <> link_key n) as Hne
                   by (apply (Hfirst 0%nat n0); [lia|done]).
                 set_solver.
              ** intros j m Hj Hm. apply (Hfirst (S j) m); [lia|done].
Qed.

(** X30. [build_topology] keeps one link per link key, the first record
    of each key, in the order of the records: the keys of the links are
    pairwise different, the links are built from neighbor records in
    their order, a link is kept exactly when it is built from a record
    that no earlier record shares its key with, and every record has its
    key among the links; so there are at most as many links as records.
    A relation that is reported from both ends has the same key for both
    records and yields a single link, the one of the record that comes
    first. *)
Theorem build_links_spec (self : TopologyDiscovery) :
  let links := build_links self in
  NoDup (map key_of_link links)
  /\ links `sublist_of` map to_link (_neighbors self)
  /\ (forall l, l ∈ links
        <-> exists i n, _neighbors self !! i = Some n /\ l = to_link n
                        /\ forall j m, (j < i)%nat ->
                              _neighbors self !! j = Some m ->
                              link_key m <> link_key n)
  /\ (forall n, n ∈ _neighbors self ->
        exists l, l ∈ links /\ key_of_link l = link_key n)
  /\ (link_count self <= length (_neighbors self))%nat
  /\ (forall n, link_key (reversed n) = link_key n).
Proof.
  intros links. subst links. unfold link_count, build_links.
  destruct (link_fold_spec (_neighbors self) [] ∅)
    as (H1 & H2 & (added & H3 & H4) & H5); [done | constructor |].
  pose proof (link_fold_first (_neighbors self) [] ∅) as Hfirst.
  simpl in H3. rewrite H3 in *.
  split; [done|]. split; [done|]. split; [|split; [|split]].
  - intros l. rewrite Hfirst. split.
    + intros [Hl|(i & n & Hi & Hl & _ & Hf)];
        [by apply elem_of_nil in Hl|].
      by exists i, n.
    + intros (i & n & Hi & Hl & Hf). right. exists i, n.
      split; [done|]. split; [done|]. split; [set_solver|done].
  - intros n Hn. specialize (H5 n Hn). rewrite H1 in H5.
    apply elem_of_list_to_set in H5.
    change (link_key n ∈ key_of_link <$> added) in H5.
    apply list_elem_of_fmap in H5 as (l & Hl & Hin). by exists l.
  - apply sublist_length in H4. by rewrite length_map in H4.
  - apply link_key_reversed.
Qed.

End TopologyLinksProofs.
